(** * Virtual list: windowing and dynamic-height engine

    A shallow embedding of the script part of
    [src/virtual-list/virtual-list.vue] and the properties the specification
    states about it.

    Conventions of the embedding.
    - Finite JavaScript numbers that carry a height or a scroll offset are
      exact rationals ([Qc]); indices and counts are integers ([Z], [nat]).
      The values the refs hold are not rounded.  The test of line 297,
      whose outcome depends on rounding already for whole-number heights,
      is evaluated in binary64 ([double]), on the mean as the machine
      computes it.
    - The reactive refs of the component are the fields of one record
      [State]; every function of the script is a function on [State].
      The refs that only serve the scroll throttle ([isCalculating],
      [scrollTimeout], [lastMeasureTime]) and the template binding
      [scrollTop] are left out: no function below reads them.
    - A callback that the host runs later (the continuation of a geometry
      query) is a function of its own, named after the function that issues
      the query with the suffix [_cb]; its argument [rects] is what the host
      delivers.
    - [itemHeights] is a JavaScript array that is written by index: a slot is
      [None] when it is a hole, and a write past the end extends the array.
    - [positionCache] is a JavaScript object used as a map ([gmap]),
      [measuredIndices] a [Set] ([gset]). *)

From Stdlib Require Import ZArith QArith Qcanon Qround Lia Permutation.
From Stdlib Require SpecFloat.
From Equations Require Import Equations.
From stdpp Require Import base numbers list gmap sorting.

Set Warnings "-clear-no-such-hyp".

(** ** Numbers *)

(** The constant [n] of the source as a rational. *)
Definition num (n : Z) : Qc := Qc_of_Z n.

(** [Math.abs], [Math.max] on finite numbers. *)
Definition Qc_abs (x : Qc) : Qc := if decide (x < 0)%Qc then (- x)%Qc else x.
Definition Qc_max (x y : Qc) : Qc := if decide (x < y)%Qc then y else x.

(** Truthiness of a number: [0] is falsy. *)
Definition truthy (x : Qc) : bool := bool_decide (x ≠ 0%Qc).

(** [x || d] where [x] is a number or [undefined]. *)
Definition or_num (x : option Qc) (d : Qc) : Qc :=
  match x with
  | Some q => if truthy q then q else d
  | None => d
  end.

(** ** Doubles

    Binary64 as the Standard Library specifies it: precision 53, [emax]
    1024, every operation rounded to the nearest double, ties to even. *)
Definition double : Type := SpecFloat.spec_float.

Definition double_of_Z (z : Z) : double :=
  SpecFloat.binary_normalize 53 1024 z 0 false.

(** The double a number of the model stands for: the number itself when
    it is a double (its denominator is then a power of two), and the
    rounded quotient of numerator and denominator otherwise; [0.1] is
    [toDouble (1 / 10)]. *)
Definition toDouble (q : Qc) : double :=
  SpecFloat.SFdiv 53 1024
    (double_of_Z (Qnum q)) (double_of_Z (Zpos (Qden q))).

Definition double_add : double → double → double := SpecFloat.SFadd 53 1024.
Definition double_sub : double → double → double := SpecFloat.SFsub 53 1024.
Definition double_mul : double → double → double := SpecFloat.SFmul 53 1024.
Definition double_div : double → double → double := SpecFloat.SFdiv 53 1024.
Definition double_abs : double → double := SpecFloat.SFabs.

(** [a > b]; false when either is [NaN]. *)
Definition double_gt (a b : double) : bool := SpecFloat.SFltb b a.

(** The result of [Math.floor(a / b)]: an integer, or one of the three
    non-finite values a division by zero produces. *)
Inductive jsnum := Int (z : Z) | PosInf | NegInf | NaN.

Definition floor_div (a b : Qc) : jsnum :=
  if decide (b = 0%Qc) then
    if decide (0 < a)%Qc then PosInf
    else if decide (a < 0)%Qc then NegInf
    else NaN
  else Int (Qfloor (a / b)%Qc).

(** [Math.min(x, m)] and [Math.max(0, x)] for an integer [m]. *)
Definition js_min (x : jsnum) (m : Z) : jsnum :=
  match x with
  | Int z => Int (Z.min z m)
  | PosInf => Int m
  | NegInf => NegInf
  | NaN => NaN
  end.

Definition js_max0 (x : jsnum) : jsnum :=
  match x with
  | Int z => Int (Z.max 0 z)
  | PosInf => PosInf
  | NegInf => Int 0
  | NaN => NaN
  end.

(** [x <= y] on these values: every comparison with [NaN] is false. *)
Definition js_le (x y : jsnum) : Prop :=
  match x, y with
  | NaN, _ | _, NaN => False
  | NegInf, _ | _, PosInf => True
  | Int a, Int b => (a ≤ b)%Z
  | _, _ => False
  end.

(** ** Arrays *)

(** [a[z]] for a dense array: [undefined] outside of it. *)
Definition lookupZ {T} (a : list T) (z : Z) : option T :=
  if decide (z < 0)%Z then None else a !! Z.to_nat z.

(** [a[i]] for an array with holes. *)
Definition array_get {T} (a : list (option T)) (i : nat) : option T :=
  mjoin (a !! i).

(** [a[i] = v]: in place inside the array, extending it with holes past
    its end. *)
Definition array_set {T} (a : list (option T)) (i : nat) (v : T)
  : list (option T) :=
  if decide (i < length a) then <[i := Some v]> a
  else a ++ replicate (i - length a) None ++ [Some v].

(** [a.slice(start, end)] for integer arguments: a negative argument counts
    from the end of the array. *)
Definition slice_bound (len z : Z) : Z :=
  if decide (z < 0)%Z then Z.max (len + z) 0 else Z.min z len.

Definition js_slice {T} (a : list T) (start stop : Z) : list T :=
  let len := Z.of_nat (length a) in
  let s := slice_bound len start in
  let e := slice_bound len stop in
  take (Z.to_nat (e - s)) (drop (Z.to_nat s) a).

(** ** getIndexByScrollTop: the search loop

    [while (low <= high)] of lines 176-185; the array access is
    [accumulatedHeights.value[mid]], and a comparison with [undefined] is
    false on both sides, so an access outside the array returns [mid]. *)
Equations? bsearch (a : list Qc) (s : Qc) (low high : Z) : Z
  by wf (Z.to_nat (high - low + 1)) lt :=
  bsearch a s low high with decide (low ≤ high)%Z => {
    | right _ := Z.max 0 low;
    | left _ with lookupZ a ((low + high) `div` 2) => {
      | None := (low + high) `div` 2;
      | Some v with decide (v < s)%Qc => {
        | left _ := bsearch a s ((low + high) `div` 2 + 1) high;
        | right _ with decide (s < v)%Qc => {
          | left _ := bsearch a s low ((low + high) `div` 2 - 1);
          | right _ := (low + high) `div` 2 } } } }.
Proof.
  all: assert (low ≤ (low + high) `div` 2 ≤ high)%Z
    by (split; [apply Z.div_le_lower_bound | apply Z.div_le_upper_bound]; lia);
    lia.
Qed.

(** ** Data model *)

(** [props.positionMode]: the string ['absolute'] selects the absolute
    strategy, every other value the cumulative one (line 429). *)
Inductive PositionMode := absolute | cumulative.

(** The props the script reads.  [sampleCount] is read nowhere, and
    [measureDelay] is only the delay of a timer. *)
Record Props := {
  virtualListLength : Z;
  itemHeight : Qc;
  preloadCount : Z;
  dynamicHeight : bool;
  continuousHeight : bool;
  positionMode : PositionMode;
}.

(** What the geometry query delivers for one element: [dataset.index] when
    the element carries one, and [height]. *)
Record Rect := {
  dataset_index : option nat;
  height : Qc;
}.

(** What [console.error] / [console.warn] report in [updateElementHeight]. *)
Inductive Report :=
  | IndexOutOfRange (index : Z)       (* console.error, line 582 *)
  | NotInVisibleArea (index : Z).     (* console.warn, line 589 *)

(** ** Throttling

    Lines 96-104: [throttle(fn, delay)].  The closure keeps [lastCall]; a
    call at time [now] (what [new Date().getTime()] returns, in
    milliseconds) is dropped when [now - lastCall < delay]; otherwise it
    becomes the last call and [fn] runs.  The result is the new [lastCall]
    and whether [fn] runs. *)
Definition throttle (delay lastCall now : Z) : Z * bool :=
  if decide (now - lastCall < delay)%Z then (lastCall, false)
  else (now, true).

(** The calls of a sequence that run [fn], in order. *)
Fixpoint throttled (delay lastCall : Z) (calls : list Z) : list Z :=
  match calls with
  | [] => []
  | now :: rest =>
      let r := throttle delay lastCall now in
      if r.2 then now :: throttled delay r.1 rest
      else throttled delay r.1 rest
  end.

Section Engine.

Context {A : Type}.

(** An element of [copyList]: the payload of the source item, the [index]
    assigned on list replacement, and [measuredHeight] once
    [updateElementHeight] has stored one.  (The [id] of the element is part
    of the payload here: nothing in the script reads it.) *)
Record SourceItem := {
  payload : A;
  index : nat;
  measuredHeight : option Qc;
}.

(** An element of [virtualList]: the spread [...item] of the source element
    and the three fields [calculateVirtualList] adds. *)
Record VirtualItem := {
  source : SourceItem;
  virtualIndex : nat;
  translateY : Qc;
  vItemHeight : Qc;
}.

Definition vindex (v : VirtualItem) : nat := index (source v).

Definition set_translateY (y : Qc) (v : VirtualItem) : VirtualItem :=
  {| source := source v; virtualIndex := virtualIndex v;
     translateY := y; vItemHeight := vItemHeight v |}.

Definition set_vItemHeight (h : Qc) (v : VirtualItem) : VirtualItem :=
  {| source := source v; virtualIndex := virtualIndex v;
     translateY := translateY v; vItemHeight := h |}.

Definition set_measuredHeight (h : Qc) (x : SourceItem) : SourceItem :=
  {| payload := payload x; index := index x; measuredHeight := Some h |}.

Record State := {
  virtualList : list VirtualItem;
  copyList : list SourceItem;
  totalHeight : Qc;
  itemHeights : list (option Qc);
  averageHeight : Qc;
  measuredIndices : gset nat;
  currentIndex : Z;
  positionCache : gmap nat Qc;
  accumulatedHeights : list Qc;
  isScrolling : bool;
  (** the pending measurement timer and its [isInitial] argument *)
  heightUpdateTimeout : option bool;
}.

(** [arr.find(p)] followed by a write to the object found: the first
    element that satisfies [p] is updated in place. *)
Fixpoint update_first {T} (p : T → bool) (f : T → T) (l : list T) : list T :=
  match l with
  | [] => []
  | x :: l' => if p x then f x :: l' else x :: update_first p f l'
  end.

Definition has_index (i : nat) (v : VirtualItem) : bool :=
  bool_decide (vindex v = i).

(** Assignments to a single ref. *)
Definition set_virtualList (x : list VirtualItem) (st : State) : State :=
  {| virtualList := x; copyList := copyList st; totalHeight := totalHeight st;
     itemHeights := itemHeights st; averageHeight := averageHeight st;
     measuredIndices := measuredIndices st; currentIndex := currentIndex st;
     positionCache := positionCache st;
     accumulatedHeights := accumulatedHeights st;
     isScrolling := isScrolling st;
     heightUpdateTimeout := heightUpdateTimeout st |}.

Definition set_copyList (x : list SourceItem) (st : State) : State :=
  {| virtualList := virtualList st; copyList := x;
     totalHeight := totalHeight st;
     itemHeights := itemHeights st; averageHeight := averageHeight st;
     measuredIndices := measuredIndices st; currentIndex := currentIndex st;
     positionCache := positionCache st;
     accumulatedHeights := accumulatedHeights st;
     isScrolling := isScrolling st;
     heightUpdateTimeout := heightUpdateTimeout st |}.

Definition set_totalHeight (x : Qc) (st : State) : State :=
  {| virtualList := virtualList st; copyList := copyList st;
     totalHeight := x;
     itemHeights := itemHeights st; averageHeight := averageHeight st;
     measuredIndices := measuredIndices st; currentIndex := currentIndex st;
     positionCache := positionCache st;
     accumulatedHeights := accumulatedHeights st;
     isScrolling := isScrolling st;
     heightUpdateTimeout := heightUpdateTimeout st |}.

Definition set_itemHeights (x : list (option Qc)) (st : State) : State :=
  {| virtualList := virtualList st; copyList := copyList st;
     totalHeight := totalHeight st;
     itemHeights := x; averageHeight := averageHeight st;
     measuredIndices := measuredIndices st; currentIndex := currentIndex st;
     positionCache := positionCache st;
     accumulatedHeights := accumulatedHeights st;
     isScrolling := isScrolling st;
     heightUpdateTimeout := heightUpdateTimeout st |}.

Definition set_averageHeight (x : Qc) (st : State) : State :=
  {| virtualList := virtualList st; copyList := copyList st;
     totalHeight := totalHeight st;
     itemHeights := itemHeights st; averageHeight := x;
     measuredIndices := measuredIndices st; currentIndex := currentIndex st;
     positionCache := positionCache st;
     accumulatedHeights := accumulatedHeights st;
     isScrolling := isScrolling st;
     heightUpdateTimeout := heightUpdateTimeout st |}.

Definition set_measuredIndices (x : gset nat) (st : State) : State :=
  {| virtualList := virtualList st; copyList := copyList st;
     totalHeight := totalHeight st;
     itemHeights := itemHeights st; averageHeight := averageHeight st;
     measuredIndices := x; currentIndex := currentIndex st;
     positionCache := positionCache st;
     accumulatedHeights := accumulatedHeights st;
     isScrolling := isScrolling st;
     heightUpdateTimeout := heightUpdateTimeout st |}.

Definition set_currentIndex (x : Z) (st : State) : State :=
  {| virtualList := virtualList st; copyList := copyList st;
     totalHeight := totalHeight st;
     itemHeights := itemHeights st; averageHeight := averageHeight st;
     measuredIndices := measuredIndices st; currentIndex := x;
     positionCache := positionCache st;
     accumulatedHeights := accumulatedHeights st;
     isScrolling := isScrolling st;
     heightUpdateTimeout := heightUpdateTimeout st |}.

Definition set_positionCache (x : gmap nat Qc) (st : State) : State :=
  {| virtualList := virtualList st; copyList := copyList st;
     totalHeight := totalHeight st;
     itemHeights := itemHeights st; averageHeight := averageHeight st;
     measuredIndices := measuredIndices st; currentIndex := currentIndex st;
     positionCache := x;
     accumulatedHeights := accumulatedHeights st;
     isScrolling := isScrolling st;
     heightUpdateTimeout := heightUpdateTimeout st |}.

Definition set_accumulatedHeights (x : list Qc) (st : State) : State :=
  {| virtualList := virtualList st; copyList := copyList st;
     totalHeight := totalHeight st;
     itemHeights := itemHeights st; averageHeight := averageHeight st;
     measuredIndices := measuredIndices st; currentIndex := currentIndex st;
     positionCache := positionCache st;
     accumulatedHeights := x;
     isScrolling := isScrolling st;
     heightUpdateTimeout := heightUpdateTimeout st |}.

Definition set_isScrolling (x : bool) (st : State) : State :=
  {| virtualList := virtualList st; copyList := copyList st;
     totalHeight := totalHeight st;
     itemHeights := itemHeights st; averageHeight := averageHeight st;
     measuredIndices := measuredIndices st; currentIndex := currentIndex st;
     positionCache := positionCache st;
     accumulatedHeights := accumulatedHeights st;
     isScrolling := x;
     heightUpdateTimeout := heightUpdateTimeout st |}.

Definition set_heightUpdateTimeout (x : option bool) (st : State) : State :=
  {| virtualList := virtualList st; copyList := copyList st;
     totalHeight := totalHeight st;
     itemHeights := itemHeights st; averageHeight := averageHeight st;
     measuredIndices := measuredIndices st; currentIndex := currentIndex st;
     positionCache := positionCache st;
     accumulatedHeights := accumulatedHeights st;
     isScrolling := isScrolling st;
     heightUpdateTimeout := x |}.

(** ** Height model *)

(** [heightOf(i)]: [itemHeights.value[i] || averageHeight.value]. *)
Definition heightOf (st : State) (i : nat) : Qc :=
  or_num (array_get (itemHeights st) i) (averageHeight st).

(** Lines 229-240: the body of the [for] loop, on the pair
    ([heights], [sum]). *)
Definition accumulate (avg : Qc) (acc : list Qc * Qc) (h : option Qc)
  : list Qc * Qc :=
  let sum := (acc.2 + or_num h avg)%Qc in
  (acc.1 ++ [sum], sum).

Definition updateAccumulatedHeights (st : State) : State :=
  let r := foldl (accumulate (averageHeight st)) ([], 0%Qc) (itemHeights st) in
  set_totalHeight r.2 (set_accumulatedHeights r.1 st).

(** Lines 167-188. *)
Definition getIndexByScrollTop (st : State) (scrollTop : Qc) : jsnum :=
  match accumulatedHeights st with
  | [] => floor_div scrollTop (averageHeight st)
  | _ :: _ =>
      Int (bsearch (accumulatedHeights st) scrollTop 0
             (Z.of_nat (length (accumulatedHeights st)) - 1))
  end.

(** ** Measurement scheduler *)

(** Lines 208-226: a request while scrolling is dropped unless it is the
    initial one; otherwise the pending timer is replaced. *)
Definition scheduleHeightMeasurement (isInitial : bool) (st : State) : State :=
  if isScrolling st && negb isInitial then st
  else set_heightUpdateTimeout (Some isInitial) st.

(** Line 109: an accepted scroll event marks the component as scrolling. *)
Definition scrollStarts (st : State) : State := set_isScrolling true st.

(** Lines 117-123: the scroll timer fires 200 ms after the last accepted
    scroll event. *)
Definition scrollStops (p : Props) (st : State) : State :=
  let st1 := set_isScrolling false st in
  if continuousHeight p then scheduleHeightMeasurement false st1 else st1.

(** Lines 217-225: the measurement timer fires.  The state loses the
    timer; the result also tells which query is issued, if any: the guard
    of lines 245 and 323 is that dynamic heights are on and the window is
    not empty. *)
Definition measurementDue (p : Props) (st : State) : State * option bool :=
  (set_heightUpdateTimeout None st,
   match heightUpdateTimeout st with
   | Some isInitial =>
       if dynamicHeight p && negb (bool_decide (length (virtualList st) = 0))
       then Some isInitial else None
   | None => None
   end).

(** ** Position assigner *)

(** Lines 439-456: the body of [forEach] for one item, giving its offset
    and the cache after it. *)
Definition absolute_position (acc : list Qc) (cache : gmap nat Qc)
    (item : VirtualItem) : Qc * gmap nat Qc :=
  if decide (vindex item = 0) then (0%Qc, cache)
  else
    match cache !! vindex item with
    | Some y => (y, cache)
    | None =>
        let position := or_num (acc !! (vindex item - 1)) 0%Qc in
        (position, <[vindex item := position]> cache)
    end.

Fixpoint absolute_loop (acc : list Qc) (cache : gmap nat Qc)
    (items : list VirtualItem) : list VirtualItem * gmap nat Qc :=
  match items with
  | [] => ([], cache)
  | item :: rest =>
      let r := absolute_position acc cache item in
      let r' := absolute_loop acc r.2 rest in
      (set_translateY r.1 item :: r'.1, r'.2)
  end.

Definition updateItemPositionsAbsolute (st : State) : State :=
  let r := absolute_loop (accumulatedHeights st) (positionCache st)
             (virtualList st) in
  set_positionCache r.2 (set_virtualList r.1 st).

(** Lines 459-491.  [sortedList] holds the same objects as [virtualList],
    so it is a list of positions in [virtualList], stably sorted by the
    [index] of the object at each position; a write to [item.translateY]
    is a write to [virtualList] at that position, and [sortedList.find]
    reads the objects as they are now. *)
Fixpoint insert_by (key : nat → nat) (k : nat) (l : list nat) : list nat :=
  match l with
  | [] => [k]
  | k' :: l' =>
      if decide (key k ≤ key k') then k :: l else k' :: insert_by key k l'
  end.

Definition sort_by (key : nat → nat) (l : list nat) : list nat :=
  foldr (insert_by key) [] l.

Definition index_at (vl : list VirtualItem) (k : nat) : nat :=
  from_option vindex 0 (vl !! k).

Definition sortedList (vl : list VirtualItem) : list nat :=
  sort_by (index_at vl) (seq 0 (length vl)).

Fixpoint find_index (vl : list VirtualItem) (order : list nat) (i : nat)
  : option VirtualItem :=
  match order with
  | [] => None
  | k :: order' =>
      match vl !! k with
      | Some it => if decide (vindex it = i) then Some it
                   else find_index vl order' i
      | None => find_index vl order' i
      end
  end.

Definition cumulative_step (heights : list (option Qc)) (avg : Qc)
    (acc : list Qc) (order : list nat)
    (r : list VirtualItem * gmap nat Qc) (k : nat)
  : list VirtualItem * gmap nat Qc :=
  match r.1 !! k with
  | None => r
  | Some item =>
      if decide (vindex item = 0) then (<[k := set_translateY 0%Qc item]> r.1, r.2)
      else
        match r.2 !! vindex item with
        | Some y => (<[k := set_translateY y item]> r.1, r.2)
        | None =>
            let prevIndex := vindex item - 1 in
            let y :=
              match find_index r.1 order prevIndex with
              | Some prevItem =>
                  (translateY prevItem
                   + or_num (array_get heights prevIndex) avg)%Qc
              | None => or_num (acc !! prevIndex) 0%Qc
              end in
            (<[k := set_translateY y item]> r.1, <[vindex item := y]> r.2)
        end
  end.

Definition updateItemPositionsCumulative (st : State) : State :=
  let order := sortedList (virtualList st) in
  let r := foldl (cumulative_step (itemHeights st) (averageHeight st)
                    (accumulatedHeights st) order)
             (virtualList st, positionCache st) order in
  set_positionCache r.2 (set_virtualList r.1 st).

(** Lines 428-436. *)
Definition updateItemPositions (p : Props) (st : State) : State :=
  match positionMode p with
  | absolute => updateItemPositionsAbsolute st
  | cumulative => updateItemPositionsCumulative st
  end.

(** ** Window calculator *)

(** Lines 399-415: the element built for the source element [item] at
    position [idx] of the slice. *)
Definition materialize (st : State) (oldList : list VirtualItem)
    (idx : nat) (item : SourceItem) : VirtualItem :=
  {| source := item;
     virtualIndex := idx;
     translateY :=
       match find (has_index (index item)) oldList with
       | Some existingItem => translateY existingItem
       | None => 0%Qc
       end;
     vItemHeight := heightOf st (index item) |}.

(** Lines 387-425. *)
Definition calculateVirtualList (p : Props) (startIndex endIndex : Z)
    (st : State) : State :=
  let startIndex := Z.max 0 startIndex in
  let endIndex := Z.min (Z.of_nat (length (copyList st))) endIndex in
  let oldList := virtualList st in
  let oldIndices := map vindex oldList in
  let st1 :=
    set_virtualList
      (imap (materialize st oldList)
         (js_slice (copyList st) startIndex endIndex)) st in
  let st2 := updateItemPositions p st1 in
  let hasNewItems :=
    existsb (λ item, negb (bool_decide (vindex item ∈ oldIndices)))
      (virtualList st2) in
  if hasNewItems && dynamicHeight p && negb (isScrolling st2)
  then scheduleHeightMeasurement false st2
  else st2.

(** The call every window move makes (lines 156-162, 502-505, 515-518). *)
Definition windowAt (p : Props) (anchor : Z) (st : State) : State :=
  let n := Z.of_nat (length (copyList st)) in
  calculateVirtualList p
    (Z.max 0 (anchor - preloadCount p))
    (Z.min n (anchor + virtualListLength p + preloadCount p)) st.

(** Lines 148-151: the estimate after clamping. *)
Definition clampEstimate (p : Props) (st : State) (estimatedIndex : jsnum)
  : jsnum :=
  js_max0 (js_min estimatedIndex
             (Z.of_nat (length (copyList st)) - virtualListLength p)).

(** Lines 141-164.  After the clamp the estimate is an integer or [NaN];
    with [NaN] the comparison of line 154 is false. *)
Definition updateVisibleItems (p : Props) (scrollTop : Qc) (st : State)
  : State :=
  match copyList st with
  | [] => st
  | _ :: _ =>
      match clampEstimate p st (getIndexByScrollTop st scrollTop) with
      | Int estimatedIndex =>
          if decide (Z.abs (estimatedIndex - currentIndex st)
                     > preloadCount p `div` 3)%Z
          then windowAt p estimatedIndex (set_currentIndex estimatedIndex st)
          else st
      | _ => st
      end
  end.

(** Lines 494-507. *)
Definition handleScrollToLower (p : Props) (st : State) : State :=
  let newIndex :=
    Z.min (Z.of_nat (length (copyList st)) - virtualListLength p)
      (currentIndex st + virtualListLength p `div` 3) in
  if decide (newIndex > currentIndex st)%Z
  then windowAt p newIndex (set_currentIndex newIndex st)
  else st.

(** Lines 510-520. *)
Definition handleScrollToUpper (p : Props) (st : State) : State :=
  let newIndex :=
    Z.max 0 (currentIndex st - virtualListLength p `div` 3) in
  if decide (newIndex < currentIndex st)%Z
  then windowAt p newIndex (set_currentIndex newIndex st)
  else st.

(** ** List controller *)

(** Lines 191-205, without the [nextTick] callback. *)
Definition initItemHeights (p : Props) (st : State) : State :=
  updateAccumulatedHeights
    (set_positionCache ∅
       (set_itemHeights
          (replicate (length (copyList st)) (Some (itemHeight p))) st)).

(** Lines 523-561: the watcher of [props.list].  The callback that
    [initItemHeights] hands to [nextTick] runs when the watcher has
    returned, before any timer: it is the last step here. *)
Definition watch (p : Props) (newVal : list A) (st : State) : State :=
  match newVal with
  | [] =>
      set_averageHeight (itemHeight p)
        (set_accumulatedHeights []
           (set_positionCache ∅
              (set_measuredIndices ∅
                 (set_totalHeight 0%Qc
                    (set_copyList [] (set_virtualList [] st))))))
  | _ :: _ =>
      let st1 :=
        set_copyList
          (imap (λ i item,
                   {| payload := item; index := i; measuredHeight := None |})
             newVal) st in
      let st2 :=
        set_averageHeight (itemHeight p)
          (set_positionCache ∅ (set_measuredIndices ∅ st1)) in
      let st3 := initItemHeights p st2 in
      let st4 :=
        calculateVirtualList p 0
          (Z.min (Z.of_nat (length newVal))
             (virtualListLength p + preloadCount p)) st3 in
      scheduleHeightMeasurement true st4
  end.

(** Lines 572-577. *)
Definition refreshHeight (st : State) : State :=
  scheduleHeightMeasurement true
    (set_positionCache ∅ (set_measuredIndices ∅ st)).

(** ** Measurement batches *)

(** The test of lines 268 and 343 on one rect, and the two locals the body
    derives from it: [index] and [height = Math.max(1, rect.height)]. *)
Definition valid_rect (rect : Rect) : option (nat * Qc) :=
  match dataset_index rect with
  | Some i => if truthy (height rect) then Some (i, Qc_max 1 (height rect))
              else None
  | None => None
  end.

(** The locals of a batch. *)
Record Batch := {
  measuredCount : nat;
  batchTotal : Qc;           (* the local [totalHeight] *)
  heightsChanged : bool;
}.

Definition batch0 : Batch :=
  {| measuredCount := 0; batchTotal := 0%Qc; heightsChanged := false |}.

Definition count_rect (h : Qc) (changed : bool) (b : Batch) : Batch :=
  {| measuredCount := S (measuredCount b);
     batchTotal := (batchTotal b + h)%Qc;
     heightsChanged := heightsChanged b || changed |}.

(** [totalHeight / measuredCount]. *)
Definition batchMean (b : Batch) : Qc :=
  (batchTotal b / num (Z.of_nat (measuredCount b)))%Qc.

(** The three writes both batches make for a height they store:
    [itemHeights.value[index] = height], the [itemHeight] of the
    materialized element, and [delete positionCache.value[index]]. *)
Definition storeHeight (i : nat) (h : Qc) (st : State) : State :=
  set_positionCache (delete i (positionCache st))
    (set_virtualList
       (update_first (has_index i) (set_vItemHeight h) (virtualList st))
       (set_itemHeights (array_set (itemHeights st) i h) st)).

(** Lines 267-289: the body of [rects.forEach] of the initial sample. *)
Definition initialSample_rect (r : Batch * State) (rect : Rect)
  : Batch * State :=
  match valid_rect rect with
  | None => r
  | Some (i, h) =>
      (count_rect h false r.1,
       storeHeight i h
         (set_measuredIndices ({[ i ]} ∪ measuredIndices r.2) r.2))
  end.

(** Lines 298-309: the body of the loop over the unmeasured indices. *)
Definition rewriteUnmeasured (newAvgHeight : Qc) (st : State) (i : nat)
  : State :=
  if decide (i ∈ measuredIndices st) then st
  else storeHeight i newAvgHeight st.

(** Lines 263, 283 and 292 as the machine runs them: the local
    [totalHeight] starts at 0 and grows by [height] for every rect that
    passes the test, each addition rounded; [newAvgHeight] is its rounded
    quotient by [measuredCount]. *)
Definition doubleMean (rects : list Rect) : double :=
  let r :=
    foldl (λ (r : nat * double) rect,
             match valid_rect rect with
             | Some (_, h) => (S r.1, double_add r.2 (toDouble h))
             | None => r
             end) (0, double_of_Z 0) rects in
  double_div r.2 (double_of_Z (Z.of_nat r.1)).

(** Line 297, as the machine evaluates it:
    [Math.abs(newAvgHeight - props.itemHeight) > props.itemHeight * 0.1]. *)
Definition sampleGate (p : Props) (newAvgHeight : double) : bool :=
  double_gt
    (double_abs (double_sub newAvgHeight (toDouble (itemHeight p))))
    (double_mul (toDouble (itemHeight p)) (toDouble (1 / num 10))).

(** Lines 263-310: the heights, the average and the cache after the
    rects are processed, before the positions are rebuilt.  The average
    that is stored is the exact mean; the branch of line 297 is the one the
    machine takes. *)
Definition initialSample_heights (p : Props) (rects : list Rect) (st : State)
  : Batch * State :=
  let r := foldl initialSample_rect (batch0, st) rects in
  if decide (0 < measuredCount r.1) then
    let newAvgHeight := batchMean r.1 in
    let st1 := set_averageHeight newAvgHeight r.2 in
    if sampleGate p (doubleMean rects) then
      (r.1, foldl (rewriteUnmeasured newAvgHeight) st1
              (seq 0 (length (itemHeights st1))))
    else (r.1, st1)
  else r.

(** Lines 257-316: the continuation of the query of
    [measureInitialSample]. *)
Definition measureInitialSample_cb (p : Props) (rects : list Rect)
    (st : State) : State :=
  match rects with
  | [] => st
  | _ :: _ =>
      let r := initialSample_heights p rects st in
      if decide (0 < measuredCount r.1) then
        updateItemPositions p (updateAccumulatedHeights r.2)
      else r.2
  end.

(** Line 354. *)
Definition heightDiffers (st : State) (i : nat) (h : Qc) : bool :=
  match array_get (itemHeights st) i with
  | Some old =>
      negb (truthy old) || bool_decide (1 < Qc_abs (old - h))%Qc
  | None => true
  end.

(** Lines 342-367: the body of [rects.forEach] of a continuous batch. *)
Definition measureItemHeights_rect (r : Batch * State) (rect : Rect)
  : Batch * State :=
  match valid_rect rect with
  | None => r
  | Some (i, h) =>
      let st1 := set_measuredIndices ({[ i ]} ∪ measuredIndices r.2) r.2 in
      if heightDiffers st1 i h
      then (count_rect h true r.1, storeHeight i h st1)
      else (count_rect h false r.1, st1)
  end.

(** Lines 334-381: the continuation of the query of
    [measureItemHeights]. *)
Definition measureItemHeights_cb (p : Props) (rects : list Rect)
    (st : State) : State :=
  match rects with
  | [] => st
  | _ :: _ =>
      let r := foldl measureItemHeights_rect (batch0, st) rects in
      if heightsChanged r.1 && bool_decide (0 < measuredCount r.1) then
        let newAverage := batchMean r.1 in
        let st1 :=
          if decide (0 < newAverage)%Qc then
            set_averageHeight
              (averageHeight r.2 * (num 7 / num 10)
               + newAverage * (num 3 / num 10))%Qc r.2
          else r.2 in
        updateItemPositions p (updateAccumulatedHeights st1)
      else r.2
  end.

(** ** Targeted re-measurement *)

(** Lines 580-591: the part of [updateElementHeight] that runs at the
    call.  It returns the state it leaves and what it reported; without a
    report the query of lines 594-661 is issued. *)
Definition updateElementHeight (i : Z) (st : State) : State * option Report :=
  if decide ((i < 0)%Z ∨ (Z.of_nat (length (copyList st)) ≤ i)%Z)
  then (st, Some (IndexOutOfRange i))
  else
    match find (has_index (Z.to_nat i)) (virtualList st) with
    | None => (st, Some (NotInVisibleArea i))
    | Some _ => (st, None)
    end.

(** Lines 645-648. *)
Definition clearCacheFrom (i n : nat) (cache : gmap nat Qc) : gmap nat Qc :=
  foldl (λ c j, delete j c) cache (seq i (n - i)).

(** Lines 602-658: the continuation of the query of
    [updateElementHeight].  The notification of line 657 goes to the
    event bus of the host and leaves the refs as they are. *)
Definition updateElementHeight_cb (p : Props) (i : nat) (rects : list Rect)
    (st : State) : State :=
  match find (λ rect, bool_decide (dataset_index rect = Some i)) rects with
  | None => st
  | Some targetRect =>
      if truthy (height targetRect) then
        let h := Qc_max 1 (height targetRect) in
        let oldHeight := heightOf st i in
        if decide (Qc_abs (oldHeight - h) ≤ 1)%Qc then st
        else
          let st1 := set_itemHeights (array_set (itemHeights st) i h) st in
          let st2 :=
            set_virtualList
              (update_first (has_index i) (set_vItemHeight h)
                 (virtualList st1)) st1 in
          let st3 :=
            set_copyList
              (update_first (λ x, bool_decide (index x = i))
                 (set_measuredHeight h) (copyList st2)) st2 in
          let st4 :=
            set_positionCache
              (clearCacheFrom i (length (copyList st3)) (positionCache st3))
              st3 in
          updateItemPositions p (updateAccumulatedHeights st4)
      else st
  end.

End Engine.

Arguments SourceItem : clear implicits.
Arguments VirtualItem : clear implicits.
Arguments State : clear implicits.

(** * Vocabulary of the statements *)

(** The running sums of the effective heights [h || avg], starting from
    [s]. *)
Fixpoint running (avg s : Qc) (hs : list (option Qc)) : list Qc :=
  match hs with
  | [] => []
  | h :: hs' => (s + or_num h avg)%Qc :: running avg (s + or_num h avg)%Qc hs'
  end.

Fixpoint effective_sum (avg : Qc) (hs : list (option Qc)) : Qc :=
  match hs with
  | [] => 0%Qc
  | h :: hs' => (or_num h avg + effective_sum avg hs')%Qc
  end.

(** [sum(HeightTable[0..i])] in the words of the specification: the stored
    heights up to and including [i], added up. *)
Definition sumHeightTable (hs : list (option Qc)) (i : nat) : Qc :=
  foldr Qcplus 0%Qc (default 0%Qc <$> take (S i) hs).

Definition heights_positive (hs : list (option Qc)) : Prop :=
  Forall (λ h, ∃ q, h = Some q ∧ (0 < q)%Qc) hs.

(** A strictly increasing array. *)
Definition increasing (a : list Qc) : Prop :=
  ∀ i j x y, i < j → a !! i = Some x → a !! j = Some y → (x < y)%Qc.

(** [r] is the first index of [a] whose entry is at least [s]; it is the
    length of [a] when no entry is. *)
Definition first_index_at_least (a : list Qc) (s : Qc) (r : nat) : Prop :=
  r ≤ length a
  ∧ (∀ j x, j < r → a !! j = Some x → (x < s)%Qc)
  ∧ (∀ x, a !! r = Some x → (s ≤ x)%Qc).

(** The indices [a, b). *)
Definition range (a b : Z) : list nat := seq (Z.to_nat a) (Z.to_nat (b - a)).

(** Every element of the list carries its position as [index], as the
    watcher assigns it. *)
Definition indexed {A} (l : list (SourceItem A)) : Prop :=
  index <$> l = seq 0 (length l).

(** The heights a batch counts: [Math.max(1, rect.height)] of the rects
    that pass the test of lines 268 and 343. *)
Definition batchHeights (rects : list Rect) : list Qc :=
  snd <$> omap valid_rect rects.

Definition arithmeticMean (hs : list Qc) : Qc :=
  (foldr Qcplus 0%Qc hs / num (Z.of_nat (length hs)))%Qc.

(** The rule of the specification for an initial-sample batch that takes
    the state [st] to [st']: an unmeasured index whose height deviates
    from the new average by more than 10% of it gets the new average,
    and every other unmeasured index keeps its height. *)
Definition specRewriteRule {A} (st st' : State A) : Prop :=
  ∀ i h,
    i ∉ measuredIndices st' →
    array_get (itemHeights st) i = Some h →
    array_get (itemHeights st') i
    = Some (if decide (averageHeight st' * (1 / num 10)
                       < Qc_abs (h - averageHeight st'))%Qc
            then averageHeight st' else h).

(** The offset of index [j] read off the cumulative index: the entry before
    it, [0] for the first index. *)
Definition offset (acc : list Qc) (j : nat) : Qc :=
  if decide (j = 0) then 0%Qc else or_num (acc !! (j - 1)) 0%Qc.

(** A list of positions in non-decreasing order of [key]. *)
Definition sorted_by (key : nat → nat) (l : list nat) : Prop :=
  StronglySorted (λ k k', key k ≤ key k') l.

(** Every cached offset is the one the cumulative index gives. *)
Definition cache_agrees (acc : list Qc) (c : gmap nat Qc) : Prop :=
  ∀ j y, c !! j = Some y → y = offset acc j.

(** The element [v] with the offset the cumulative index gives it. *)
Definition place {A} (acc : list Qc) (v : VirtualItem A) : VirtualItem A :=
  set_translateY (offset acc (vindex v)) v.

(** [vl] is [vl0] with the elements at the positions [done] placed. *)
Definition positioned {A} (acc : list Qc) (vl0 : list (VirtualItem A))
    (done : list nat) (vl : list (VirtualItem A)) : Prop :=
  ∀ k, vl !! k = if decide (k ∈ done) then place acc <$> vl0 !! k
                 else vl0 !! k.

(** The rects carry indices of a table of [n] entries. *)
Definition rects_in_table (rects : list Rect) (n : nat) : Prop :=
  Forall (λ rect, ∀ i, dataset_index rect = Some i → i < n) rects.

(** ** Runs of the component *)

(** What can happen to a component: the watcher of [props.list] runs, the
    timer of [onMounted] fires (lines 564-569), a scroll event is accepted
    or the scroll timer fires, the deferred [updateVisibleItems] runs, an
    edge of the viewport is reached, the measurement timer fires, the host
    answers one of the three geometry queries, or [refreshHeight] is
    called.  ([updateElementHeight] itself changes no ref; its answer is
    [ElementMeasured].) *)
Inductive Event {A : Type} :=
  | ListReplaced (newVal : list A)
  | MountTimerFired
  | ScrollStarted
  | ScrollStopped
  | Scrolled (scrollTop : Qc)
  | ReachedLower
  | ReachedUpper
  | TimerFired
  | InitialSampleMeasured (rects : list Rect)
  | HeightsMeasured (rects : list Rect)
  | RefreshRequested
  | ElementMeasured (i : nat) (rects : list Rect).
Arguments Event : clear implicits.

Definition handle {A} (p : Props) (st : State A) (e : Event A) : State A :=
  match e with
  | ListReplaced newVal => watch p newVal st
  | MountTimerFired => scheduleHeightMeasurement true st
  | ScrollStarted => scrollStarts st
  | ScrollStopped => scrollStops p st
  | Scrolled scrollTop => updateVisibleItems p scrollTop st
  | ReachedLower => handleScrollToLower p st
  | ReachedUpper => handleScrollToUpper p st
  | TimerFired => (measurementDue p st).1
  | InitialSampleMeasured rects => measureInitialSample_cb p rects st
  | HeightsMeasured rects => measureItemHeights_cb p rects st
  | RefreshRequested => refreshHeight st
  | ElementMeasured i rects => updateElementHeight_cb p i rects st
  end.

(** The state after the events [es], from the refs as [setup] creates
    them. *)
Definition run {A} (p : Props) (es : list (Event A)) : State A :=
  foldl (handle p)
    {| virtualList := []; copyList := []; totalHeight := 0%Qc;
       itemHeights := []; averageHeight := itemHeight p;
       measuredIndices := ∅; currentIndex := 0%Z; positionCache := ∅;
       accumulatedHeights := []; isScrolling := false;
       heightUpdateTimeout := None |} es.

(** The window is a contiguous range of indices of the list. *)
Definition contiguous {A} (st : State A) : Prop :=
  ∃ a k, vindex <$> virtualList st = seq a k
         ∧ a + k ≤ length (copyList st).

(** The cumulative index is empty, with total height 0, or it holds the
    running sums of the effective heights of the table as it is now, with
    their sum as total height. *)
Definition fresh {A} (st : State A) : Prop :=
  (accumulatedHeights st = [] ∧ totalHeight st = 0%Qc)
  ∨ (accumulatedHeights st
     = running (averageHeight st) 0%Qc (itemHeights st)
     ∧ totalHeight st
       = effective_sum (averageHeight st) (itemHeights st)).

(** Every height the table stores is positive (a hole stores none). *)
Definition stored_positive (hs : list (option Qc)) : Prop :=
  Forall (λ h, ∀ q, h = Some q → (0 < q)%Qc) hs.

(** Every index of the list has a stored height. *)
Definition covered {A} (st : State A) : Prop :=
  ∀ i, i < length (copyList st) → is_Some (array_get (itemHeights st) i).

(** ** Concrete inputs *)

(** The refs as [setup] creates them (lines 78-92). *)
Definition initialState {A} (p : Props) : State A :=
  {| virtualList := []; copyList := []; totalHeight := 0%Qc;
     itemHeights := []; averageHeight := itemHeight p;
     measuredIndices := ∅; currentIndex := 0%Z; positionCache := ∅;
     accumulatedHeights := []; isScrolling := false;
     heightUpdateTimeout := None |}.

(** The default props (lines 32-76). *)
Definition defaults : Props :=
  {| virtualListLength := 20; itemHeight := num 100; preloadCount := 10;
     dynamicHeight := true; continuousHeight := true;
     positionMode := cumulative |}.

(** A list of [n] items populated into a fresh component. *)
Definition populated (p : Props) (n : nat) : State unit :=
  watch p (replicate n ()) (initialState p).

(** A window as wide as a list of three items, no preload. *)
Definition three : Props :=
  {| virtualListLength := 3; itemHeight := num 100; preloadCount := 0;
     dynamicHeight := true; continuousHeight := true;
     positionMode := cumulative |}.

Definition rect (i : nat) (h : Z) : Rect :=
  {| dataset_index := Some i; height := num h |}.

(** A window of two items over a longer list, no preload. *)
Definition narrow : Props :=
  {| virtualListLength := 2; itemHeight := num 100; preloadCount := 0;
     dynamicHeight := true; continuousHeight := true;
     positionMode := cumulative |}.

(** Four items, of which the two materialized ones are sampled at 115,
    and sampled again at 120 by the second initial pass. *)
Definition sampled115 : State unit :=
  measureInitialSample_cb narrow [rect 0 115; rect 1 115] (populated narrow 4).

Definition sampled120 : State unit :=
  measureInitialSample_cb narrow [rect 0 120; rect 1 120] sampled115.

(** The same four items sampled at 105: within 10% of the nominal 100. *)
Definition sampled105 : State unit :=
  measureInitialSample_cb narrow [rect 0 105; rect 1 105] (populated narrow 4).

(** Nominal height 64 and a window of five items over a list of six; the
    initial sample finds 70, 70, 70, 71 and 71.  Their mean 70.4 is 10%
    above 64 and no more, yet the machine finds [|70.4 - 64|], which it
    holds as 6.400000000000006, greater than [64 * 0.1], which it holds as
    6.4. *)
Definition sixtyFour : Props :=
  {| virtualListLength := 5; itemHeight := num 64; preloadCount := 0;
     dynamicHeight := true; continuousHeight := true;
     positionMode := cumulative |}.

Definition roundedRects : list Rect :=
  [rect 0 70; rect 1 70; rect 2 70; rect 3 71; rect 4 71].

Definition sampled64 : State unit :=
  measureInitialSample_cb sixtyFour roundedRects (populated sixtyFour 6).

(** Three materialized items at the nominal height; the geometry query
    then finds item 0 at 150 and the others as they were.  [grown] is the
    state after a continuous batch applies it, [grownTargeted] the state
    after the targeted re-measurement of item 0 applies it. *)
Definition grownRects : list Rect := [rect 0 150; rect 1 100; rect 2 100].

Definition grown : State unit :=
  measureItemHeights_cb three grownRects (populated three 3).

Definition grownTargeted : State unit :=
  updateElementHeight_cb three 0 grownRects (populated three 3).

(** A list of three items is populated; the answer to a geometry query
    then carries a rect of index 5 and height 80. *)
Definition late : State unit :=
  run three [ListReplaced [(); (); ()]; HeightsMeasured [rect 5 80]].

(** The default component after a jump to scroll offset 50050 in a list
    of 1000 items. *)
Definition jumped : State unit :=
  updateVisibleItems defaults (num 50050) (populated defaults 1000).

(** ** The contract of a positioning pass *)

(** The pass that takes the window [vl0] and the cache [c0] to [vl] and
    [c] has stamped the element at position [k]: the element is the one of
    [vl0] with a new [translateY], which is 0 for index 0 and the cached
    offset of its index otherwise. *)
Definition stamped {A} (vl0 vl : list (VirtualItem A)) (c : gmap nat Qc)
    (k : nat) : Prop :=
  ∀ v, vl0 !! k = Some v →
    ∃ y, vl !! k = Some (set_translateY y v)
         ∧ (vindex v = 0 → y = 0%Qc)
         ∧ (vindex v ≠ 0 → c !! vindex v = Some y).

(** The cache [c] extends [c0], by offsets of non-zero indices of the
    window [vl0] only. *)
Definition cache_extends {A} (vl0 : list (VirtualItem A))
    (c0 c : gmap nat Qc) : Prop :=
  (∀ j y, c0 !! j = Some y → c !! j = Some y)
  ∧ (∀ j, is_Some (c !! j) →
       is_Some (c0 !! j) ∨ (j ≠ 0 ∧ j ∈ vindex <$> vl0)).

(** ** Invariants of a run *)

(** [st'] comes from [st] by writes of heights: the list, the anchor, the
    identity of the window elements, the cumulative index and the average
    are untouched; stored heights stay positive, and an index that has a
    height keeps one. *)
Definition writes_heights {A} (st st' : State A) : Prop :=
  copyList st' = copyList st
  ∧ currentIndex st' = currentIndex st
  ∧ source <$> virtualList st' = source <$> virtualList st
  ∧ accumulatedHeights st' = accumulatedHeights st
  ∧ totalHeight st' = totalHeight st
  ∧ averageHeight st' = averageHeight st
  ∧ (stored_positive (itemHeights st) → stored_positive (itemHeights st'))
  ∧ (∀ i, is_Some (array_get (itemHeights st) i) →
          is_Some (array_get (itemHeights st') i)).

(** What every run keeps, whatever the props and the events are. *)
Definition well_formed {A} (st : State A) : Prop :=
  (0 ≤ currentIndex st)%Z
  ∧ indexed (copyList st)
  ∧ contiguous st
  ∧ fresh st
  ∧ covered st.

(** What a run with a positive nominal height keeps. *)
Definition heights_valid {A} (st : State A) : Prop :=
  stored_positive (itemHeights st) ∧ (0 < averageHeight st)%Qc.

(** The indices a batch measures: those of the rects that pass the test of
    lines 268 and 343. *)
Definition measuredOf (rects : list Rect) : gset nat :=
  list_to_set (fst <$> omap valid_rect rects).

(** [st'] comes from [st] by a step that touches neither the scroll flag
    nor the measurement timer, and adds the indices [m] to the measured
    set. *)
Definition footprint {A} (m : gset nat) (st st' : State A) : Prop :=
  isScrolling st' = isScrolling st
  ∧ heightUpdateTimeout st' = heightUpdateTimeout st
  ∧ measuredIndices st' = m ∪ measuredIndices st.

(** The events that can arrive between an accepted scroll event and the
    scroll timer without ending the scroll: scroll-driven window moves and
    answers to geometry queries. *)
Definition while_scrolling {A} (e : Event A) : bool :=
  match e with
  | ScrollStarted | Scrolled _ | ReachedLower | ReachedUpper
  | InitialSampleMeasured _ | HeightsMeasured _ | ElementMeasured _ _ => true
  | ListReplaced _ | MountTimerFired | ScrollStopped | TimerFired
  | RefreshRequested => false
  end.

(** The sums [s + h], [s + h + h], ... of [n] successive additions of
    [h], as a loop that adds [h] to a running sum produces them. *)
Fixpoint sums_from (s h : Qc) (n : nat) : list Qc :=
  match n with
  | 0 => []
  | S n' => (s + h)%Qc :: sums_from (s + h)%Qc h n'
  end.

(** Every element of the window shows the item the list has at its
    index. *)
Definition shows_list {A} (st : State A) : Prop :=
  Forall (λ v, ∃ x, copyList st !! vindex v = Some x
                    ∧ index x = vindex v
                    ∧ payload x = payload (source v))
    (virtualList st).

(** ** The walk of the cumulative strategy *)

(** What holds when the cumulative strategy, run on the window [vl0] with
    the cache [c0], has walked the positions [done] of the sorted list:
    the other positions and the cache entries of their indices are
    untouched, and a walked element that was not cached sits on top of the
    element before it, or at the offset of the cumulative index when the
    window has no element before it. *)
Definition walked {A} (hs : list (option Qc)) (avg : Qc) (acc : list Qc)
    (vl0 : list (VirtualItem A)) (c0 : gmap nat Qc) (done : list nat)
    (vl : list (VirtualItem A)) (c : gmap nat Qc) : Prop :=
  (∀ k, k ∉ done → vl !! k = vl0 !! k)
  ∧ (∀ k, vindex <$> vl !! k = vindex <$> vl0 !! k)
  ∧ (∀ j, (∀ k v, k ∈ done → vl0 !! k = Some v → vindex v ≠ j) →
          c !! j = c0 !! j)
  ∧ (∀ k1 k2 v u, k1 ∈ done → k2 ∈ done →
        vl !! k1 = Some v → vl !! k2 = Some u →
        vindex v = S (vindex u) → c0 !! vindex v = None →
        translateY v
        = (translateY u + or_num (array_get hs (vindex u)) avg)%Qc)
  ∧ (∀ k1 v, k1 ∈ done → vl !! k1 = Some v →
        vindex v ≠ 0 → c0 !! vindex v = None →
        vindex v - 1 ∉ vindex <$> vl0 →
        translateY v = or_num (acc !! (vindex v - 1)) 0%Qc).

(** ** Further concrete inputs *)

(** [three] with the absolute strategy. *)
Definition threeAbsolute : Props :=
  {| virtualListLength := 3; itemHeight := num 100; preloadCount := 0;
     dynamicHeight := true; continuousHeight := true;
     positionMode := absolute |}.

(** A geometry query that finds every item within 1 of its stored
    height. *)
Definition jitterRects : list Rect := [rect 0 101; rect 1 100; rect 2 99].

(** A list of three items is populated and a continuous batch finds item 0
    grown to 150. *)
Definition populateAndGrow : list (Event unit) :=
  [ListReplaced [(); (); ()]; HeightsMeasured grownRects].

(** What arrives during one scroll of a populated list. *)
Definition oneScroll : list (Event unit) :=
  [Scrolled (num 250); ReachedLower; HeightsMeasured grownRects;
   ReachedUpper].

(** * Properties *)

(** ** Rationals *)

Arguments or_num : simpl never.

Lemma Qc_max_le_l (x y : Qc) : (x ≤ Qc_max x y)%Qc.
Proof.
  unfold Qc_max. destruct (decide (x < y)%Qc) as [H|H].
  - by apply Qclt_le_weak.
  - apply Qcle_refl.
Qed.

Lemma or_num_stored (q d : Qc) : (0 < q)%Qc → or_num (Some q) d = q.
Proof.
  intros Hq. unfold or_num, truthy.
  rewrite bool_decide_true; [done|].
  intros ->. by apply (Qclt_not_eq 0%Qc 0%Qc).
Qed.

(** ** Cumulative heights *)

Lemma foldl_accumulate avg hs l s :
  foldl (accumulate avg) (l, s) hs
  = (l ++ running avg s hs, (s + effective_sum avg hs)%Qc).
Proof.
  revert l s. induction hs as [|h hs IH]; intros l s; simpl.
  - rewrite app_nil_r. f_equal. ring.
  - unfold accumulate at 2. simpl. rewrite IH, <- app_assoc. simpl.
    f_equal. ring.
Qed.

Lemma running_length avg s hs : length (running avg s hs) = length hs.
Proof. revert s. induction hs; intros s; simpl; [done|]. by rewrite IHhs. Qed.

Lemma running_lookup avg hs : ∀ s i,
  i < length hs →
  running avg s hs !! i = Some (s + effective_sum avg (take (S i) hs))%Qc.
Proof.
  induction hs as [|h hs IH]; intros s i Hi; simpl in *; [lia|].
  destruct i as [|i]; simpl.
  - f_equal. ring.
  - rewrite IH by lia. f_equal. ring.
Qed.

Lemma running_last avg hs s :
  default s (last (running avg s hs)) = (s + effective_sum avg hs)%Qc.
Proof.
  destruct (decide (hs = [])) as [->|Hne]; simpl; [ring|].
  assert (0 < length hs) by (destruct hs; simpl; [done|lia]).
  rewrite last_lookup, running_length, running_lookup by lia.
  simpl. replace (S (Init.Nat.pred (length hs))) with (length hs) by lia.
  by rewrite firstn_all.
Qed.

Lemma effective_sum_nonneg avg hs :
  Forall (λ h, (0 ≤ or_num h avg)%Qc) hs → (0 ≤ effective_sum avg hs)%Qc.
Proof.
  induction 1; simpl; [apply Qcle_refl|]. by apply Qcplus_nonneg_nonneg.
Qed.

Lemma effective_sum_app avg l1 l2 :
  effective_sum avg (l1 ++ l2)
  = (effective_sum avg l1 + effective_sum avg l2)%Qc.
Proof. induction l1 as [|? ? IH]; simpl; [ring|]. rewrite IH. ring. Qed.

Lemma running_mono avg hs s i j x y :
  Forall (λ h, (0 ≤ or_num h avg)%Qc) hs →
  i ≤ j →
  running avg s hs !! i = Some x → running avg s hs !! j = Some y →
  (x ≤ y)%Qc.
Proof.
  intros Hpos Hij Hx Hy.
  assert (j < length hs) as Hj
    by (rewrite <- (running_length avg s); by eapply lookup_lt_Some).
  rewrite running_lookup in Hx, Hy by lia.
  injection Hx as <-. injection Hy as <-.
  apply Qcplus_le_mono_l.
  rewrite <- (take_drop (S i) (take (S j) hs)), take_take, Nat.min_l by lia.
  rewrite effective_sum_app.
  rewrite <- (Qcplus_0_r (effective_sum avg (take (S i) hs))) at 1.
  apply Qcplus_le_mono_l, effective_sum_nonneg.
  by apply Forall_drop, Forall_take.
Qed.

Lemma effective_sum_stored avg hs :
  heights_positive hs →
  effective_sum avg hs = foldr Qcplus 0%Qc (default 0%Qc <$> hs).
Proof.
  induction 1 as [|h hs (q & -> & Hq) _ IH]; simpl; [done|].
  rewrite or_num_stored by done. by rewrite IH.
Qed.

(** ** The search loop *)

Lemma bsearch_step (a : list Qc) (s : Qc) (low high : Z) :
  bsearch a s low high
  = if decide (low ≤ high)%Z then
      let mid := ((low + high) `div` 2)%Z in
      match lookupZ a mid with
      | None => mid
      | Some v =>
          if decide (v < s)%Qc then bsearch a s (mid + 1) high
          else if decide (s < v)%Qc then bsearch a s low (mid - 1)
          else mid
      end
    else Z.max 0 low.
Proof.
  funelim (bsearch a s low high);
    try clear Heqcall;
    repeat match goal with
           | H : decide _ = _ |- _ => rewrite H; clear H
           | H : lookupZ _ _ = _ |- _ => rewrite H; clear H
           end; reflexivity.
Qed.

Lemma interval_ind (P : Z → Z → Prop) :
  (∀ low high,
     (∀ low' high',
        Z.to_nat (high' - low' + 1) < Z.to_nat (high - low + 1) →
        P low' high') →
     P low high) →
  ∀ low high, P low high.
Proof.
  intros step low high.
  remember (Z.to_nat (high - low + 1)) as n eqn:Hn.
  revert low high Hn. induction n as [n IH] using lt_wf_ind.
  intros low high ->. apply step. intros low' high' Hlt. by eapply IH.
Qed.

Lemma mid_bounds (low high : Z) :
  (low ≤ high → low ≤ (low + high) `div` 2 ≤ high)%Z.
Proof.
  intros H. split; [apply Z.div_le_lower_bound | apply Z.div_le_upper_bound];
    lia.
Qed.

(** The loop leaves with a position between [low] and [high + 1]. *)
Lemma bsearch_bounds (a : list Qc) (s : Qc) : ∀ low high,
  (0 ≤ low → low ≤ high + 1 → low ≤ bsearch a s low high ≤ high + 1)%Z.
Proof.
  apply (interval_ind (λ low high,
    0 ≤ low → low ≤ high + 1 → low ≤ bsearch a s low high ≤ high + 1)%Z).
  intros low high IH H0 Hlh. rewrite bsearch_step.
  destruct (decide (low ≤ high)%Z) as [Hle|Hgt]; [|lia].
  pose proof (mid_bounds low high Hle) as Hmid. simpl.
  destruct (lookupZ a _) as [v|]; [|lia].
  destruct (decide (v < s)%Qc).
  { assert (Hrec := IH ((low + high) `div` 2 + 1)%Z high). lia. }
  destruct (decide (s < v)%Qc); [|lia].
  assert (Hrec := IH low ((low + high) `div` 2 - 1)%Z). lia.
Qed.

(** The loop is monotone in the offset it searches for, whatever the
    array holds. *)
Lemma bsearch_mono (a : list Qc) (s1 s2 : Qc) :
  (s1 ≤ s2)%Qc →
  ∀ low high,
    (0 ≤ low → bsearch a s1 low high ≤ bsearch a s2 low high)%Z.
Proof.
  intros Hs.
  apply (interval_ind (λ low high,
    0 ≤ low → bsearch a s1 low high ≤ bsearch a s2 low high)%Z).
  intros low high IH H0.
  rewrite (bsearch_step a s1), (bsearch_step a s2).
  destruct (decide (low ≤ high)%Z) as [Hle|Hgt]; [|lia].
  pose proof (mid_bounds low high Hle) as Hmid. simpl.
  set (mid := ((low + high) `div` 2)%Z) in *.
  destruct (lookupZ a mid) as [v|]; [|lia].
  assert (low ≤ bsearch a s1 low (mid - 1) ≤ mid)%Z as Hleft1
    by (pose proof (bsearch_bounds a s1 low (mid - 1)); lia).
  assert (mid + 1 ≤ bsearch a s2 (mid + 1) high)%Z as Hright2
    by (pose proof (bsearch_bounds a s2 (mid + 1) high); lia).
  destruct (decide (v < s1)%Qc) as [Hv1|Hv1].
  - assert (v < s2)%Qc by by eapply Qclt_le_trans.
    destruct (decide (v < s2)%Qc); [|done]. apply IH; lia.
  - destruct (decide (s1 < v)%Qc) as [Hv1'|Hv1'].
    + destruct (decide (v < s2)%Qc); [lia|].
      destruct (decide (s2 < v)%Qc); [apply IH; lia|lia].
    + assert (¬ (s2 < v)%Qc).
      { intros Hlt. apply Hv1'. by eapply Qcle_lt_trans. }
      destruct (decide (v < s2)%Qc); [lia|].
      destruct (decide (s2 < v)%Qc); [done|lia].
Qed.

(** On a strictly increasing array the loop leaves with the number of
    entries below the offset, which is the first index whose entry is at
    least the offset when there is one. *)
Lemma bsearch_first (a : list Qc) (s : Qc) :
  increasing a →
  ∀ low high,
    (0 ≤ low)%Z → (high < Z.of_nat (length a))%Z → (low ≤ high + 1)%Z →
    (∀ j x, (Z.of_nat j < low)%Z → a !! j = Some x → (x < s)%Qc) →
    (∀ j x, (high < Z.of_nat j)%Z → a !! j = Some x → (s < x)%Qc) →
    ∀ j x, a !! j = Some x →
      (Z.of_nat j < bsearch a s low high)%Z ↔ (x < s)%Qc.
Proof.
  intros Hinc.
  apply (interval_ind (λ low high,
    (0 ≤ low)%Z → (high < Z.of_nat (length a))%Z → (low ≤ high + 1)%Z →
    (∀ j x, (Z.of_nat j < low)%Z → a !! j = Some x → (x < s)%Qc) →
    (∀ j x, (high < Z.of_nat j)%Z → a !! j = Some x → (s < x)%Qc) →
    ∀ j x, a !! j = Some x →
      (Z.of_nat j < bsearch a s low high)%Z ↔ (x < s)%Qc)).
  intros low high IH H0 Hhi Hlh Hbelow Habove j x Hj.
  rewrite bsearch_step.
  destruct (decide (low ≤ high)%Z) as [Hle|Hgt].
  2:{ rewrite Z.max_r by lia. split; [by eauto|].
      intros Hx. destruct (decide (Z.of_nat j < low)%Z); [done|].
      exfalso. apply (Qclt_not_le _ _ Hx), Qclt_le_weak.
      apply (Habove j); [lia|done]. }
  pose proof (mid_bounds low high Hle) as Hmid. simpl.
  set (mid := ((low + high) `div` 2)%Z) in *.
  unfold lookupZ. destruct (decide (mid < 0)%Z); [lia|].
  destruct (a !! Z.to_nat mid) as [v|] eqn:Hv.
  2:{ apply lookup_ge_None in Hv. lia. }
  assert (∀ k y, a !! k = Some y → (Z.of_nat k < mid)%Z → (y < v)%Qc) as Hlo.
  { intros k y Hk Hlt. apply (Hinc k (Z.to_nat mid)); [lia|done..]. }
  assert (∀ k y, a !! k = Some y → (mid < Z.of_nat k)%Z → (v < y)%Qc) as Hup.
  { intros k y Hk Hlt. apply (Hinc (Z.to_nat mid) k); [lia|done..]. }
  assert (∀ k y, a !! k = Some y → Z.of_nat k = mid → y = v) as Heq.
  { intros k y Hk Hkm. replace k with (Z.to_nat mid) in Hk by lia.
    congruence. }
  destruct (decide (v < s)%Qc) as [Hvs|Hvs].
  - apply IH; [lia..| |done|done].
    intros k y Hk Hy.
    destruct (decide (Z.of_nat k = mid)) as [Hkm|Hkm].
    + by rewrite (Heq k y Hy Hkm).
    + eapply Qclt_trans; [|exact Hvs]. apply (Hlo k); [done|lia].
  - destruct (decide (s < v)%Qc) as [Hsv|Hsv].
    + apply IH; [lia..|done| |done].
      intros k y Hk Hy.
      destruct (decide (Z.of_nat k = mid)) as [Hkm|Hkm].
      * by rewrite (Heq k y Hy Hkm).
      * eapply Qclt_trans; [exact Hsv|]. apply (Hup k); [done|lia].
    + assert (v = s) as ->
        by (apply Qcle_antisym; by apply Qcnot_lt_le).
      split; [by apply Hlo|].
      intros Hx. destruct (decide (Z.of_nat j < mid)%Z); [done|].
      exfalso. destruct (decide (Z.of_nat j = mid)) as [Hjm|Hjm].
      * rewrite (Heq j x Hj Hjm) in Hx. by apply (Qclt_not_eq _ _ Hx).
      * apply (Qclt_not_le _ _ Hx), Qclt_le_weak, (Hup j); [done|lia].
Qed.

Section Properties.

Context {A : Type}.
Implicit Types (st : State A) (p : Props).
Implicit Types (vl items : list (VirtualItem A)) (item : VirtualItem A).

Lemma updateAccumulatedHeights_running st :
  accumulatedHeights (updateAccumulatedHeights st)
  = running (averageHeight st) 0%Qc (itemHeights st)
  ∧ totalHeight (updateAccumulatedHeights st)
    = effective_sum (averageHeight st) (itemHeights st).
Proof.
  unfold updateAccumulatedHeights. rewrite foldl_accumulate. simpl.
  split; [done|ring].
Qed.

(** Whatever the stored heights are, entry [i] of the rebuilt index is the
    sum of the effective heights [itemHeights[j] || averageHeight] of the
    indices [j <= i]. *)
Lemma updateAccumulatedHeights_lookup st i :
  i < length (itemHeights st) →
  accumulatedHeights (updateAccumulatedHeights st) !! i
  = Some (effective_sum (averageHeight st) (take (S i) (itemHeights st))).
Proof.
  intros Hi. destruct (updateAccumulatedHeights_running st) as [-> _].
  rewrite running_lookup by done. f_equal. ring.
Qed.

(** ** What each function leaves alone *)

Lemma updateItemPositions_frame p st :
  ∃ vl c, updateItemPositions p st = set_positionCache c (set_virtualList vl st).
Proof. unfold updateItemPositions. destruct (positionMode p); eauto. Qed.

Lemma scheduleHeightMeasurement_frame b st :
  ∃ t, scheduleHeightMeasurement b st = set_heightUpdateTimeout t st.
Proof.
  unfold scheduleHeightMeasurement.
  destruct (isScrolling st && negb b); [|eauto].
  exists (heightUpdateTimeout st). by destruct st.
Qed.

Lemma calculateVirtualList_frame p a b st :
  ∃ vl c t,
    calculateVirtualList p a b st
    = set_heightUpdateTimeout t (set_positionCache c (set_virtualList vl st)).
Proof.
  unfold calculateVirtualList.
  match goal with
  | |- context [updateItemPositions p ?s] =>
      destruct (updateItemPositions_frame p s) as (vl & c & ->)
  end.
  match goal with
  | |- context [if ?b then _ else _] => destruct b
  end.
  - match goal with
    | |- context [scheduleHeightMeasurement false ?s] =>
        destruct (scheduleHeightMeasurement_frame false s) as (t & ->)
    end.
    by exists vl, c, t.
  - exists vl, c, (heightUpdateTimeout st). by destruct st.
Qed.

(** ** Rebuilding the cumulative index *)

(** C5, as the code has it.  [updateAccumulatedHeights] leaves the height
    table and the average as they are and rebuilds the cumulative index
    from them: the index has the length of the table given, its entry [i]
    is the sum of the effective heights [itemHeights[j] || averageHeight]
    of the indices [0..i] of the table given, and the total height is its
    last entry ([0] for an empty table).  The index is non-decreasing when
    the stored heights are positive and the average is not negative, and
    entry [i] is the sum of the stored heights, as the specification has
    it, when every slot of the table stores a positive height. *)
Theorem updateAccumulatedHeights_prefix_sums st :
  let st' := updateAccumulatedHeights st in
  itemHeights st' = itemHeights st
  ∧ averageHeight st' = averageHeight st
  ∧ length (accumulatedHeights st') = length (itemHeights st)
  ∧ (∀ i, i < length (itemHeights st) →
       accumulatedHeights st' !! i
       = Some (effective_sum (averageHeight st)
                 (take (S i) (itemHeights st))))
  ∧ totalHeight st' = default 0%Qc (last (accumulatedHeights st'))
  ∧ (stored_positive (itemHeights st) → (0 ≤ averageHeight st)%Qc →
     ∀ i j x y, i ≤ j →
       accumulatedHeights st' !! i = Some x →
       accumulatedHeights st' !! j = Some y → (x ≤ y)%Qc)
  ∧ (heights_positive (itemHeights st) →
     ∀ i, i < length (itemHeights st) →
       accumulatedHeights st' !! i
       = Some (sumHeightTable (itemHeights st) i)).
Proof.
  intros st'.
  destruct (updateAccumulatedHeights_running st) as [Hacc Htot].
  fold st' in Hacc, Htot. rewrite Hacc, Htot.
  split; [done|]. split; [done|]. split; [apply running_length|].
  split; [|split; [|split]].
  - intros i Hi. rewrite running_lookup by done. f_equal. ring.
  - rewrite running_last. ring.
  - intros Hstored Havg i j x y Hij. apply running_mono; [|done].
    eapply Forall_impl; [exact Hstored|].
    intros [q|] Hq; [|done].
    rewrite or_num_stored by by apply Hq. by apply Qclt_le_weak, Hq.
  - intros Hpos i Hi. rewrite running_lookup by done. f_equal.
    unfold sumHeightTable.
    rewrite <- (effective_sum_stored (averageHeight st))
      by by apply Forall_take.
    ring.
Qed.

(** C5 as the specification words it fails.  In [late] a list of three
    items is populated and the answer to a geometry query then carries a
    rect of index 5 (an element of a longer list that was replaced while
    the query was under way): the batch stores its height 80 past the end
    of the table, which leaves two holes, and moves the average to 94.
    Entry 3 of the rebuilt index is 394, the three stored heights and the
    average for the hole at index 3, while the stored heights of the
    indices [0..3] add up to 300. *)
Lemma prefix_sums_holes_counterexample :
  itemHeights late
  = [Some (num 100); Some (num 100); Some (num 100); None; None;
     Some (num 80)]
  ∧ averageHeight late = num 94
  ∧ accumulatedHeights (updateAccumulatedHeights late) !! 3
    = Some (num 394)
  ∧ sumHeightTable (itemHeights (updateAccumulatedHeights late)) 3
    = num 300
  ∧ accumulatedHeights (updateAccumulatedHeights late) !! 3
    ≠ Some (sumHeightTable (itemHeights (updateAccumulatedHeights late)) 3).
Proof. repeat split; apply (bool_decide_unpack _); by vm_compute. Qed.

(** ** Replacing the source list *)

(** C8.  Replacing the list with an empty one clears the window, the total
    height, the measured set, the position cache and the cumulative index,
    and sets the average height to the nominal one; replacing it with a
    non-empty list leaves the average height at the nominal one when the
    watcher returns, before any measurement callback runs. *)
Theorem watch_resets p st :
  (virtualList (watch p [] st) = []
   ∧ totalHeight (watch p [] st) = 0%Qc
   ∧ measuredIndices (watch p [] st) = ∅
   ∧ positionCache (watch p [] st) = ∅
   ∧ accumulatedHeights (watch p [] st) = []
   ∧ averageHeight (watch p [] st) = itemHeight p)
  ∧ ∀ x l, averageHeight (watch p (x :: l) st) = itemHeight p.
Proof.
  split; [by repeat split|].
  intros x l. unfold watch.
  match goal with
  | |- context [scheduleHeightMeasurement true ?s] =>
      destruct (scheduleHeightMeasurement_frame true s) as (t & ->)
  end.
  match goal with
  | |- context [calculateVirtualList p ?a ?b ?s] =>
      destruct (calculateVirtualList_frame p a b s) as (vl & c & t' & ->)
  end.
  reflexivity.
Qed.

(** ** Targeted re-measurement: the rejected requests *)

(** C9.  [updateElementHeight] never changes the state at the call; for an
    index outside [0, N) it reports the index as out of range, and for an
    index inside [0, N) that no element of the window carries it reports
    it as not materialized. *)
Theorem updateElementHeight_rejects (i : Z) st :
  (updateElementHeight i st).1 = st
  ∧ ((i < 0 ∨ Z.of_nat (length (copyList st)) ≤ i)%Z →
     (updateElementHeight i st).2 = Some (IndexOutOfRange i))
  ∧ ((0 ≤ i < Z.of_nat (length (copyList st)))%Z →
     Forall (λ v, vindex v ≠ Z.to_nat i) (virtualList st) →
     (updateElementHeight i st).2 = Some (NotInVisibleArea i)).
Proof.
  unfold updateElementHeight. split; [|split].
  - destruct (decide _); [done|]. by destruct (find _ _).
  - intros Hout. destruct (decide _) as [|Hin]; [done|]. lia.
  - intros Hin Hwin. destruct (decide _) as [Hout|_]; [lia|].
    destruct (find _ _) as [v|] eqn:Hfind; [|done].
    apply find_some in Hfind as [Hv Hi].
    rewrite Forall_forall in Hwin. apply list_elem_of_In, Hwin in Hv.
    unfold has_index in Hi. by apply bool_decide_eq_true in Hi.
Qed.

(** ** Locating an index *)

Lemma floor_div_mono (s1 s2 avg : Qc) :
  (0 < avg)%Qc → (s1 ≤ s2)%Qc →
  ∃ i1 i2, floor_div s1 avg = Int i1 ∧ floor_div s2 avg = Int i2
           ∧ (i1 ≤ i2)%Z.
Proof.
  intros Havg Hs. unfold floor_div.
  destruct (decide (avg = 0%Qc)) as [->|_].
  { by destruct (Qclt_not_eq _ _ Havg). }
  eexists _, _. split; [done|]. split; [done|].
  apply Qfloor_resp_le.
  change ((s1 / avg)%Qc ≤ (s2 / avg)%Qc)%Qc.
  apply Qcmult_le_compat_r; [done|].
  by apply Qclt_le_weak, Qcinv_pos.
Qed.

(** C6.  [getIndexByScrollTop] is monotone in the scroll offset: in the
    search branch for every cumulative index, in the fallback branch for a
    positive average height. *)
Theorem getIndexByScrollTop_monotone st (s1 s2 : Qc) :
  (accumulatedHeights st = [] → (0 < averageHeight st)%Qc) →
  (s1 < s2)%Qc →
  js_le (getIndexByScrollTop st s1) (getIndexByScrollTop st s2).
Proof.
  intros Havg Hs. apply Qclt_le_weak in Hs. unfold getIndexByScrollTop.
  destruct (accumulatedHeights st) as [|x a] eqn:Hacc.
  - destruct (floor_div_mono s1 s2 (averageHeight st)) as (i1 & i2 & -> & -> & H);
      [by apply Havg|done|done].
  - simpl. by apply bsearch_mono.
Qed.

(** C4, as the code has it.  With an empty cumulative index (no list is
    populated) the result is [Math.floor(scrollTop / averageHeight)];
    with a non-empty one the fallback is not taken, and when the index is
    strictly increasing the result is the first index whose cumulative
    height is at least the offset, or the length of the index when no
    cumulative height is. *)
Theorem getIndexByScrollTop_locates st (s : Qc) :
  increasing (accumulatedHeights st) →
  (accumulatedHeights st = [] →
   getIndexByScrollTop st s = floor_div s (averageHeight st))
  ∧ (accumulatedHeights st ≠ [] →
     ∃ r, getIndexByScrollTop st s = Int (Z.of_nat r)
          ∧ first_index_at_least (accumulatedHeights st) s r).
Proof.
  intros Hinc. unfold getIndexByScrollTop.
  destruct (accumulatedHeights st) as [|x a] eqn:Hacc; [done|].
  split; [done|]. intros _. rewrite <- Hacc in *. clear x a Hacc.
  set (a := accumulatedHeights st) in *.
  set (r := bsearch a s 0 (Z.of_nat (length a) - 1)).
  pose proof (bsearch_bounds a s 0 (Z.of_nat (length a) - 1)) as Hb.
  fold r in Hb.
  assert (∀ j x, a !! j = Some x → (Z.of_nat j < r)%Z ↔ (x < s)%Qc) as Hr.
  { apply bsearch_first; [done|lia..| |]; intros j x Hj Hx; [lia|].
    apply lookup_lt_Some in Hx. lia. }
  exists (Z.to_nat r). split; [f_equal; lia|].
  split; [lia|]. split.
  - intros j x Hj Hx. apply (Hr j x Hx). lia.
  - intros x Hx. apply Qcnot_lt_le. intros Hlt.
    apply (Hr _ x Hx) in Hlt. lia.
Qed.

(** C4 as the specification words it fails: with a populated list and no
    measurement yet, the search is used, and its result differs from
    [Math.floor(scrollTop / averageHeight)]. *)
Lemma getIndexByScrollTop_unmeasured_counterexample :
  measuredIndices (populated three 3) = ∅
  ∧ getIndexByScrollTop (populated three 3) (num 200) = Int 1
  ∧ floor_div (num 200) (averageHeight (populated three 3)) = Int 2.
Proof. by vm_compute. Qed.

(** ** The window *)

Lemma absolute_loop_sources (acc : list Qc) items : ∀ c,
  source <$> (absolute_loop acc c items).1 = source <$> items.
Proof.
  induction items as [|item rest IH]; intros c; simpl; [done|].
  by rewrite IH.
Qed.

Lemma insert_translateY_sources vl k y item :
  vl !! k = Some item →
  source <$> <[k := set_translateY y item]> vl = source <$> vl.
Proof.
  intros Hk. rewrite list_fmap_insert. simpl.
  apply list_insert_id. by rewrite list_lookup_fmap, Hk.
Qed.

Lemma cumulative_step_sources heights avg acc order
    (r : list (VirtualItem A) * gmap nat Qc) k :
  source <$> (cumulative_step heights avg acc order r k).1 = source <$> r.1.
Proof.
  unfold cumulative_step.
  destruct (r.1 !! k) as [item|] eqn:Hk; [|done].
  destruct (decide (vindex item = 0)); simpl;
    [by apply insert_translateY_sources|].
  destruct (r.2 !! vindex item); simpl; by apply insert_translateY_sources.
Qed.

Lemma cumulative_loop_sources heights avg acc order l :
  ∀ r : list (VirtualItem A) * gmap nat Qc,
  source <$> (foldl (cumulative_step heights avg acc order) r l).1
  = source <$> r.1.
Proof.
  induction l as [|k l IH]; intros r; simpl; [done|].
  by rewrite IH, cumulative_step_sources.
Qed.

Lemma updateItemPositions_sources p st :
  source <$> virtualList (updateItemPositions p st)
  = source <$> virtualList st.
Proof.
  unfold updateItemPositions.
  destruct (positionMode p); simpl.
  - apply absolute_loop_sources.
  - apply cumulative_loop_sources.
Qed.

Lemma calculateVirtualList_sources p (a b : Z) st :
  source <$> virtualList (calculateVirtualList p a b st)
  = js_slice (copyList st) (Z.max 0 a)
      (Z.min (Z.of_nat (length (copyList st))) b).
Proof.
  unfold calculateVirtualList.
  match goal with
  | |- context [if ?c then _ else _] => destruct c
  end.
  - match goal with
    | |- context [scheduleHeightMeasurement false ?s] =>
        destruct (scheduleHeightMeasurement_frame false s) as (t & ->)
    end.
    simpl. rewrite updateItemPositions_sources. simpl.
    rewrite fmap_imap. apply list_eq. intros i.
    rewrite list_lookup_imap. by destruct (_ !! i).
  - rewrite updateItemPositions_sources. simpl.
    rewrite fmap_imap. apply list_eq. intros i.
    rewrite list_lookup_imap. by destruct (_ !! i).
Qed.

Lemma js_slice_range (l : list (SourceItem A)) (a b : Z) :
  indexed l → (0 ≤ a)%Z → (0 ≤ b ≤ Z.of_nat (length l))%Z →
  index <$> js_slice l a b = range a b.
Proof.
  intros Hl Ha Hb. unfold js_slice, slice_bound, range.
  destruct (decide (a < 0)%Z); [lia|]. destruct (decide (b < 0)%Z); [lia|].
  rewrite fmap_take, fmap_drop, Hl, drop_seq, take_seq. simpl.
  destruct (decide (a ≤ Z.of_nat (length l))%Z).
  - f_equal; lia.
  - replace (Z.to_nat (b - a)) with 0 by lia.
    replace (Z.to_nat (b `min` Z.of_nat (length l)
                       - a `min` Z.of_nat (length l))) with 0 by lia.
    done.
Qed.

Lemma calculateVirtualList_range p (a b : Z) st :
  indexed (copyList st) → (0 ≤ b)%Z →
  vindex <$> virtualList (calculateVirtualList p a b st)
  = range (Z.max 0 a) (Z.min (Z.of_nat (length (copyList st))) b).
Proof.
  intros Hl Hb.
  change (vindex <$> ?l) with ((index ∘ source) <$> l).
  rewrite list_fmap_compose, calculateVirtualList_sources.
  apply js_slice_range; [done|lia..].
Qed.

(** Every window move asks for the same range around its anchor: it is a
    sub-range of [0, N) of at most
    [virtualListLength + 2 * preloadCount] indices. *)
Lemma windowAt_range p (anchor : Z) st :
  indexed (copyList st) →
  (0 ≤ virtualListLength p)%Z → (0 ≤ preloadCount p)%Z →
  (0 ≤ anchor ≤ Z.of_nat (length (copyList st)))%Z →
  let N := Z.of_nat (length (copyList st)) in
  let a := Z.max 0 (anchor - preloadCount p) in
  let b := Z.min N (anchor + virtualListLength p + preloadCount p) in
  vindex <$> virtualList (windowAt p anchor st) = range a b
  ∧ (0 ≤ a ≤ b)%Z ∧ (b ≤ N)%Z
  ∧ (b - a ≤ Z.min N (virtualListLength p + 2 * preloadCount p))%Z.
Proof.
  intros Hl HV HP Hanchor N a b. split; [|lia].
  unfold windowAt. rewrite calculateVirtualList_range by (done || lia).
  fold N. unfold range. f_equal; lia.
Qed.

Lemma imap_indexed (f : nat → A → SourceItem A) (l : list A) :
  (∀ i x, index (f i x) = i) → indexed (imap f l).
Proof.
  intros Hf. unfold indexed.
  rewrite fmap_imap, length_imap.
  rewrite (imap_ext _ (λ i _, id i)) by (intros; simpl; apply Hf).
  by rewrite imap_seq_0, list_fmap_id.
Qed.

Lemma watch_window p (x : A) (l : list A) st :
  (0 ≤ virtualListLength p + preloadCount p)%Z →
  vindex <$> virtualList (watch p (x :: l) st)
  = range 0 (Z.min (Z.of_nat (length (x :: l)))
               (virtualListLength p + preloadCount p)).
Proof.
  intros Hvp. unfold watch.
  match goal with
  | |- context [scheduleHeightMeasurement true ?s] =>
      destruct (scheduleHeightMeasurement_frame true s) as (t & ->)
  end.
  cbn [virtualList set_heightUpdateTimeout].
  rewrite calculateVirtualList_range.
  - cbn [copyList initItemHeights updateAccumulatedHeights set_totalHeight
         set_accumulatedHeights set_positionCache set_itemHeights
         set_averageHeight set_measuredIndices set_copyList].
    rewrite length_imap. unfold range. f_equal; lia.
  - by apply imap_indexed.
  - simpl length. lia.
Qed.

(** ** Scroll-driven updates *)

Lemma windowAt_frame p (anchor : Z) st :
  ∃ vl c t,
    windowAt p anchor st
    = set_heightUpdateTimeout t (set_positionCache c (set_virtualList vl st)).
Proof. apply calculateVirtualList_frame. Qed.

Lemma updateVisibleItems_nonempty p (scrollTop : Qc) st :
  copyList st ≠ [] →
  updateVisibleItems p scrollTop st
  = match clampEstimate p st (getIndexByScrollTop st scrollTop) with
    | Int estimatedIndex =>
        if decide (Z.abs (estimatedIndex - currentIndex st)
                   > preloadCount p `div` 3)%Z
        then windowAt p estimatedIndex (set_currentIndex estimatedIndex st)
        else st
    | _ => st
    end.
Proof. unfold updateVisibleItems. by destruct (copyList st). Qed.

(** C7.  On a scroll-driven update of a non-empty list of length [N] whose
    located index is [located]: the estimate is
    [max(0, min(located, N - virtualListLength))], inside
    [0, max(0, N - virtualListLength)]; when it is within
    [floor(preloadCount / 3)] of [currentIndex] the state is unchanged;
    otherwise [currentIndex] becomes the estimate and the window is
    [max(0, estimate - preloadCount),
     min(N, estimate + virtualListLength + preloadCount)). *)
Theorem updateVisibleItems_hysteresis p st (scrollTop : Qc) (located : Z) :
  copyList st ≠ [] → indexed (copyList st) →
  (0 ≤ virtualListLength p)%Z → (0 ≤ preloadCount p)%Z →
  getIndexByScrollTop st scrollTop = Int located →
  let N := Z.of_nat (length (copyList st)) in
  let estimated := Z.max 0 (Z.min located (N - virtualListLength p)) in
  let st' := updateVisibleItems p scrollTop st in
  clampEstimate p st (getIndexByScrollTop st scrollTop) = Int estimated
  ∧ (0 ≤ estimated ≤ Z.max 0 (N - virtualListLength p))%Z
  ∧ ((Z.abs (estimated - currentIndex st) ≤ preloadCount p `div` 3)%Z →
     st' = st)
  ∧ ((Z.abs (estimated - currentIndex st) > preloadCount p `div` 3)%Z →
     currentIndex st' = estimated
     ∧ vindex <$> virtualList st'
       = range (Z.max 0 (estimated - preloadCount p))
           (Z.min N (estimated + virtualListLength p + preloadCount p))).
Proof.
  intros Hne Hidx HV HP Hloc N estimated st'.
  assert (clampEstimate p st (getIndexByScrollTop st scrollTop)
          = Int estimated) as Hclamp by by rewrite Hloc.
  split; [done|]. split; [lia|].
  subst st'. rewrite updateVisibleItems_nonempty, Hclamp by done.
  destruct (decide _) as [Hfar|Hnear]; (split; [intros; try done; lia|]).
  - intros _.
    split.
    { destruct (windowAt_frame p estimated (set_currentIndex estimated st))
        as (vl & c & t & ->). done. }
    apply (windowAt_range p estimated (set_currentIndex estimated st));
      simpl; (done || lia).
  - intros. lia.
Qed.

(** C1, as the code has it.  For a non-empty source list of length [N]
    the window is always a contiguous sub-range of [0, N): it is
    [0, min(N, virtualListLength + preloadCount)) when the list is
    populated, and on a scroll-driven recompute it is a range [a, b) of at
    most [min(N, virtualListLength + 2 * preloadCount)] indices. *)
Theorem window_contiguous_bounded p :
  (0 ≤ virtualListLength p)%Z → (0 ≤ preloadCount p)%Z →
  (∀ (x : A) (l : list A) st,
     let N := Z.of_nat (length (x :: l)) in
     let b := Z.min N (virtualListLength p + preloadCount p) in
     vindex <$> virtualList (watch p (x :: l) st) = range 0 b
     ∧ length (virtualList (watch p (x :: l) st)) = Z.to_nat b
     ∧ (0 ≤ b ≤ N)%Z)
  ∧ (∀ st (scrollTop : Qc) (estimated : Z),
       copyList st ≠ [] → indexed (copyList st) →
       clampEstimate p st (getIndexByScrollTop st scrollTop) = Int estimated →
       (Z.abs (estimated - currentIndex st) > preloadCount p `div` 3)%Z →
       let N := Z.of_nat (length (copyList st)) in
       let st' := updateVisibleItems p scrollTop st in
       ∃ a b : Z,
         vindex <$> virtualList st' = range a b
         ∧ length (virtualList st') = Z.to_nat (b - a)
         ∧ (0 ≤ a ≤ b)%Z ∧ (b ≤ N)%Z
         ∧ (b - a ≤ Z.min N (virtualListLength p + 2 * preloadCount p))%Z).
Proof.
  intros HV HP. split.
  - intros x l st N b.
    pose proof (watch_window p x l st ltac:(lia)) as Hw. fold N b in Hw.
    split; [done|]. split; [|lia].
    rewrite <- (length_fmap vindex), Hw. unfold range.
    rewrite length_seq. lia.
  - intros st scrollTop estimated Hne Hidx Hclamp Hfar N st'.
    assert (0 ≤ estimated ≤ N)%Z as Hest.
    { unfold clampEstimate in Hclamp. fold N in Hclamp.
      destruct (getIndexByScrollTop st scrollTop); simplify_eq/=; lia. }
    subst st'. rewrite updateVisibleItems_nonempty, Hclamp by done.
    destruct (decide _) as [_|Hnear]; [|lia].
    destruct (windowAt_range p estimated (set_currentIndex estimated st))
      as (Hw & Hab & HbN & Hsize); simpl; try (done || lia).
    eexists _, _. split; [exact Hw|].
    split; [|auto].
    rewrite <- (length_fmap vindex), Hw. unfold range.
    by rewrite length_seq.
Qed.

(** C1 as the specification words it fails: the window of a freshly
    populated list of 1000 items with the default props has 30 elements,
    not [min(1000, 20 + 2 * 10) = 40]. *)
Lemma initial_window_size_counterexample :
  length (virtualList (populated defaults 1000)) = 30
  ∧ Z.min 1000 (virtualListLength defaults + 2 * preloadCount defaults) = 40%Z
  ∧ Z.of_nat (length (virtualList (populated defaults 1000)))
    ≠ Z.min (Z.of_nat (length (copyList (populated defaults 1000))))
        (virtualListLength defaults + 2 * preloadCount defaults).
Proof. by vm_compute. Qed.

(** ** Writes to the height table *)

Lemma array_get_set_eq {T} (a : list (option T)) (i : nat) (v : T) :
  array_get (array_set a i v) i = Some v.
Proof.
  unfold array_get, array_set. destruct (decide (i < length a)).
  - by rewrite list_lookup_insert_eq.
  - rewrite lookup_app_r by lia.
    rewrite lookup_app_r by (rewrite length_replicate; lia).
    rewrite length_replicate, Nat.sub_diag. done.
Qed.

Lemma array_get_set_ne {T} (a : list (option T)) (i j : nat) (v : T) :
  i ≠ j → array_get (array_set a i v) j = array_get a j.
Proof.
  intros Hne. unfold array_get, array_set.
  destruct (decide (i < length a)).
  - by rewrite list_lookup_insert_ne.
  - destruct (decide (j < length a)).
    + by rewrite lookup_app_l.
    + rewrite (lookup_ge_None_2 a j) by lia.
      rewrite lookup_app_r by lia.
      destruct (decide (j - length a < i - length a)).
      * rewrite lookup_app_l by (rewrite length_replicate; lia).
        by rewrite lookup_replicate_2.
      * rewrite lookup_app_r by (rewrite length_replicate; lia).
        rewrite length_replicate.
        rewrite lookup_ge_None_2; [done|]. simpl. lia.
Qed.

Lemma array_set_length_lt {T} (a : list (option T)) (i : nat) (v : T) :
  i < length a → length (array_set a i v) = length a.
Proof.
  intros Hi. unfold array_set.
  destruct (decide (i < length a)); [|lia]. apply length_insert.
Qed.

(** ** The initial-sample batch *)

Lemma batchHeights_cons (rect : Rect) (rects : list Rect) :
  batchHeights (rect :: rects)
  = match valid_rect rect with
    | Some (_, h) => h :: batchHeights rects
    | None => batchHeights rects
    end.
Proof. unfold batchHeights. csimpl. by destruct (valid_rect rect) as [[]|]. Qed.

Lemma initialSample_loop rects : ∀ (b : Batch) st,
  let r := foldl initialSample_rect (b, st) rects in
  measuredCount r.1 = measuredCount b + length (batchHeights rects)
  ∧ batchTotal r.1 = (batchTotal b + foldr Qcplus 0%Qc (batchHeights rects))%Qc
  ∧ averageHeight r.2 = averageHeight st
  ∧ measuredIndices st ⊆ measuredIndices r.2
  ∧ ∀ i, i ∉ measuredIndices r.2 →
         array_get (itemHeights r.2) i = array_get (itemHeights st) i.
Proof.
  induction rects as [|rect rects IH]; intros b st.
  { simpl. repeat split; [lia|ring|done]. }
  rewrite batchHeights_cons. cbn [foldl].
  destruct (initialSample_rect (b, st) rect) as [b' st1] eqn:Hstep.
  destruct (IH b' st1) as (Hc & Ht & Ha & Hm & Hg).
  cbv zeta. rewrite Hc, Ht, Ha. clear Hc Ht Ha IH.
  unfold initialSample_rect in Hstep.
  destruct (valid_rect rect) as [[j h]|]; simplify_eq/=.
  - repeat split; [lia|ring|set_solver|].
    intros i Hi. rewrite Hg by done. apply array_get_set_ne.
    set_solver.
  - done.
Qed.

Lemma rewriteUnmeasured_spec (avg : Qc) st (j : nat) :
  measuredIndices (rewriteUnmeasured avg st j) = measuredIndices st
  ∧ averageHeight (rewriteUnmeasured avg st j) = averageHeight st
  ∧ (j < length (itemHeights st) →
     length (itemHeights (rewriteUnmeasured avg st j))
     = length (itemHeights st))
  ∧ ∀ i,
      array_get (itemHeights (rewriteUnmeasured avg st j)) i
      = (if decide (i = j ∧ i ∉ measuredIndices st) then Some avg
         else array_get (itemHeights st) i)
      ∧ positionCache (rewriteUnmeasured avg st j) !! i
        = (if decide (i = j ∧ i ∉ measuredIndices st) then None
           else positionCache st !! i).
Proof.
  unfold rewriteUnmeasured.
  destruct (decide (j ∈ measuredIndices st)) as [Hin|Hout]; simpl.
  - do 3 (split; [done|]). intros i.
    split; case_decide; naive_solver.
  - do 2 (split; [done|]). split; [apply array_set_length_lt|].
    intros i. split.
    + case_decide as Hc.
      * destruct Hc as [-> _]. apply array_get_set_eq.
      * apply array_get_set_ne. naive_solver.
    + case_decide as Hc.
      * destruct Hc as [-> _]. apply lookup_delete_eq.
      * apply lookup_delete_ne. naive_solver.
Qed.

Lemma rewriteUnmeasured_loop (avg : Qc) (l : list nat) : ∀ st,
  let st' := foldl (rewriteUnmeasured avg) st l in
  measuredIndices st' = measuredIndices st
  ∧ averageHeight st' = averageHeight st
  ∧ ((∀ j, j ∈ l → j < length (itemHeights st)) →
     length (itemHeights st') = length (itemHeights st))
  ∧ ∀ i,
      array_get (itemHeights st') i
      = (if decide (i ∈ l ∧ i ∉ measuredIndices st) then Some avg
         else array_get (itemHeights st) i)
      ∧ positionCache st' !! i
        = (if decide (i ∈ l ∧ i ∉ measuredIndices st) then None
           else positionCache st !! i).
Proof.
  induction l as [|j l IH]; intros st; simpl.
  { repeat split; case_decide; set_solver. }
  destruct (IH (rewriteUnmeasured avg st j)) as (Hm & Ha & Hlen & Hget).
  destruct (rewriteUnmeasured_spec avg st j) as (Hm1 & Ha1 & Hlen1 & Hget1).
  rewrite Hm, Ha, Hm1, Ha1. split; [done|]. split; [done|]. split.
  - intros Hl. rewrite Hlen, Hlen1; [done|apply Hl; set_solver|].
    intros k Hk. rewrite Hlen1 by (apply Hl; set_solver).
    apply Hl. set_solver.
  - intros i. destruct (Hget i) as [-> ->], (Hget1 i) as [-> ->].
    rewrite Hm1. split; repeat case_decide; set_solver.
Qed.

Lemma initialSample_heights_counted p (rects : list Rect) st :
  batchHeights rects ≠ [] →
  let r := foldl initialSample_rect (batch0, st) rects in
  let mean := arithmeticMean (batchHeights rects) in
  let st1 := set_averageHeight mean r.2 in
  0 < measuredCount r.1
  ∧ initialSample_heights p rects st
    = (r.1,
       if sampleGate p (doubleMean rects)
       then foldl (rewriteUnmeasured mean) st1
              (seq 0 (length (itemHeights st1)))
       else st1).
Proof.
  intros Hne r mean st1.
  destruct (initialSample_loop rects batch0 st) as (Hc & Ht & _).
  fold r in Hc, Ht. simpl in Hc, Ht.
  assert (0 < measuredCount r.1) as Hpos.
  { rewrite Hc. destruct (batchHeights rects); simpl; [done|lia]. }
  split; [done|].
  assert (batchMean r.1 = mean) as Hmean.
  { unfold batchMean, mean, arithmeticMean. rewrite Hc, Ht. f_equal. ring. }
  unfold initialSample_heights. fold r.
  destruct (decide (0 < measuredCount r.1)); [|done].
  rewrite Hmean. fold st1. by destruct (sampleGate p _).
Qed.

(** C2, as the code has it.  After an initial-sample batch with at least
    one valid measurement the average height is the arithmetic mean of the
    heights the batch counted.  The test of line 297 is one test for the
    whole batch, of the new average against the nominal height, and the
    machine decides it in binary64 ([sampleGate] on [doubleMean]).  When
    it succeeds, every index of the table that is not in the measured set
    holds the mean, and its cache entry is deleted before the positions
    are rebuilt; when it fails, every index that is not in the measured
    set keeps the height it had. *)
Theorem measureInitialSample_batch p (rects : list Rect) st :
  batchHeights rects ≠ [] →
  let mean := arithmeticMean (batchHeights rects) in
  let heights := (initialSample_heights p rects st).2 in
  let st' := measureInitialSample_cb p rects st in
  averageHeight st' = mean
  ∧ itemHeights st' = itemHeights heights
  ∧ measuredIndices st' = measuredIndices heights
  ∧ (sampleGate p (doubleMean rects) = true →
     ∀ i, i < length (itemHeights st') → i ∉ measuredIndices st' →
       array_get (itemHeights st') i = Some mean
       ∧ positionCache heights !! i = None)
  ∧ (sampleGate p (doubleMean rects) = false →
     ∀ i, i ∉ measuredIndices st' →
       array_get (itemHeights st') i = array_get (itemHeights st) i).
Proof.
  intros Hne mean heights st'.
  destruct (initialSample_heights_counted p rects st Hne) as [Hpos Heq].
  destruct (initialSample_loop rects batch0 st) as (_ & _ & Havg & Hsub & Hget).
  set (r := foldl initialSample_rect (batch0, st) rects) in *.
  fold mean in Heq. cbv zeta in Heq.
  set (st1 := set_averageHeight mean r.2) in *.
  assert (st' = updateItemPositions p (updateAccumulatedHeights heights))
    as Hst'.
  { subst st' heights. unfold measureInitialSample_cb.
    destruct rects as [|rect rects]; [done|].
    rewrite Heq. simpl. by destruct (decide (0 < measuredCount r.1)). }
  destruct (updateItemPositions_frame p (updateAccumulatedHeights heights))
    as (vl & c & Hframe).
  rewrite Hframe in Hst'.
  assert (itemHeights st' = itemHeights heights) as Hih by by rewrite Hst'.
  assert (measuredIndices st' = measuredIndices heights) as Hmi
    by by rewrite Hst'.
  assert (averageHeight st' = averageHeight heights) as Hah
    by by rewrite Hst'.
  rewrite Hih, Hmi, Hah. clear Hst' Hframe Hih Hmi Hah vl c.
  subst heights. rewrite Heq. cbn [fst snd].
  destruct (rewriteUnmeasured_loop mean (seq 0 (length (itemHeights st1))) st1)
    as (Hm & Ha & Hlen & Hrw).
  destruct (sampleGate p (doubleMean rects)).
  - rewrite Hm, Ha. split; [done|]. do 2 (split; [done|]).
    split; [|done]. intros _ i Hi Hmeasured.
    rewrite Hlen in Hi by (intros j Hj; apply elem_of_seq in Hj; lia).
    destruct (Hrw i) as [-> ->].
    rewrite !decide_True; [done|split; [apply elem_of_seq; lia|done]..].
  - split; [done|]. do 2 (split; [done|]).
    split; [done|]. intros _ i Hmeasured. by apply Hget.
Qed.

(** C2 as the specification words it fails: index 2 is unmeasured and its
    height 115 is within 10% of the new average 120 (and 120 within 10% of
    115), yet the second initial pass rewrites it to 120, because the new
    average is more than 10% away from the nominal height 100. *)
Lemma unmeasured_rewrite_counterexample :
  ¬ specRewriteRule sampled115 sampled120.
Proof.
  intros Hrule. specialize (Hrule 2 (num 115)).
  assert (array_get (itemHeights sampled120) 2
          = Some (num 115)) as Hkept.
  { rewrite Hrule.
    - apply (bool_decide_unpack _). by vm_compute.
    - apply (bool_decide_unpack _). by vm_compute.
    - apply (bool_decide_unpack _). by vm_compute. }
  revert Hkept. apply (bool_decide_unpack _). by vm_compute.
Qed.

(** ** The stable sort of the cumulative strategy *)

Lemma insert_by_perm (key : nat → nat) (k : nat) (l : list nat) :
  insert_by key k l ≡ₚ k :: l.
Proof.
  induction l as [|k' l IH]; simpl; [done|].
  destruct (decide (key k ≤ key k')); [done|].
  rewrite IH. apply perm_swap.
Qed.

Lemma sort_by_perm (key : nat → nat) (l : list nat) : sort_by key l ≡ₚ l.
Proof.
  induction l as [|k l IH]; simpl; [done|].
  by rewrite insert_by_perm, IH.
Qed.

Lemma insert_by_sorted (key : nat → nat) (k : nat) (l : list nat) :
  sorted_by key l → sorted_by key (insert_by key k l).
Proof.
  unfold sorted_by. induction l as [|k' l IH]; simpl; intros Hl.
  { by repeat constructor. }
  apply StronglySorted_cons in Hl as [Hk' Hl].
  destruct (decide (key k ≤ key k')) as [Hle|Hgt].
  - apply StronglySorted_cons. split.
    + constructor; [done|].
      eapply Forall_impl; [exact Hk'|]. simpl. lia.
    + by apply StronglySorted_cons.
  - apply StronglySorted_cons. split; [|by apply IH].
    rewrite insert_by_perm. constructor; [lia|done].
Qed.

Lemma sort_by_sorted (key : nat → nat) (l : list nat) :
  sorted_by key (sort_by key l).
Proof.
  induction l as [|k l IH]; simpl; [constructor|].
  by apply insert_by_sorted.
Qed.

(** ** Offsets *)

Lemma or_num_zero (x : Qc) : or_num (Some x) 0%Qc = x.
Proof.
  unfold or_num, truthy. case_bool_decide as Hx; [done|].
  destruct (decide (x = 0%Qc)); [done|by destruct Hx].
Qed.

(** In an up-to-date cumulative index the offset of an index is the offset
    of its predecessor plus the effective height of the predecessor. *)
Lemma offset_succ (avg : Qc) (hs : list (option Qc)) (j : nat) :
  j < length hs →
  offset (running avg 0%Qc hs) (S j)
  = (offset (running avg 0%Qc hs) j + or_num (array_get hs j) avg)%Qc.
Proof.
  intros Hj. unfold offset. simpl. rewrite Nat.sub_0_r.
  rewrite running_lookup, or_num_zero by done.
  destruct (lookup_lt_is_Some_2 hs j Hj) as [h Hh].
  rewrite (take_S_r _ _ _ Hh), effective_sum_app. simpl.
  unfold array_get. rewrite Hh. simpl.
  destruct (decide (j = 0)) as [->|Hj0].
  - simpl. ring.
  - rewrite running_lookup, or_num_zero by lia.
    replace (S (j - 1)) with j by lia. ring.
Qed.

(** ** The absolute strategy *)

Lemma absolute_loop_offsets (acc : list Qc) items : ∀ c,
  cache_agrees acc c →
  (absolute_loop acc c items).1 = place acc <$> items.
Proof.
  induction items as [|item rest IH]; intros c Hc; simpl; [done|].
  assert ((absolute_position acc c item).1 = offset acc (vindex item)
          ∧ cache_agrees acc (absolute_position acc c item).2) as [-> Hc'].
  { unfold absolute_position, offset.
    destruct (decide (vindex item = 0)); [done|].
    destruct (c !! vindex item) as [y|] eqn:Hy; simpl.
    - split; [|done]. rewrite (Hc _ _ Hy). unfold offset.
      by rewrite decide_False.
    - split; [done|]. intros j y. rewrite lookup_insert.
      case_decide as Hj; [|by auto].
      intros [= <-]. subst j. unfold offset. by rewrite decide_False. }
  by rewrite IH.
Qed.

(** ** The cumulative strategy *)

Lemma sortedList_perm vl : sortedList vl ≡ₚ seq 0 (length vl).
Proof. apply sort_by_perm. Qed.

Lemma sortedList_sorted vl : sorted_by (index_at vl) (sortedList vl).
Proof. apply sort_by_sorted. Qed.

Lemma find_index_Some vl (order : list nat) (i : nat) item :
  find_index vl order i = Some item →
  ∃ k, k ∈ order ∧ vl !! k = Some item ∧ vindex item = i.
Proof.
  induction order as [|k order IH]; simpl; [done|].
  destruct (vl !! k) as [it|] eqn:Hk.
  - destruct (decide (vindex it = i)) as [Hi|Hi].
    + intros [= <-]. exists k. split; [left|done].
    + intros H. destruct (IH H) as (k' & ? & ?). exists k'.
      split; [by right|done].
  - intros H. destruct (IH H) as (k' & ? & ?). exists k'.
    split; [by right|done].
Qed.

Lemma positioned_insert (acc : list Qc) vl0 vl (done : list nat) (k : nat)
    item :
  positioned acc vl0 done vl →
  vl0 !! k = Some item → k < length vl →
  positioned acc vl0 (done ++ [k])
    (<[k := set_translateY (offset acc (vindex item)) item]> vl).
Proof.
  intros Hpos Hk Hlen k2. destruct (decide (k2 = k)) as [->|Hne].
  - rewrite list_lookup_insert_eq by done.
    rewrite decide_True by set_solver. by rewrite Hk.
  - rewrite list_lookup_insert_ne by done. rewrite Hpos.
    repeat case_decide; set_solver.
Qed.

Section Cumulative.

Variables (hs : list (option Qc)) (avg : Qc) (vl0 : list (VirtualItem A)).

Hypothesis in_bounds : Forall (λ v, vindex v < length hs) vl0.

Lemma cumulative_step_positioned (done todo : list nat) (k : nat) vl
    (c : gmap nat Qc) :
  sortedList vl0 = done ++ k :: todo →
  positioned (running avg 0%Qc hs) vl0 done vl →
  cache_agrees (running avg 0%Qc hs) c →
  let r' := cumulative_step hs avg (running avg 0%Qc hs) (sortedList vl0)
              (vl, c) k in
  positioned (running avg 0%Qc hs) vl0 (done ++ [k]) r'.1
  ∧ cache_agrees (running avg 0%Qc hs) r'.2.
Proof.
  set (acc := running avg 0%Qc hs). intros Hord Hpos Hc.
  pose proof (sortedList_perm vl0) as Hperm.
  pose proof (sortedList_sorted vl0) as Hsorted.
  assert (NoDup (done ++ k :: todo)) as Hnd
    by (rewrite <- Hord, Hperm; apply NoDup_seq).
  apply NoDup_app in Hnd as (_ & Hdisj & Hnd).
  apply NoDup_cons in Hnd as [Hk_todo _].
  assert (k ∉ done) as Hk_done by (intros ?; eapply Hdisj; [done|left]).
  assert (k < length vl0) as Hk_len.
  { assert (k ∈ seq 0 (length vl0)) as Hin
      by (rewrite <- Hperm, Hord; set_solver).
    apply elem_of_seq in Hin. lia. }
  destruct (lookup_lt_is_Some_2 vl0 k Hk_len) as [item Hitem].
  assert (vl !! k = Some item) as Hvk
    by (rewrite Hpos, decide_False by done; done).
  assert (k < length vl) as Hk_len' by by eapply lookup_lt_Some.
  assert (vindex item < length hs) as Hj
    by (eapply (Forall_lookup_1 _ _ _ _ in_bounds); done).
  unfold cumulative_step. cbn [fst snd]. rewrite Hvk.
  destruct (decide (vindex item = 0)) as [Hj0|Hj0]; cbn [fst snd].
  { split; [|done].
    replace 0%Qc with (offset acc (vindex item))
      by (unfold offset; by rewrite decide_True).
    by apply positioned_insert. }
  destruct (c !! vindex item) as [y|] eqn:Hy; cbn [fst snd].
  { split; [|done]. rewrite (Hc _ _ Hy). by apply positioned_insert. }
  match goal with
  | |- context [<[vindex item := ?y]> c] =>
      assert (y = offset acc (vindex item)) as ->
  end.
  { destruct (find_index vl (sortedList vl0) (vindex item - 1))
      as [prevItem|] eqn:Hfind.
    2:{ unfold offset. by rewrite decide_False. }
    apply find_index_Some in Hfind as (k' & Hk' & Hvk' & Hprev).
    assert (k' ∈ done) as Hdone.
    { rewrite Hord in Hk'. apply elem_of_app in Hk' as [?|Hk']; [done|].
      exfalso. apply elem_of_cons in Hk' as [->|Hk'].
      - assert (prevItem = item) as -> by congruence. lia.
      - assert (k' ∉ done) as Hk'_done by (intros ?; eapply Hdisj; [done|by right]).
        rewrite Hpos, decide_False in Hvk' by done.
        unfold sorted_by in Hsorted. rewrite Hord in Hsorted.
        apply StronglySorted_app_1_r, StronglySorted_cons in Hsorted
          as [Hle _].
        rewrite Forall_forall in Hle. specialize (Hle _ Hk').
        unfold index_at in Hle. rewrite Hitem, Hvk' in Hle. simpl in Hle.
        lia. }
    rewrite Hpos, decide_True in Hvk' by done.
    destruct (vl0 !! k') as [v|]; [|done]. injection Hvk' as <-.
    unfold place in *. cbn [translateY set_translateY].
    change (vindex (set_translateY _ v)) with (vindex v) in Hprev.
    rewrite Hprev. unfold acc.
    rewrite <- offset_succ by lia. f_equal. lia. }
  split; [by apply positioned_insert|].
  intros j y. rewrite lookup_insert. case_decide as Hjj; [|by auto].
  intros [= <-]. by subst j.
Qed.

Lemma cumulative_loop_positioned (todo : list nat) : ∀ (done : list nat) vl
    (c : gmap nat Qc),
  sortedList vl0 = done ++ todo →
  positioned (running avg 0%Qc hs) vl0 done vl →
  cache_agrees (running avg 0%Qc hs) c →
  let r' := foldl (cumulative_step hs avg (running avg 0%Qc hs)
                     (sortedList vl0)) (vl, c) todo in
  positioned (running avg 0%Qc hs) vl0 (sortedList vl0) r'.1
  ∧ cache_agrees (running avg 0%Qc hs) r'.2.
Proof.
  induction todo as [|k todo IH]; intros done vl c Hord Hpos Hc.
  { rewrite app_nil_r in Hord. by rewrite Hord. }
  cbn [foldl].
  destruct (cumulative_step_positioned done todo k vl c Hord Hpos Hc)
    as [Hpos' Hc'].
  destruct (cumulative_step _ _ _ _ (vl, c) k) as [vl' c'].
  apply (IH (done ++ [k])); [by rewrite <- app_assoc|done..].
Qed.

Lemma cumulative_loop_offsets (c : gmap nat Qc) :
  cache_agrees (running avg 0%Qc hs) c →
  (foldl (cumulative_step hs avg (running avg 0%Qc hs) (sortedList vl0))
     (vl0, c) (sortedList vl0)).1
  = place (running avg 0%Qc hs) <$> vl0.
Proof.
  intros Hc.
  destruct (cumulative_loop_positioned (sortedList vl0) [] vl0 c)
    as [Hpos _]; [done| |done|].
  { intros k. by rewrite decide_False by set_solver. }
  apply list_eq. intros k. rewrite Hpos, list_lookup_fmap.
  case_decide as Hk; [done|].
  rewrite lookup_ge_None_2; [done|].
  destruct (decide (k < length vl0)) as [Hlt|]; [|lia].
  destruct Hk. rewrite sortedList_perm. apply elem_of_seq. lia.
Qed.

End Cumulative.

Lemma running_stored (avg avg' : Qc) (hs : list (option Qc)) : ∀ s,
  heights_positive hs → running avg s hs = running avg' s hs.
Proof.
  induction hs as [|h hs IH]; intros s Hpos; simpl; [done|].
  apply Forall_cons in Hpos as [(q & -> & Hq) Hpos].
  rewrite !or_num_stored by done. by rewrite IH.
Qed.

(** With an empty cache and an up-to-date cumulative index both strategies
    place every element of an in-bounds window at the offset the index
    gives it. *)
Lemma updateItemPositions_place st :
  positionCache st = ∅ →
  accumulatedHeights st = accumulatedHeights (updateAccumulatedHeights st) →
  Forall (λ v, vindex v < length (itemHeights st)) (virtualList st) →
  virtualList (updateItemPositionsAbsolute st)
  = place (accumulatedHeights st) <$> virtualList st
  ∧ virtualList (updateItemPositionsCumulative st)
    = place (accumulatedHeights st) <$> virtualList st.
Proof.
  intros Hcache Hacc Hbounds.
  destruct (updateAccumulatedHeights_running st) as [Hrun _].
  rewrite Hrun in Hacc.
  unfold updateItemPositionsAbsolute, updateItemPositionsCumulative.
  cbn [virtualList set_positionCache set_virtualList].
  rewrite Hcache. split.
  - by apply absolute_loop_offsets.
  - rewrite Hacc. by apply cumulative_loop_offsets.
Qed.

(** C10.  For a window inside the table, when the position cache is empty
    and the cumulative index is the one rebuilt from the current height
    table, whose stored heights are all at least 1, the absolute and the
    cumulative strategy produce the same window: every element gets the
    same [translateY]. *)
Theorem positioning_strategies_agree st (rebuilt : State A) :
  positionCache st = ∅ →
  Forall (λ h, ∃ q, h = Some q ∧ (1 ≤ q)%Qc) (itemHeights st) →
  itemHeights rebuilt = itemHeights st →
  accumulatedHeights st
  = accumulatedHeights (updateAccumulatedHeights rebuilt) →
  Forall (λ v, vindex v < length (itemHeights st)) (virtualList st) →
  virtualList (updateItemPositionsAbsolute st)
  = virtualList (updateItemPositionsCumulative st)
  ∧ translateY <$> virtualList (updateItemPositionsAbsolute st)
    = translateY <$> virtualList (updateItemPositionsCumulative st).
Proof.
  intros Hcache Hheights Hsame Hacc Hbounds.
  assert (heights_positive (itemHeights st)) as Hpos.
  { eapply Forall_impl; [exact Hheights|].
    intros h (q & -> & Hq). exists q. split; [done|].
    eapply Qclt_le_trans; [|exact Hq]. done. }
  assert (accumulatedHeights st
          = accumulatedHeights (updateAccumulatedHeights st)) as Hacc'.
  { rewrite Hacc.
    destruct (updateAccumulatedHeights_running rebuilt) as [-> _].
    destruct (updateAccumulatedHeights_running st) as [-> _].
    rewrite Hsame. by apply running_stored. }
  destruct (updateItemPositions_place st Hcache Hacc' Hbounds) as [-> ->].
  done.
Qed.

(** ** The state after a list is populated *)

Lemma watch_populated p (x : A) (l : list A) st :
  let st' := watch p (x :: l) st in
  itemHeights st' = replicate (S (length l)) (Some (itemHeight p))
  ∧ averageHeight st' = itemHeight p
  ∧ accumulatedHeights st'
    = accumulatedHeights (updateAccumulatedHeights st')
  ∧ indexed (copyList st')
  ∧ length (copyList st') = S (length l)
  ∧ measuredIndices st' = ∅.
Proof.
  intros st'. subst st'. unfold watch.
  match goal with
  | |- context [scheduleHeightMeasurement true ?s] =>
      destruct (scheduleHeightMeasurement_frame true s) as (t & ->)
  end.
  match goal with
  | |- context [calculateVirtualList p ?a ?b ?s] =>
      destruct (calculateVirtualList_frame p a b s) as (vl & c & t' & ->)
  end.
  cbn -[imap running replicate]. rewrite !length_imap.
  split; [done|]. split; [done|]. split; [done|].
  split; [by apply imap_indexed|]. done.
Qed.

Lemma heights_positive_replicate (n : nat) (h : Qc) :
  (0 < h)%Qc → heights_positive (replicate n (Some h)).
Proof. intros Hh. apply Forall_replicate. by exists h. Qed.

(** After a list is populated with a positive nominal height, every
    stored height is positive. *)
Lemma watch_heights_positive p (x : A) (l : list A) st :
  (0 < itemHeight p)%Qc → heights_positive (itemHeights (watch p (x :: l) st)).
Proof.
  intros Hp. destruct (watch_populated p x l st) as [-> _].
  by apply heights_positive_replicate.
Qed.

Lemma effective_sum_pos (avg : Qc) (hs : list (option Qc)) :
  hs ≠ [] → Forall (λ h, (0 < or_num h avg)%Qc) hs →
  (0 < effective_sum avg hs)%Qc.
Proof.
  intros Hne Hpos. destruct Hpos as [|h hs Hh Hpos]; [done|]. simpl.
  apply Qcplus_pos_nonneg; [done|]. apply effective_sum_nonneg.
  eapply Forall_impl; [exact Hpos|]. intros ?. apply Qclt_le_weak.
Qed.

(** A cumulative index rebuilt from positive effective heights is strictly
    increasing. *)
Lemma running_increasing (avg s : Qc) (hs : list (option Qc)) :
  Forall (λ h, (0 < or_num h avg)%Qc) hs → increasing (running avg s hs).
Proof.
  intros Hpos i j x y Hij Hx Hy.
  assert (j < length hs) as Hj
    by (rewrite <- (running_length avg s); by eapply lookup_lt_Some).
  rewrite running_lookup in Hx, Hy by lia.
  injection Hx as <-. injection Hy as <-.
  apply Qcplus_lt_mono_l.
  rewrite <- (take_drop (S i) (take (S j) hs)), take_take, Nat.min_l by lia.
  rewrite effective_sum_app.
  rewrite <- (Qcplus_0_r (effective_sum avg (take (S i) hs))) at 1.
  apply Qcplus_lt_mono_l, effective_sum_pos.
  - intros Heq. apply (f_equal length) in Heq.
    rewrite length_drop, length_take in Heq. cbn [length] in Heq. lia.
  - by apply Forall_drop, Forall_take.
Qed.

Lemma rebuilt_increasing st :
  heights_positive (itemHeights st) →
  increasing (accumulatedHeights (updateAccumulatedHeights st)).
Proof.
  intros Hpos. destruct (updateAccumulatedHeights_running st) as [-> _].
  apply running_increasing.
  eapply Forall_impl; [exact Hpos|].
  intros h (q & -> & Hq). by rewrite or_num_stored.
Qed.

(** ** Cache invalidation of the two re-measurement paths *)

(** A continuous batch stores a height that differs and deletes the cache
    entry of that index only. *)
Lemma measureItemHeights_rect_stores (b : Batch) st (rect : Rect)
    (i : nat) (h : Qc) :
  valid_rect rect = Some (i, h) →
  heightDiffers st i h = true →
  let st' := (measureItemHeights_rect (b, st) rect).2 in
  array_get (itemHeights st') i = Some h
  ∧ (1 ≤ h)%Qc
  ∧ ∀ j, j ≠ i → positionCache st' !! j = positionCache st !! j.
Proof.
  intros Hvalid Hdiff st'. subst st'. unfold measureItemHeights_rect.
  rewrite Hvalid. cbn [fst snd].
  change (heightDiffers (set_measuredIndices _ st) i h)
    with (heightDiffers st i h).
  rewrite Hdiff. cbn [snd]. split; [apply array_get_set_eq|]. split.
  - unfold valid_rect in Hvalid.
    destruct (dataset_index rect); [|done].
    destruct (truthy (height rect)); [|done].
    injection Hvalid as _ <-. apply Qc_max_le_l.
  - intros j Hj. simpl. by rewrite lookup_delete_ne.
Qed.

(** The targeted re-measurement deletes the cache entries of the index and
    of every index after it. *)
Lemma clearCacheFrom_lookup (i n : nat) (c : gmap nat Qc) (j : nat) :
  clearCacheFrom i n c !! j
  = if decide (i ≤ j < n) then None else c !! j.
Proof.
  unfold clearCacheFrom.
  assert (∀ (l : list nat) (c : gmap nat Qc),
            foldl (λ c j, delete j c) c l !! j
            = if decide (j ∈ l) then None else c !! j) as Hloop.
  { clear. induction l as [|k l IH]; intros c; cbn [foldl].
    - case_decide; set_solver.
    - rewrite IH. destruct (decide (j = k)) as [->|Hne].
      + rewrite lookup_delete_eq.
        repeat case_decide; set_solver.
      + rewrite lookup_delete_ne by done.
        repeat case_decide; set_solver. }
  rewrite Hloop. destruct (decide (i ≤ j < n)) as [Hin|Hout].
  - rewrite decide_True; [done|apply elem_of_seq; lia].
  - rewrite decide_False; [done|rewrite elem_of_seq; lia].
Qed.

(** ** Stored heights stay positive

    With a positive nominal height every height the table holds is a
    positive number: the watcher fills the table with the nominal height,
    and a batch writes clamped measurements or their mean.  The rects of a
    batch carry indices of the table. *)

Lemma valid_rect_clamped (rect : Rect) (i : nat) (h : Qc) :
  valid_rect rect = Some (i, h) →
  dataset_index rect = Some i ∧ (1 ≤ h)%Qc ∧ (0 < h)%Qc.
Proof.
  unfold valid_rect. destruct (dataset_index rect) as [j|]; [|done].
  destruct (truthy (height rect)); [|done]. intros [= <- <-].
  assert (1 ≤ Qc_max 1 (height rect))%Qc by apply Qc_max_le_l.
  split; [done|]. split; [done|].
  eapply Qclt_le_trans; [|eassumption]. done.
Qed.

Lemma storeHeight_positive (i : nat) (h : Qc) st :
  (0 < h)%Qc → i < length (itemHeights st) →
  heights_positive (itemHeights st) →
  heights_positive (itemHeights (storeHeight i h st))
  ∧ length (itemHeights (storeHeight i h st)) = length (itemHeights st).
Proof.
  intros Hh Hi Hpos. cbn [storeHeight itemHeights set_positionCache
    set_virtualList set_itemHeights].
  unfold array_set. rewrite decide_True by done.
  split; [|apply length_insert].
  apply Forall_insert; [done|by exists h].
Qed.

Lemma measureItemHeights_loop_positive (rects : list Rect) :
  ∀ (b : Batch) st,
    rects_in_table rects (length (itemHeights st)) →
    heights_positive (itemHeights st) →
    let r := foldl measureItemHeights_rect (b, st) rects in
    heights_positive (itemHeights r.2)
    ∧ length (itemHeights r.2) = length (itemHeights st).
Proof.
  induction rects as [|rect rects IH]; intros b st Hin Hpos; [done|].
  apply Forall_cons in Hin as [Hrect Hin]. cbn [foldl].
  assert (heights_positive (itemHeights (measureItemHeights_rect (b, st) rect).2)
          ∧ length (itemHeights (measureItemHeights_rect (b, st) rect).2)
            = length (itemHeights st)) as [Hpos1 Hlen1].
  { unfold measureItemHeights_rect.
    destruct (valid_rect rect) as [[i h]|] eqn:Hvalid; [|done].
    apply valid_rect_clamped in Hvalid as (Hi & _ & Hh).
    cbn [fst snd]. destruct (heightDiffers _ i h); [|done].
    cbn [snd].
    apply (storeHeight_positive i h (set_measuredIndices _ st));
      [done|by apply Hrect|done]. }
  destruct (measureItemHeights_rect (b, st) rect) as [b1 st1].
  cbn [snd] in Hpos1, Hlen1.
  destruct (IH b1 st1) as [Hpos2 Hlen2]; [by rewrite Hlen1|done|].
  split; [done|]. by rewrite Hlen2.
Qed.

Lemma measureItemHeights_cb_positive p (rects : list Rect) st :
  rects_in_table rects (length (itemHeights st)) →
  heights_positive (itemHeights st) →
  heights_positive (itemHeights (measureItemHeights_cb p rects st)).
Proof.
  intros Hin Hpos. unfold measureItemHeights_cb.
  destruct rects as [|rect rects]; [done|].
  destruct (measureItemHeights_loop_positive (rect :: rects) batch0 st Hin Hpos)
    as [Hpos' _].
  match goal with
  | |- context [if ?c then _ else _] => destruct c; [|done]
  end.
  match goal with
  | |- context [updateItemPositions p ?s] =>
      destruct (updateItemPositions_frame p s) as (vl & c & ->)
  end.
  cbn [itemHeights set_positionCache set_virtualList
       updateAccumulatedHeights set_totalHeight set_accumulatedHeights].
  by destruct (decide _).
Qed.

Lemma num_positive (n : nat) : 0 < n → (0 < num (Z.of_nat n))%Qc.
Proof. intros Hn. unfold Qclt, Qlt, num, Qc_of_Z. simpl. lia. Qed.

Lemma arithmeticMean_positive (hs : list Qc) :
  hs ≠ [] → Forall (λ h, (0 < h)%Qc) hs → (0 < arithmeticMean hs)%Qc.
Proof.
  intros Hne Hpos. unfold arithmeticMean, Qcdiv.
  apply Qcmult_pos_pos.
  - destruct Hpos as [|h hs Hh Hpos]; [done|]. simpl.
    apply Qcplus_pos_nonneg; [done|]. clear Hne Hh.
    induction Hpos as [|h' hs' Hh' _ IH]; simpl; [done|].
    apply Qcplus_nonneg_nonneg; [by apply Qclt_le_weak|done].
  - apply Qcinv_pos, num_positive. destruct hs; simpl; [done|lia].
Qed.

Lemma batchHeights_positive (rects : list Rect) :
  Forall (λ h, (0 < h)%Qc) (batchHeights rects).
Proof.
  induction rects as [|rect rects IH]; [constructor|].
  rewrite batchHeights_cons.
  destruct (valid_rect rect) as [[i h]|] eqn:Hvalid; [|done].
  apply valid_rect_clamped in Hvalid as (_ & _ & Hh). by constructor.
Qed.

Lemma initialSample_loop_positive (rects : list Rect) :
  ∀ (b : Batch) st,
    rects_in_table rects (length (itemHeights st)) →
    heights_positive (itemHeights st) →
    let r := foldl initialSample_rect (b, st) rects in
    heights_positive (itemHeights r.2)
    ∧ length (itemHeights r.2) = length (itemHeights st).
Proof.
  induction rects as [|rect rects IH]; intros b st Hin Hpos; [done|].
  apply Forall_cons in Hin as [Hrect Hin]. cbn [foldl].
  assert (heights_positive (itemHeights (initialSample_rect (b, st) rect).2)
          ∧ length (itemHeights (initialSample_rect (b, st) rect).2)
            = length (itemHeights st)) as [Hpos1 Hlen1].
  { unfold initialSample_rect.
    destruct (valid_rect rect) as [[i h]|] eqn:Hvalid; [|done].
    apply valid_rect_clamped in Hvalid as (Hi & _ & Hh).
    cbn [fst snd].
    apply (storeHeight_positive i h (set_measuredIndices _ st));
      [done|by apply Hrect|done]. }
  destruct (initialSample_rect (b, st) rect) as [b1 st1].
  cbn [snd] in Hpos1, Hlen1.
  destruct (IH b1 st1) as [Hpos2 Hlen2]; [by rewrite Hlen1|done|].
  split; [done|]. by rewrite Hlen2.
Qed.

Lemma rewriteUnmeasured_loop_positive (avg : Qc) (l : list nat) : ∀ st,
  (0 < avg)%Qc →
  (∀ j, j ∈ l → j < length (itemHeights st)) →
  heights_positive (itemHeights st) →
  heights_positive (itemHeights (foldl (rewriteUnmeasured avg) st l)).
Proof.
  induction l as [|j l IH]; intros st Havg Hl Hpos; [done|]. cbn [foldl].
  assert (heights_positive (itemHeights (rewriteUnmeasured avg st j))
          ∧ length (itemHeights (rewriteUnmeasured avg st j))
            = length (itemHeights st)) as [Hpos1 Hlen1].
  { unfold rewriteUnmeasured. destruct (decide _); [done|].
    apply storeHeight_positive; [done|apply Hl; set_solver|done]. }
  apply IH; [done| |done].
  intros k Hk. rewrite Hlen1. apply Hl. set_solver.
Qed.

Lemma measureInitialSample_cb_positive p (rects : list Rect) st :
  rects_in_table rects (length (itemHeights st)) →
  heights_positive (itemHeights st) →
  heights_positive (itemHeights (measureInitialSample_cb p rects st)).
Proof.
  intros Hin Hpos.
  destruct (initialSample_loop_positive rects batch0 st Hin Hpos)
    as [Hpos' Hlen'].
  assert (heights_positive (itemHeights (initialSample_heights p rects st).2))
    as Hheights.
  { destruct (decide (batchHeights rects = [])) as [Hnil|Hne].
    - unfold initialSample_heights.
      destruct (initialSample_loop rects batch0 st) as (Hc & _).
      rewrite Hnil in Hc. simpl in Hc.
      destruct (decide _) as [Hgt|_]; [lia|done].
    - destruct (initialSample_heights_counted p rects st Hne) as [_ ->].
      cbn [snd]. destruct (sampleGate p _); [|done].
      apply rewriteUnmeasured_loop_positive; [| |done].
      + apply arithmeticMean_positive; [done|apply batchHeights_positive].
      + intros j Hj. apply elem_of_seq in Hj. lia. }
  unfold measureInitialSample_cb. destruct rects as [|rect rects]; [done|].
  destruct (decide _); [|done].
  match goal with
  | |- context [updateItemPositions p ?s] =>
      destruct (updateItemPositions_frame p s) as (vl & c & ->)
  end.
  done.
Qed.

Lemma updateElementHeight_cb_positive p (i : nat) (rects : list Rect) st :
  i < length (itemHeights st) →
  heights_positive (itemHeights st) →
  heights_positive (itemHeights (updateElementHeight_cb p i rects st)).
Proof.
  intros Hi Hpos. unfold updateElementHeight_cb.
  destruct (find _ rects) as [targetRect|]; [|done].
  destruct (truthy (height targetRect)); [|done].
  destruct (decide _); [done|].
  match goal with
  | |- context [updateItemPositions p ?s] =>
      destruct (updateItemPositions_frame p s) as (vl & c & ->)
  end.
  cbn [itemHeights set_positionCache set_virtualList set_copyList
       updateAccumulatedHeights set_totalHeight set_accumulatedHeights
       set_itemHeights].
  unfold array_set. rewrite decide_True by done.
  apply Forall_insert; [done|].
  exists (Qc_max 1 (height targetRect)). split; [done|].
  eapply Qclt_le_trans; [|apply Qc_max_le_l]. done.
Qed.

End Properties.

(** * The properties on concrete inputs *)

(** C3 on a concrete batch: the continuous batch records the new height
    150 of index 0 and rebuilds the cumulative index, but the offsets of
    the indices 1 and 2 that were cached from the old height 100 survive
    and are stamped on the window again; the targeted re-measurement of
    the same index, given the same rects, recomputes them. *)
Lemma measureItemHeights_keeps_stale_offsets :
  heightOf grown 0 = num 150
  ∧ accumulatedHeights grown = [num 150; num 250; num 350]
  ∧ positionCache (populated three 3) !! 1 = Some (num 100)
  ∧ positionCache grown !! 1 = Some (num 100)
  ∧ positionCache grown !! 2 = Some (num 200)
  ∧ translateY <$> virtualList grown = [num 0; num 100; num 200]
  ∧ positionCache grownTargeted !! 1 = Some (num 150)
  ∧ positionCache grownTargeted !! 2 = Some (num 250)
  ∧ translateY <$> virtualList grownTargeted = [num 0; num 150; num 250].
Proof. repeat split; apply (bool_decide_unpack _); by vm_compute. Qed.

(** The default component, populated with 1000 items: the initial window
    is [0, 30). *)
Lemma window_contiguous_bounded_witness :
  (0 ≤ virtualListLength defaults)%Z
  ∧ (0 ≤ preloadCount defaults)%Z
  ∧ vindex <$> virtualList (populated defaults 1000) = range 0 30
  ∧ length (virtualList (populated defaults 1000)) = 30.
Proof.
  assert (0 ≤ virtualListLength defaults)%Z as HV by by vm_compute.
  assert (0 ≤ preloadCount defaults)%Z as HP by by vm_compute.
  split; [exact HV|]. split; [exact HP|].
  destruct (window_contiguous_bounded (A:=unit) defaults HV HP) as [Hinit _].
  destruct (Hinit () (replicate 999 ()) (initialState defaults))
    as (Hw & Hlen & _).
  split; [exact Hw|exact Hlen].
Defined.

(** The two sides of the test of line 297 in [sampled64], as mantissa and
    exponent: [|70.4 - 64|] is [7205759403792800 * 2^-50], which prints as
    6.400000000000006, and [64 * 0.1] is [7205759403792794 * 2^-50], which
    prints as 6.4. *)
Lemma sampleGate_rounding :
  double_abs (double_sub (doubleMean roundedRects)
                (toDouble (itemHeight sixtyFour)))
  = SpecFloat.S754_finite false 7205759403792800 (-50)
  ∧ double_mul (toDouble (itemHeight sixtyFour)) (toDouble (1 / num 10))
    = SpecFloat.S754_finite false 7205759403792794 (-50).
Proof. split; by vm_compute. Qed.

(** Both outcomes of the test of line 297.  In [sampled64] the mean 70.4
    is 10% above the nominal 64 and no more, the machine's test succeeds
    all the same, and the unmeasured index 5 is rewritten to the mean; in
    [sampled105] the test fails and the unmeasured index 2 keeps 100. *)
Lemma measureInitialSample_batch_witness :
  (batchHeights roundedRects ≠ []
   ∧ sampleGate sixtyFour (doubleMean roundedRects) = true
   ∧ (Qc_abs (arithmeticMean (batchHeights roundedRects)
              - itemHeight sixtyFour)
      = itemHeight sixtyFour * (1 / num 10))%Qc
   ∧ averageHeight sampled64 = arithmeticMean (batchHeights roundedRects)
   ∧ array_get (itemHeights sampled64) 5
     = Some (arithmeticMean (batchHeights roundedRects)))
  ∧ (batchHeights [rect 0 105; rect 1 105] ≠ []
     ∧ sampleGate narrow (doubleMean [rect 0 105; rect 1 105]) = false
     ∧ array_get (itemHeights sampled105) 2
       = array_get (itemHeights (populated narrow 4)) 2).
Proof.
  assert (batchHeights roundedRects ≠ []) as Hne by by vm_compute.
  assert (sampleGate sixtyFour (doubleMean roundedRects) = true) as Hgate
    by by vm_compute.
  assert (batchHeights [rect 0 105; rect 1 105] ≠ []) as Hne' by by vm_compute.
  assert (sampleGate narrow (doubleMean [rect 0 105; rect 1 105]) = false)
    as Hgate' by by vm_compute.
  split.
  - destruct (measureInitialSample_batch sixtyFour roundedRects
                (populated sixtyFour 6) Hne) as (Havg & _ & _ & Hrw & _).
    split; [exact Hne|]. split; [exact Hgate|].
    split; [apply (bool_decide_unpack _); by vm_compute|].
    split; [exact Havg|].
    apply (Hrw Hgate 5).
    + unfold sampled64. vm_compute. lia.
    + apply (bool_decide_unpack _). by vm_compute.
  - destruct (measureInitialSample_batch narrow [rect 0 105; rect 1 105]
                (populated narrow 4) Hne') as (_ & _ & _ & _ & Hkeep).
    split; [exact Hne'|]. split; [exact Hgate'|].
    apply (Hkeep Hgate' 2).
    apply (bool_decide_unpack _). by vm_compute.
Defined.

(** Three items of height 100 and the offset 250: the index located is
    the first one whose cumulative height reaches 250. *)
Lemma getIndexByScrollTop_locates_witness :
  increasing (accumulatedHeights (populated three 3))
  ∧ ∃ r, getIndexByScrollTop (populated three 3) (num 250) = Int (Z.of_nat r)
         ∧ first_index_at_least (accumulatedHeights (populated three 3))
             (num 250) r.
Proof.
  assert (increasing (accumulatedHeights (populated three 3))) as Hinc.
  { unfold populated. cbn [replicate].
    destruct (watch_populated three () [(); ()] (initialState three))
      as (Hih & _ & Hacc & _).
    rewrite Hacc. apply rebuilt_increasing. rewrite Hih.
    apply heights_positive_replicate. by vm_compute. }
  split; [exact Hinc|].
  apply (getIndexByScrollTop_locates (populated three 3) (num 250) Hinc).
  by vm_compute.
Defined.

(** The rebuild of [late], whose table has two holes: entry 3 is the sum
    of the three stored heights and the average, 394, and the index does
    not decrease from entry 2 to entry 3. *)
Lemma updateAccumulatedHeights_prefix_sums_witness :
  stored_positive (itemHeights late)
  ∧ (0 ≤ averageHeight late)%Qc
  ∧ itemHeights (updateAccumulatedHeights late) = itemHeights late
  ∧ length (accumulatedHeights (updateAccumulatedHeights late)) = 6
  ∧ accumulatedHeights (updateAccumulatedHeights late) !! 3
    = Some (num 394)
  ∧ (∀ x y,
       accumulatedHeights (updateAccumulatedHeights late) !! 2 = Some x →
       accumulatedHeights (updateAccumulatedHeights late) !! 3 = Some y →
       (x ≤ y)%Qc).
Proof.
  assert (itemHeights late
          = [Some (num 100); Some (num 100); Some (num 100); None; None;
             Some (num 80)]) as Htable
    by (apply (bool_decide_unpack _); by vm_compute).
  assert (stored_positive (itemHeights late)) as Hstored.
  { rewrite Htable. repeat constructor; intros q [= <-]; by vm_compute. }
  assert (0 ≤ averageHeight late)%Qc as Havg by by vm_compute.
  destruct (updateAccumulatedHeights_prefix_sums late)
    as (Hih & _ & Hlen & Hlook & _ & Hmono & _).
  split; [exact Hstored|]. split; [exact Havg|]. split; [exact Hih|].
  split; [by rewrite Hlen, Htable|]. split.
  - rewrite Hlook by (rewrite Htable; cbn [length]; lia).
    apply (bool_decide_unpack _). by vm_compute.
  - intros x y. apply (Hmono Hstored Havg 2 3). lia.
Defined.

(** Two offsets in a populated list (search branch). *)
Lemma getIndexByScrollTop_monotone_witness :
  (num 100 < num 250)%Qc
  ∧ js_le (getIndexByScrollTop (populated three 3) (num 100))
      (getIndexByScrollTop (populated three 3) (num 250)).
Proof.
  assert (num 100 < num 250)%Qc as Hlt by by vm_compute.
  split; [exact Hlt|].
  apply (getIndexByScrollTop_monotone (populated three 3)); [|exact Hlt].
  intros Hempty. by vm_compute in Hempty.
Defined.

(** The scenario of the specification: 1000 items, [currentIndex = 0], and
    a scroll offset whose located index is 500 give the window
    [490, 530). *)
Lemma updateVisibleItems_hysteresis_witness :
  getIndexByScrollTop (populated defaults 1000) (num 50050) = Int 500
  ∧ currentIndex (populated defaults 1000) = 0%Z
  ∧ currentIndex jumped = 500%Z
  ∧ vindex <$> virtualList jumped = range 490 530.
Proof.
  assert (getIndexByScrollTop (populated defaults 1000) (num 50050) = Int 500)
    as Hloc by by vm_compute.
  split; [exact Hloc|]. split; [by vm_compute|].
  destruct (updateVisibleItems_hysteresis defaults (populated defaults 1000)
              (num 50050) 500) as (_ & _ & _ & Hfar).
  - by vm_compute.
  - by vm_compute.
  - by vm_compute.
  - by vm_compute.
  - exact Hloc.
  - destruct Hfar as [Hcur Hwin]; [by vm_compute|].
    unfold jumped. rewrite Hcur, Hwin. split; by vm_compute.
Defined.

(** The scenario of the specification: index 5 is not in the window
    [490, 530); index 1000 is outside the list. *)
Lemma updateElementHeight_rejects_witness :
  updateElementHeight 5 jumped = (jumped, Some (NotInVisibleArea 5))
  ∧ updateElementHeight 1000 jumped = (jumped, Some (IndexOutOfRange 1000)).
Proof.
  destruct (updateElementHeight_rejects 5 jumped) as (Hst & _ & Hwarn).
  destruct (updateElementHeight_rejects 1000 jumped) as (Hst' & Herr & _).
  split.
  - rewrite (surjective_pairing (updateElementHeight 5 jumped)), Hst, Hwarn;
      [done|split; by vm_compute|].
    apply (bool_decide_unpack _). by vm_compute.
  - rewrite (surjective_pairing (updateElementHeight 1000 jumped)), Hst', Herr;
      [done|]. right. by vm_compute.
Defined.

(** Three items of height 100 after [refreshHeight] has emptied the cache. *)
Lemma positioning_strategies_agree_witness :
  positionCache (refreshHeight (populated three 3)) = ∅
  ∧ translateY <$> virtualList
      (updateItemPositionsAbsolute (refreshHeight (populated three 3)))
    = translateY <$> virtualList
        (updateItemPositionsCumulative (refreshHeight (populated three 3))).
Proof.
  assert (positionCache (refreshHeight (populated three 3)) = ∅) as Hcache
    by by vm_compute.
  split; [exact Hcache|].
  apply (positioning_strategies_agree (refreshHeight (populated three 3))
           (refreshHeight (populated three 3)) Hcache).
  - replace (itemHeights (refreshHeight (populated three 3)))
      with [Some (num 100); Some (num 100); Some (num 100)]
      by by vm_compute.
    repeat (apply Forall_cons; split;
            [exists (num 100); split; [reflexivity|by vm_compute]|]).
    constructor.
  - reflexivity.
  - by vm_compute.
  - apply (bool_decide_unpack _). by vm_compute.
Defined.

(** * Further properties of the code *)

(** ** Throttling *)

(** X1.  The calls a throttled function lets through are calls of the
    sequence, in order; the first is at least [delay] after the initial
    [lastCall], and any two consecutive ones are at least [delay] apart. *)
Theorem throttled_spacing (delay : Z) (calls : list Z) : ∀ lastCall : Z,
  throttled delay lastCall calls `sublist_of` calls
  ∧ (∀ now, head (throttled delay lastCall calls) = Some now →
       (delay ≤ now - lastCall)%Z)
  ∧ (∀ i a b,
       throttled delay lastCall calls !! i = Some a →
       throttled delay lastCall calls !! S i = Some b →
       (delay ≤ b - a)%Z).
Proof.
  induction calls as [|now rest IH]; intros lastCall.
  { split; [constructor|]. split; intros; simplify_eq/=. }
  cbn [throttled]. unfold throttle.
  destruct (decide (now - lastCall < delay)%Z) as [Hdrop|Hrun]; cbn [fst snd].
  - destruct (IH lastCall) as (Hsub & Hhead & Hgap).
    split; [by constructor|]. by split.
  - destruct (IH now) as (Hsub & Hhead & Hgap).
    split; [by constructor|]. split.
    + intros ? [= <-]. lia.
    + intros [|i] a b Ha Hb; simplify_eq/=.
      * apply Hhead. by destruct (throttled delay a rest).
      * by eapply Hgap.
Qed.

Section Extras.

Context {A : Type}.
Implicit Types (st : State A) (p : Props).
Implicit Types (vl items : list (VirtualItem A)) (item : VirtualItem A).

(** ** Locating an index: the result stays inside the index *)

(** X2.  With a non-empty cumulative index, [getIndexByScrollTop] returns
    an integer between 0 and the length of the index, whatever the index
    holds and whatever the offset is. *)
Theorem getIndexByScrollTop_in_range st (s : Qc) :
  accumulatedHeights st ≠ [] →
  ∃ r, getIndexByScrollTop st s = Int r
       ∧ (0 ≤ r ≤ Z.of_nat (length (accumulatedHeights st)))%Z.
Proof.
  intros Hne. unfold getIndexByScrollTop.
  destruct (accumulatedHeights st) as [|x a] eqn:Hacc; [done|].
  eexists. split; [done|].
  pose proof (bsearch_bounds (x :: a) s 0
                (Z.of_nat (length (x :: a)) - 1)) as Hb.
  lia.
Qed.

(** ** Scroll-driven updates are idempotent *)

Lemma getIndexByScrollTop_window p (anchor ci : Z) st (s : Qc) :
  getIndexByScrollTop (windowAt p anchor (set_currentIndex ci st)) s
  = getIndexByScrollTop st s
  ∧ copyList (windowAt p anchor (set_currentIndex ci st)) = copyList st
  ∧ currentIndex (windowAt p anchor (set_currentIndex ci st)) = ci.
Proof.
  destruct (windowAt_frame p anchor (set_currentIndex ci st))
    as (vl & c & t & ->). done.
Qed.

(** X3.  For a non-negative [preloadCount], running [updateVisibleItems]
    again with the same scroll offset changes nothing: the first run
    leaves [currentIndex] at the estimate, inside the hysteresis band. *)
Theorem updateVisibleItems_idempotent p (scrollTop : Qc) st :
  (0 ≤ preloadCount p)%Z →
  updateVisibleItems p scrollTop (updateVisibleItems p scrollTop st)
  = updateVisibleItems p scrollTop st.
Proof.
  intros HP.
  destruct (decide (copyList st = [])) as [Hnil|Hne].
  { assert (updateVisibleItems p scrollTop st = st) as Hst
      by (unfold updateVisibleItems; by rewrite Hnil).
    by rewrite !Hst. }
  rewrite (updateVisibleItems_nonempty p scrollTop st Hne).
  destruct (clampEstimate p st (getIndexByScrollTop st scrollTop))
    as [e| | |] eqn:Hclamp;
    try (rewrite updateVisibleItems_nonempty, Hclamp by done; done).
  destruct (decide (Z.abs (e - currentIndex st) > preloadCount p `div` 3)%Z)
    as [Hfar|Hnear].
  2:{ rewrite updateVisibleItems_nonempty, Hclamp by done.
      by rewrite decide_False. }
  destruct (getIndexByScrollTop_window p e e st scrollTop)
    as (Hloc & Hcl & Hci).
  rewrite updateVisibleItems_nonempty by by rewrite Hcl.
  unfold clampEstimate in *. rewrite Hloc, Hcl, Hclamp, Hci.
  rewrite decide_False; [done|].
  assert (0 ≤ preloadCount p `div` 3)%Z by (apply Z.div_pos; lia). lia.
Qed.

(** ** The contract of a positioning pass *)

Lemma cache_extends_refl vl (c : gmap nat Qc) : cache_extends vl c c.
Proof. split; [done|]. intros j Hj. by left. Qed.

Lemma absolute_loop_contract (acc : list Qc) items : ∀ (c : gmap nat Qc),
  cache_extends items c (absolute_loop acc c items).2
  ∧ ∀ k, stamped items (absolute_loop acc c items).1
           (absolute_loop acc c items).2 k.
Proof.
  induction items as [|item rest IH]; intros c; cbn [absolute_loop fst snd].
  { split; [apply cache_extends_refl|]. intros k v Hv. done. }
  set (r := absolute_position acc c item).
  assert ((∀ j y, c !! j = Some y → r.2 !! j = Some y)
          ∧ (∀ j, is_Some (r.2 !! j) →
               is_Some (c !! j) ∨ (j ≠ 0 ∧ j = vindex item))
          ∧ (vindex item = 0 → r.1 = 0%Qc)
          ∧ (vindex item ≠ 0 → r.2 !! vindex item = Some r.1))
    as (Hmono & Hkeys & Hzero & Hcached).
  { subst r. unfold absolute_position.
    destruct (decide (vindex item = 0)) as [Hj|Hj]; cbn [fst snd].
    { split; [done|]. split; [by left|]. by split. }
    destruct (c !! vindex item) as [y|] eqn:Hy; cbn [fst snd].
    { split; [done|]. split; [by left|]. by split. }
    split; [|split; [|split]].
    - intros j y Hjy. rewrite lookup_insert_ne; [done|congruence].
    - intros j. rewrite lookup_insert. case_decide as Hjj; [|by left].
      intros _. right. by subst j.
    - done.
    - intros _. by rewrite lookup_insert_eq. }
  destruct (IH r.2) as ([Hmono' Hkeys'] & Hstamped).
  split; [split|].
  - intros j y Hjy. by apply Hmono', Hmono.
  - intros j Hj. destruct (Hkeys' j Hj) as [Hc|[Hj0 Hin]].
    + destruct (Hkeys j Hc) as [?|[? ->]]; [by left|].
      right. split; [done|]. rewrite fmap_cons. left.
    + right. split; [done|]. rewrite fmap_cons. by right.
  - intros [|k] v Hv; simplify_eq/=.
    + exists r.1. split; [done|]. split; [done|].
      intros Hj. by apply Hmono', Hcached.
    + by apply Hstamped.
Qed.

Section CumulativeContract.

Variables (hs : list (option Qc)) (avg : Qc) (acc : list Qc).
Variables (vl0 : list (VirtualItem A)) (c0 : gmap nat Qc).

Lemma cumulative_step_contract (done todo : list nat) (k : nat) vl
    (c : gmap nat Qc) :
  sortedList vl0 = done ++ k :: todo →
  (∀ k', k' ∉ done → vl !! k' = vl0 !! k') →
  (∀ k', k' ∈ done → stamped vl0 vl c k') →
  cache_extends vl0 c0 c →
  let r' := cumulative_step hs avg acc (sortedList vl0) (vl, c) k in
  (∀ k', k' ∉ done ++ [k] → r'.1 !! k' = vl0 !! k')
  ∧ (∀ k', k' ∈ done ++ [k] → stamped vl0 r'.1 r'.2 k')
  ∧ cache_extends vl0 c0 r'.2.
Proof.
  intros Hord Hrest Hdone [Hmono Hkeys].
  pose proof (sortedList_perm vl0) as Hperm.
  assert (NoDup (done ++ k :: todo)) as Hnd
    by (rewrite <- Hord, Hperm; apply NoDup_seq).
  apply NoDup_app in Hnd as (_ & Hdisj & _).
  assert (k ∉ done) as Hk_done by (intros ?; eapply Hdisj; [done|left]).
  assert (k < length vl0) as Hk_len.
  { assert (k ∈ seq 0 (length vl0)) as Hin
      by (rewrite <- Hperm, Hord; set_solver).
    apply elem_of_seq in Hin. lia. }
  destruct (lookup_lt_is_Some_2 vl0 k Hk_len) as [item Hitem].
  assert (vl !! k = Some item) as Hvk by by rewrite Hrest.
  assert (k < length vl) as Hk_len' by by eapply lookup_lt_Some.
  assert (vindex item ∈ vindex <$> vl0) as Hwin
    by (apply list_elem_of_fmap; exists item; split; [done|];
        by eapply list_elem_of_lookup_2).
  (* what the step computes *)
  assert (∃ y c',
    cumulative_step hs avg acc (sortedList vl0) (vl, c) k
    = (<[k := set_translateY y item]> vl, c')
    ∧ (vindex item = 0 → y = 0%Qc)
    ∧ (vindex item ≠ 0 → c' !! vindex item = Some y)
    ∧ (∀ j z, c !! j = Some z → c' !! j = Some z)
    ∧ (∀ j, is_Some (c' !! j) →
         is_Some (c !! j) ∨ (j ≠ 0 ∧ j = vindex item)))
    as (y & c' & -> & Hzero & Hcached & Hmono' & Hkeys').
  { unfold cumulative_step. cbn [fst snd]. rewrite Hvk.
    destruct (decide (vindex item = 0)) as [Hj|Hj].
    { eexists _, _. split; [done|]. split; [done|]. split; [done|].
      split; [done|]. by left. }
    destruct (c !! vindex item) as [z|] eqn:Hz.
    { eexists _, _. split; [done|]. split; [done|]. split; [done|].
      split; [done|]. by left. }
    eexists _, _. split; [done|]. split; [done|]. split; [|split].
    - intros _. by rewrite lookup_insert_eq.
    - intros j z Hjz. rewrite lookup_insert_ne; [done|congruence].
    - intros j. rewrite lookup_insert. case_decide as Hjj; [|by left].
      intros _. right. by subst j. }
  cbn [fst snd]. split; [|split; [|split]].
  - intros k' Hk'. rewrite list_lookup_insert_ne by set_solver.
    apply Hrest. set_solver.
  - intros k' Hk' v Hv. destruct (decide (k' = k)) as [->|Hne].
    + assert (v = item) as -> by congruence.
      exists y. by rewrite list_lookup_insert_eq.
    + assert (k' ∈ done) as Hin by set_solver.
      destruct (Hdone k' Hin v Hv) as (y' & Hy' & Hz' & Hc').
      exists y'. rewrite list_lookup_insert_ne by done.
      split; [done|]. split; [done|]. intros Hj. by apply Hmono', Hc'.
  - intros j z Hjz. by apply Hmono', Hmono.
  - intros j Hj. destruct (Hkeys' j Hj) as [Hc|[Hj0 ->]].
    + by apply Hkeys.
    + by right.
Qed.

Lemma cumulative_loop_contract (todo : list nat) : ∀ (done : list nat) vl
    (c : gmap nat Qc),
  sortedList vl0 = done ++ todo →
  (∀ k', k' ∉ done → vl !! k' = vl0 !! k') →
  (∀ k', k' ∈ done → stamped vl0 vl c k') →
  cache_extends vl0 c0 c →
  let r' := foldl (cumulative_step hs avg acc (sortedList vl0)) (vl, c) todo in
  (∀ k', stamped vl0 r'.1 r'.2 k') ∧ cache_extends vl0 c0 r'.2.
Proof.
  induction todo as [|k todo IH]; intros done vl c Hord Hrest Hdone Hext.
  { rewrite app_nil_r in Hord. cbn [foldl fst snd]. split; [|done].
    intros k. destruct (decide (k ∈ done)) as [Hin|Hout]; [by apply Hdone|].
    intros v Hv. exfalso. apply Hout. rewrite <- Hord, sortedList_perm.
    apply elem_of_seq. apply lookup_lt_Some in Hv. lia. }
  cbn [foldl].
  destruct (cumulative_step_contract done todo k vl c Hord Hrest Hdone Hext)
    as (Hrest' & Hdone' & Hext').
  destruct (cumulative_step _ _ _ _ (vl, c) k) as [vl' c'].
  apply (IH (done ++ [k])); [by rewrite <- app_assoc|done..].
Qed.

End CumulativeContract.

(** X4.  The contract of [updateItemPositions], for both strategies and
    any cache.  Every element of the window keeps everything but
    [translateY]; an element with index 0 is placed at 0; an element with
    another index is placed at the offset the cache holds for its index
    when the pass ends.  The pass never changes or removes a cache entry
    (so an entry that is there before the pass is the offset its index
    gets), and it adds entries only for non-zero indices of the window. *)
Theorem updateItemPositions_contract p st :
  cache_extends (virtualList st) (positionCache st)
    (positionCache (updateItemPositions p st))
  ∧ ∀ k, stamped (virtualList st) (virtualList (updateItemPositions p st))
           (positionCache (updateItemPositions p st)) k.
Proof.
  unfold updateItemPositions. destruct (positionMode p).
  - apply absolute_loop_contract.
  - unfold updateItemPositionsCumulative.
    cbn [virtualList positionCache set_positionCache set_virtualList].
    destruct (cumulative_loop_contract (itemHeights st) (averageHeight st)
                (accumulatedHeights st) (virtualList st) (positionCache st)
                (sortedList (virtualList st)) [] (virtualList st)
                (positionCache st)) as [Hst Hext];
      [done|done|set_solver|apply cache_extends_refl|].
    by split.
Qed.

(** ** Writes of heights *)

Lemma writes_heights_refl st : writes_heights st st.
Proof. by repeat split. Qed.

Lemma writes_heights_trans st1 st2 st3 :
  writes_heights st1 st2 → writes_heights st2 st3 → writes_heights st1 st3.
Proof.
  intros (H1 & H2 & H3 & H4 & H5 & H6 & H7 & H8)
         (K1 & K2 & K3 & K4 & K5 & K6 & K7 & K8).
  unfold writes_heights.
  rewrite K1, K2, K3, K4, K5, K6. repeat split; auto.
Qed.

Lemma update_first_sources (P : VirtualItem A → bool)
    (f : VirtualItem A → VirtualItem A) vl :
  (∀ v, source (f v) = source v) →
  source <$> update_first P f vl = source <$> vl.
Proof.
  intros Hf. induction vl as [|v vl IH]; [done|]. cbn [update_first].
  destruct (P v); rewrite !fmap_cons; [by rewrite Hf|by rewrite IH].
Qed.

Lemma array_set_stored_positive (a : list (option Qc)) (i : nat) (h : Qc) :
  (0 < h)%Qc → stored_positive a → stored_positive (array_set a i h).
Proof.
  intros Hh Ha. unfold array_set, stored_positive in *.
  destruct (decide (i < length a)).
  - apply Forall_insert; [done|]. by intros q [= <-].
  - apply Forall_app. split; [done|]. apply Forall_app. split.
    + by apply Forall_replicate.
    + constructor; [|constructor]. by intros q [= <-].
Qed.

Lemma array_set_is_Some (a : list (option Qc)) (i j : nat) (h : Qc) :
  is_Some (array_get a j) → is_Some (array_get (array_set a i h) j).
Proof.
  intros Hj. destruct (decide (i = j)) as [->|Hne].
  - by rewrite array_get_set_eq.
  - by rewrite array_get_set_ne.
Qed.

Lemma storeHeight_writes (i : nat) (h : Qc) st :
  (0 < h)%Qc → writes_heights st (storeHeight i h st).
Proof.
  intros Hh. unfold writes_heights, storeHeight.
  cbn [copyList currentIndex virtualList accumulatedHeights totalHeight
       averageHeight itemHeights set_positionCache set_virtualList
       set_itemHeights].
  split; [done|]. split; [done|]. split; [by apply update_first_sources|].
  do 3 (split; [done|]). split.
  - by apply array_set_stored_positive.
  - intros j. apply array_set_is_Some.
Qed.

Lemma set_measuredIndices_writes (m : gset nat) st :
  writes_heights st (set_measuredIndices m st).
Proof. by repeat split. Qed.

Lemma initialSample_loop_writes (rects : list Rect) : ∀ (b : Batch) st,
  writes_heights st (foldl initialSample_rect (b, st) rects).2.
Proof.
  induction rects as [|rect rects IH]; intros b st;
    [apply writes_heights_refl|].
  cbn [foldl].
  assert (writes_heights st (initialSample_rect (b, st) rect).2) as Hstep.
  { unfold initialSample_rect.
    destruct (valid_rect rect) as [[i h]|] eqn:Hvalid;
      [|apply writes_heights_refl].
    apply valid_rect_clamped in Hvalid as (_ & _ & Hh). cbn [fst snd].
    eapply writes_heights_trans; [apply set_measuredIndices_writes|].
    by apply storeHeight_writes. }
  destruct (initialSample_rect (b, st) rect) as [b1 st1].
  eapply writes_heights_trans; [exact Hstep|apply IH].
Qed.

Lemma measureItemHeights_loop_writes (rects : list Rect) : ∀ (b : Batch) st,
  writes_heights st (foldl measureItemHeights_rect (b, st) rects).2.
Proof.
  induction rects as [|rect rects IH]; intros b st;
    [apply writes_heights_refl|].
  cbn [foldl].
  assert (writes_heights st (measureItemHeights_rect (b, st) rect).2)
    as Hstep.
  { unfold measureItemHeights_rect.
    destruct (valid_rect rect) as [[i h]|] eqn:Hvalid;
      [|apply writes_heights_refl].
    apply valid_rect_clamped in Hvalid as (_ & _ & Hh). cbn [fst snd].
    destruct (heightDiffers _ i h); cbn [snd].
    - eapply writes_heights_trans; [apply set_measuredIndices_writes|].
      by apply storeHeight_writes.
    - apply set_measuredIndices_writes. }
  destruct (measureItemHeights_rect (b, st) rect) as [b1 st1].
  eapply writes_heights_trans; [exact Hstep|apply IH].
Qed.

Lemma rewriteUnmeasured_loop_writes (avg : Qc) (l : list nat) : ∀ st,
  (0 < avg)%Qc → writes_heights st (foldl (rewriteUnmeasured avg) st l).
Proof.
  induction l as [|j l IH]; intros st Havg; [apply writes_heights_refl|].
  cbn [foldl].
  eapply writes_heights_trans; [|by apply IH].
  unfold rewriteUnmeasured. destruct (decide _);
    [apply writes_heights_refl|by apply storeHeight_writes].
Qed.

(** ** The pieces of the invariant *)

Lemma rebuilt_fresh p st :
  fresh (updateItemPositions p (updateAccumulatedHeights st)).
Proof.
  destruct (updateItemPositions_frame p (updateAccumulatedHeights st))
    as (vl & c & ->).
  destruct (updateAccumulatedHeights_running st) as [Hacc Htot].
  right. by split.
Qed.

Lemma js_slice_contiguous (l : list (SourceItem A)) (x y : Z) :
  indexed l →
  ∃ a k, index <$> js_slice l x y = seq a k ∧ a + k ≤ length l.
Proof.
  intros Hl. unfold js_slice.
  set (s := Z.to_nat (slice_bound (Z.of_nat (length l)) x)).
  set (n := Z.to_nat (_ - _)).
  assert (s ≤ length l) as Hs.
  { subst s. unfold slice_bound. destruct (decide (x < 0)%Z); lia. }
  exists s, (n `min` (length l - s)).
  rewrite fmap_take, fmap_drop, Hl, drop_seq, take_seq.
  split; [done|lia].
Qed.

Lemma contiguous_sources st st' :
  indexed (copyList st) →
  length (copyList st') = length (copyList st) →
  (∃ x y, source <$> virtualList st' = js_slice (copyList st) x y) →
  contiguous st'.
Proof.
  intros Hl Hlen (x & y & Hsrc).
  destruct (js_slice_contiguous (copyList st) x y Hl) as (a & k & Hseq & Hle).
  exists a, k. split; [|lia].
  change (vindex <$> ?vl) with ((index ∘ source) <$> vl).
  by rewrite list_fmap_compose, Hsrc.
Qed.

Lemma contiguous_writes st st' :
  source <$> virtualList st' = source <$> virtualList st →
  length (copyList st') = length (copyList st) →
  contiguous st → contiguous st'.
Proof.
  intros Hsrc Hlen (a & k & Hseq & Hle). exists a, k. split; [|lia].
  change (vindex <$> ?vl) with ((index ∘ source) <$> vl) in *.
  by rewrite list_fmap_compose, Hsrc, <- list_fmap_compose.
Qed.

Lemma window_move_well_formed p (anchor : Z) st :
  (0 ≤ anchor)%Z → well_formed st →
  well_formed (windowAt p anchor (set_currentIndex anchor st)).
Proof.
  intros Hanchor (Hcur & Hidx & Hwin & Hfresh & Hcov).
  unfold windowAt.
  match goal with
  | |- context [calculateVirtualList p ?a ?b ?s] =>
      pose proof (calculateVirtualList_sources p a b s) as Hsrc;
      destruct (calculateVirtualList_frame p a b s) as (vl & c & t & Heq)
  end.
  rewrite Heq in Hsrc |- *. cbn -[js_slice] in Hsrc.
  split; [done|]. split; [done|]. split; [|by split].
  eapply (contiguous_sources st); [done|done|]. eauto.
Qed.

Lemma clampEstimate_nonneg p st (x : jsnum) (e : Z) :
  clampEstimate p st x = Int e → (0 ≤ e)%Z.
Proof.
  unfold clampEstimate. destruct x; intros; simplify_eq/=; lia.
Qed.

Lemma updateVisibleItems_well_formed p (scrollTop : Qc) st :
  well_formed st → well_formed (updateVisibleItems p scrollTop st).
Proof.
  intros Hwf. unfold updateVisibleItems.
  destruct (copyList st); [done|].
  destruct (clampEstimate p st _) as [e| | |] eqn:Hclamp; try done.
  destruct (decide _); [|done].
  apply window_move_well_formed; [|done].
  by eapply clampEstimate_nonneg.
Qed.

Lemma handleScrollToLower_well_formed p st :
  well_formed st → well_formed (handleScrollToLower p st).
Proof.
  intros Hwf. unfold handleScrollToLower.
  destruct (decide _) as [Hgt|]; [|done].
  apply window_move_well_formed; [|done].
  destruct Hwf as (Hcur & _). lia.
Qed.

Lemma handleScrollToUpper_well_formed p st :
  well_formed st → well_formed (handleScrollToUpper p st).
Proof.
  intros Hwf. unfold handleScrollToUpper.
  destruct (decide _) as [Hlt|]; [|done].
  apply window_move_well_formed; [lia|done].
Qed.

Lemma scheduleHeightMeasurement_well_formed (b : bool) st :
  well_formed st → well_formed (scheduleHeightMeasurement b st).
Proof.
  destruct (scheduleHeightMeasurement_frame b st) as (t & ->). done.
Qed.

Lemma watch_well_formed p (newVal : list A) st :
  well_formed st → well_formed (watch p newVal st).
Proof.
  intros (Hcur & Hidx & Hwin & Hfresh & Hcov).
  destruct newVal as [|x l].
  { cbn. split; [done|]. split; [done|]. split; [by exists 0, 0|].
    split; [by left|]. intros i Hi. cbn in Hi. lia. }
  unfold watch.
  match goal with
  | |- context [scheduleHeightMeasurement true ?s] =>
      destruct (scheduleHeightMeasurement_frame true s) as (t & ->)
  end.
  match goal with
  | |- context [calculateVirtualList p ?a ?b ?s] =>
      pose proof (calculateVirtualList_sources p a b s) as Hsrc;
      destruct (calculateVirtualList_frame p a b s) as (vl & c & t' & Heq)
  end.
  rewrite Heq in Hsrc |- *. clear Heq.
  cbn -[imap running replicate effective_sum js_slice] in Hsrc |- *.
  assert (indexed (imap (λ i (a : A), {| payload := a; index := i;
                                         measuredHeight := None |}) (x :: l)))
    as Hidx' by by apply imap_indexed.
  split; [done|]. split; [done|]. split; [|split].
  - match type of Hsrc with
    | _ = js_slice ?cl ?a ?b =>
        destruct (js_slice_contiguous cl a b Hidx') as (a' & k & Hseq & Hle)
    end.
    exists a', k.
    cbn [virtualList copyList set_heightUpdateTimeout set_positionCache
         set_virtualList].
    split.
    + change (vindex <$> ?v) with ((index ∘ source) <$> v).
      by rewrite list_fmap_compose, Hsrc.
    + by cbn -[imap].
  - right. cbn -[imap running replicate effective_sum].
    rewrite foldl_accumulate. cbn -[imap running replicate effective_sum].
    split; [done|ring].
  - intros i Hi. cbn -[imap replicate] in Hi |- *.
    unfold array_get. rewrite lookup_replicate_2 by done. by eexists.
Qed.

(** ** A continuous batch without a height that differs *)

Lemma set_measuredIndices_id st :
  set_measuredIndices (measuredIndices st) st = st.
Proof. by destruct st. Qed.

Lemma measuredOf_cons (rect : Rect) (rects : list Rect) :
  measuredOf (rect :: rects)
  = match valid_rect rect with
    | Some (i, _) => {[ i ]} ∪ measuredOf rects
    | None => measuredOf rects
    end.
Proof. unfold measuredOf. csimpl. by destruct (valid_rect rect) as [[]|]. Qed.

Lemma heightsChanged_sticky (rects : list Rect) : ∀ (b : Batch) st,
  heightsChanged b = true →
  heightsChanged (foldl measureItemHeights_rect (b, st) rects).1 = true.
Proof.
  induction rects as [|rect rects IH]; intros b st Hb; [done|]. cbn [foldl].
  destruct (measureItemHeights_rect (b, st) rect) as [b1 st1] eqn:Hstep.
  apply IH. unfold measureItemHeights_rect in Hstep.
  destruct (valid_rect rect) as [[i h]|]; [|by simplify_eq].
  cbn [fst snd] in Hstep.
  destruct (heightDiffers _ i h); simplify_eq; cbn; by rewrite Hb.
Qed.

(** When the batch ends with [heightsChanged] false, it has only added to
    the measured set. *)
Lemma measureItemHeights_loop_unchanged (rects : list Rect) :
  ∀ (b : Batch) st,
    heightsChanged (foldl measureItemHeights_rect (b, st) rects).1 = false →
    (foldl measureItemHeights_rect (b, st) rects).2
    = set_measuredIndices (measuredOf rects ∪ measuredIndices st) st.
Proof.
  induction rects as [|rect rects IH]; intros b st Hfinal.
  { cbn [foldl snd]. unfold measuredOf. cbn.
    rewrite (left_id_L ∅ (∪)). by rewrite set_measuredIndices_id. }
  cbn [foldl] in Hfinal |- *. rewrite measuredOf_cons.
  unfold measureItemHeights_rect in Hfinal |- * at 2.
  destruct (valid_rect rect) as [[i h]|]; [|by apply IH].
  cbn [fst snd] in Hfinal |- *.
  change (heightDiffers (set_measuredIndices _ st) i h)
    with (heightDiffers st i h) in Hfinal |- *.
  destruct (heightDiffers st i h).
  { rewrite heightsChanged_sticky in Hfinal; [done|].
    cbn. apply orb_true_r. }
  rewrite IH by done. cbn [measuredIndices set_measuredIndices].
  unfold set_measuredIndices. cbn. f_equal. set_solver.
Qed.

Lemma measureItemHeights_loop_flag (rects : list Rect) : ∀ (b : Batch) st,
  (∀ rect i h, rect ∈ rects → valid_rect rect = Some (i, h) →
               heightDiffers st i h = false) →
  heightsChanged (foldl measureItemHeights_rect (b, st) rects).1
  = heightsChanged b.
Proof.
  induction rects as [|rect rects IH]; intros b st Hsame; [done|].
  cbn [foldl]. unfold measureItemHeights_rect at 2.
  destruct (valid_rect rect) as [[i h]|] eqn:Hvalid.
  2:{ apply IH. intros r i h Hr. apply Hsame. by right. }
  cbn [fst snd].
  change (heightDiffers (set_measuredIndices _ st) i h)
    with (heightDiffers st i h).
  rewrite (Hsame rect i h) by (done || left).
  rewrite IH.
  - cbn. by rewrite orb_false_r.
  - intros r i' h' Hr. apply (Hsame r i' h'). by right.
Qed.

(** X5.  A continuous batch in which no measured height differs from the
    stored one by more than 1 only adds the measured indices to the
    measured set: heights, average, cumulative index, cache and window are
    as before. *)
Theorem measureItemHeights_cb_suppresses_jitter p (rects : list Rect) st :
  (∀ rect i h, rect ∈ rects → valid_rect rect = Some (i, h) →
               heightDiffers st i h = false) →
  measureItemHeights_cb p rects st
  = set_measuredIndices (measuredOf rects ∪ measuredIndices st) st.
Proof.
  intros Hsame. unfold measureItemHeights_cb.
  destruct rects as [|rect rects].
  { unfold measuredOf. cbn. rewrite (left_id_L ∅ (∪)).
    by rewrite set_measuredIndices_id. }
  pose proof (measureItemHeights_loop_flag (rect :: rects) batch0 st Hsame)
    as Hflag.
  cbn [heightsChanged batch0] in Hflag. rewrite Hflag. cbn [andb].
  by apply measureItemHeights_loop_unchanged.
Qed.

(** ** The callbacks keep the invariant *)

Lemma rebuild_well_formed p st st1 :
  well_formed st →
  index <$> copyList st1 = index <$> copyList st →
  currentIndex st1 = currentIndex st →
  source <$> virtualList st1 = source <$> virtualList st →
  (∀ i, is_Some (array_get (itemHeights st) i) →
        is_Some (array_get (itemHeights st1) i)) →
  well_formed (updateItemPositions p (updateAccumulatedHeights st1)).
Proof.
  intros (Hcur & Hidx & Hwin & Hfresh & Hcov) Hcl Hci Hsrc Hsome.
  assert (length (copyList st1) = length (copyList st)) as Hlen
    by (rewrite <- (length_fmap index), Hcl; apply length_fmap).
  pose proof (rebuilt_fresh p st1) as Hfresh'.
  pose proof (updateItemPositions_sources p (updateAccumulatedHeights st1))
    as Hsrc'.
  destruct (updateItemPositions_frame p (updateAccumulatedHeights st1))
    as (vl & c & Heq).
  rewrite Heq in Hfresh', Hsrc' |- *. cbn in Hsrc'.
  split; [by rewrite <- Hci in Hcur|]. split; [|split; [|split]].
  - unfold indexed in *. cbn. by rewrite Hcl, Hlen.
  - apply (contiguous_writes st); [|done|done]. cbn. by rewrite Hsrc'.
  - done.
  - intros i Hi. cbn in Hi |- *. apply Hsome, Hcov. lia.
Qed.

Lemma writes_heights_well_formed st st' :
  writes_heights st st' →
  itemHeights st' = itemHeights st →
  well_formed st → well_formed st'.
Proof.
  intros (Hcl & Hci & Hsrc & Hacc & Htot & Havg & _ & Hsome) Hih
         (Hcur & Hidx & Hwin & Hfresh & Hcov).
  split; [by rewrite Hci|]. split; [by rewrite Hcl|]. split; [|split].
  - apply (contiguous_writes st); [done|by rewrite Hcl|done].
  - unfold fresh. by rewrite Hacc, Htot, Havg, Hih.
  - intros i Hi. rewrite Hcl in Hi. by apply Hsome, Hcov.
Qed.

Lemma initialSample_loop_none (rects : list Rect) : ∀ (b : Batch) st,
  batchHeights rects = [] →
  foldl initialSample_rect (b, st) rects = (b, st).
Proof.
  induction rects as [|rect rects IH]; intros b st Hnil; [done|].
  rewrite batchHeights_cons in Hnil. cbn [foldl].
  unfold initialSample_rect at 2.
  destruct (valid_rect rect) as [[i h]|]; [done|]. by apply IH.
Qed.

(** The state of an initial-sample batch before the index is rebuilt:
    heights are written, and with a valid measurement the average is the
    positive mean of the batch. *)
Lemma initialSample_heights_writes p (rects : list Rect) st :
  let st1 := (initialSample_heights p rects st).2 in
  copyList st1 = copyList st
  ∧ currentIndex st1 = currentIndex st
  ∧ source <$> virtualList st1 = source <$> virtualList st
  ∧ (stored_positive (itemHeights st) → stored_positive (itemHeights st1))
  ∧ (∀ i, is_Some (array_get (itemHeights st) i) →
          is_Some (array_get (itemHeights st1) i))
  ∧ (batchHeights rects ≠ [] → (0 < averageHeight st1)%Qc)
  ∧ (batchHeights rects = [] →
     initialSample_heights p rects st = (batch0, st)).
Proof.
  intros st1. subst st1.
  destruct (decide (batchHeights rects = [])) as [Hnil|Hne].
  { assert (initialSample_heights p rects st = (batch0, st)) as Heq.
    { unfold initialSample_heights.
      rewrite initialSample_loop_none by done. cbn.
      by destruct (decide (0 < 0)) as [?|_]; [lia|]. }
    rewrite Heq. cbn. by repeat split. }
  destruct (initialSample_heights_counted p rects st Hne) as [_ ->].
  cbn [snd].
  pose proof (initialSample_loop_writes rects batch0 st)
    as (H1 & H2 & H3 & _ & _ & _ & H7 & H8).
  set (r := foldl initialSample_rect (batch0, st) rects) in *.
  set (mean := arithmeticMean (batchHeights rects)).
  assert (0 < mean)%Qc as Hmean
    by (apply arithmeticMean_positive; [done|apply batchHeights_positive]).
  destruct (sampleGate p _).
  - pose proof (rewriteUnmeasured_loop_writes mean
                  (seq 0 (length (itemHeights (set_averageHeight mean r.2))))
                  (set_averageHeight mean r.2) Hmean)
      as (K1 & K2 & K3 & _ & _ & K6 & K7 & K8).
    rewrite K1, K2, K3, K6. cbn in K7, K8 |- *.
    repeat split; auto. done.
  - cbn. repeat split; auto. done.
Qed.

Lemma measureInitialSample_cb_cases p (rects : list Rect) st :
  measureInitialSample_cb p rects st = st
  ∨ (batchHeights rects ≠ []
     ∧ measureInitialSample_cb p rects st
       = updateItemPositions p
           (updateAccumulatedHeights (initialSample_heights p rects st).2)).
Proof.
  unfold measureInitialSample_cb. destruct rects as [|rect rects]; [by left|].
  destruct (decide (batchHeights (rect :: rects) = [])) as [Hnil|Hne].
  - left.
    destruct (initialSample_heights_writes p (rect :: rects) st)
      as (_ & _ & _ & _ & _ & _ & Heq).
    rewrite (Heq Hnil). cbn. by destruct (decide (0 < 0)) as [?|_]; [lia|].
  - right. split; [done|].
    destruct (initialSample_heights_counted p (rect :: rects) st Hne)
      as [Hpos Heq].
    rewrite Heq. cbn [fst snd]. by rewrite decide_True.
Qed.

Lemma measureInitialSample_cb_well_formed p (rects : list Rect) st :
  well_formed st → well_formed (measureInitialSample_cb p rects st).
Proof.
  intros Hwf.
  destruct (measureInitialSample_cb_cases p rects st) as [->|[_ ->]]; [done|].
  destruct (initialSample_heights_writes p rects st)
    as (H1 & H2 & H3 & _ & H5 & _).
  apply (rebuild_well_formed p st); [done|by rewrite H1|done..].
Qed.

Lemma measureItemHeights_loop_counted (rects : list Rect) : ∀ (b : Batch) st,
  (heightsChanged b = true → 0 < measuredCount b) →
  heightsChanged (foldl measureItemHeights_rect (b, st) rects).1 = true →
  0 < measuredCount (foldl measureItemHeights_rect (b, st) rects).1.
Proof.
  induction rects as [|rect rects IH]; intros b st Hb; [done|].
  cbn [foldl]. unfold measureItemHeights_rect at 2 4.
  destruct (valid_rect rect) as [[i h]|]; [|by apply IH].
  cbn [fst snd]. destruct (heightDiffers _ i h); apply IH; cbn; lia.
Qed.

Lemma measureItemHeights_cb_cases p (rects : list Rect) st :
  (∃ m, measureItemHeights_cb p rects st = set_measuredIndices m st)
  ∨ ∃ st1,
      measureItemHeights_cb p rects st
      = updateItemPositions p (updateAccumulatedHeights st1)
      ∧ copyList st1 = copyList st
      ∧ currentIndex st1 = currentIndex st
      ∧ source <$> virtualList st1 = source <$> virtualList st
      ∧ (stored_positive (itemHeights st) →
         stored_positive (itemHeights st1))
      ∧ (∀ i, is_Some (array_get (itemHeights st) i) →
              is_Some (array_get (itemHeights st1) i))
      ∧ ((0 < averageHeight st)%Qc → (0 < averageHeight st1)%Qc).
Proof.
  unfold measureItemHeights_cb. destruct rects as [|rect rects].
  { left. exists (measuredIndices st). by rewrite set_measuredIndices_id. }
  pose proof (measureItemHeights_loop_writes (rect :: rects) batch0 st)
    as (H1 & H2 & H3 & _ & _ & H6 & H7 & H8).
  pose proof (measureItemHeights_loop_unchanged (rect :: rects) batch0 st)
    as Hsame.
  set (r := foldl measureItemHeights_rect (batch0, st) (rect :: rects)) in *.
  destruct (heightsChanged r.1) eqn:Hchanged; cbn [andb].
  2:{ left. eexists. by apply Hsame. }
  rewrite bool_decide_eq_true_2
    by (apply measureItemHeights_loop_counted; [done|exact Hchanged]).
  right. eexists. split; [done|].
  destruct (decide (0 < batchMean r.1)%Qc) as [Hmean|_].
  - repeat split; auto. intros Havg. rewrite <- H6 in Havg.
    unfold set_averageHeight. cbn [averageHeight].
    apply Qcplus_pos_pos; apply Qcmult_pos_pos; done.
  - repeat split; auto. by rewrite H6.
Qed.

Lemma measureItemHeights_cb_well_formed p (rects : list Rect) st :
  well_formed st → well_formed (measureItemHeights_cb p rects st).
Proof.
  intros Hwf.
  destruct (measureItemHeights_cb_cases p rects st)
    as [[m ->]|(st1 & -> & H1 & H2 & H3 & _ & H5 & _)]; [done|].
  apply (rebuild_well_formed p st); [done|by rewrite H1|done..].
Qed.

Lemma update_first_fmap {B C} (g : B → C) (P : B → bool) (f : B → B)
    (l : list B) :
  (∀ x, g (f x) = g x) → g <$> update_first P f l = g <$> l.
Proof.
  intros Hf. induction l as [|x l IH]; [done|]. cbn [update_first].
  destruct (P x); rewrite !fmap_cons; [by rewrite Hf|by rewrite IH].
Qed.

Lemma Qc_max_1_pos (q : Qc) : (0 < Qc_max 1 q)%Qc.
Proof.
  apply Qclt_le_trans with 1%Qc; [done|]. apply Qc_max_le_l.
Qed.

Lemma updateElementHeight_cb_cases p (i : nat) (rects : list Rect) st :
  updateElementHeight_cb p i rects st = st
  ∨ ∃ st1,
      updateElementHeight_cb p i rects st
      = updateItemPositions p (updateAccumulatedHeights st1)
      ∧ index <$> copyList st1 = index <$> copyList st
      ∧ currentIndex st1 = currentIndex st
      ∧ source <$> virtualList st1 = source <$> virtualList st
      ∧ (stored_positive (itemHeights st) →
         stored_positive (itemHeights st1))
      ∧ (∀ j, is_Some (array_get (itemHeights st) j) →
              is_Some (array_get (itemHeights st1) j))
      ∧ averageHeight st1 = averageHeight st.
Proof.
  unfold updateElementHeight_cb.
  destruct (find _ rects) as [targetRect|]; [|by left].
  destruct (truthy (height targetRect)); [|by left].
  destruct (decide _); [by left|].
  right. eexists. split; [done|].
  cbn [copyList currentIndex virtualList itemHeights averageHeight
       set_positionCache set_copyList set_virtualList set_itemHeights].
  split; [by apply update_first_fmap|]. split; [done|].
  split; [by apply update_first_sources|].
  split; [apply array_set_stored_positive, Qc_max_1_pos|].
  split; [|done]. intros j. apply array_set_is_Some.
Qed.

Lemma updateElementHeight_cb_well_formed p (i : nat) (rects : list Rect) st :
  well_formed st → well_formed (updateElementHeight_cb p i rects st).
Proof.
  intros Hwf.
  destruct (updateElementHeight_cb_cases p i rects st)
    as [->|(st1 & -> & H1 & H2 & H3 & _ & H5 & _)]; [done|].
  by apply (rebuild_well_formed p st).
Qed.

Lemma refreshHeight_well_formed st :
  well_formed st → well_formed (refreshHeight st).
Proof.
  intros Hwf. unfold refreshHeight.
  by apply scheduleHeightMeasurement_well_formed.
Qed.

Lemma scrollStops_well_formed p st :
  well_formed st → well_formed (scrollStops p st).
Proof.
  intros Hwf. unfold scrollStops. destruct (continuousHeight p); [|done].
  by apply scheduleHeightMeasurement_well_formed.
Qed.

Lemma handle_well_formed p st (e : Event A) :
  well_formed st → well_formed (handle p st e).
Proof.
  intros Hwf. destruct e; cbn [handle].
  - by apply watch_well_formed.
  - by apply scheduleHeightMeasurement_well_formed.
  - done.
  - by apply scrollStops_well_formed.
  - by apply updateVisibleItems_well_formed.
  - by apply handleScrollToLower_well_formed.
  - by apply handleScrollToUpper_well_formed.
  - done.
  - by apply measureInitialSample_cb_well_formed.
  - by apply measureItemHeights_cb_well_formed.
  - by apply refreshHeight_well_formed.
  - by apply updateElementHeight_cb_well_formed.
Qed.

Lemma foldl_handle_well_formed p (es : list (Event A)) : ∀ st,
  well_formed st → well_formed (foldl (handle p) st es).
Proof.
  induction es as [|e es IH]; intros st Hwf; [done|].
  cbn [foldl]. by apply IH, handle_well_formed.
Qed.

Lemma run_invariant p (es : list (Event A)) : well_formed (run p es).
Proof.
  apply foldl_handle_well_formed.
  split; [done|]. split; [done|]. split; [by exists 0, 0|].
  split; [by left|]. intros i Hi. cbn in Hi. lia.
Qed.

(** ** Positive heights along a run *)

Lemma rebuild_heights_valid p st1 :
  heights_valid st1 →
  heights_valid (updateItemPositions p (updateAccumulatedHeights st1)).
Proof.
  intros Hv.
  destruct (updateItemPositions_frame p (updateAccumulatedHeights st1))
    as (vl & c & ->).
  done.
Qed.

Lemma window_move_heights_valid p (anchor : Z) st :
  heights_valid st → heights_valid (windowAt p anchor st).
Proof.
  intros Hv. destruct (windowAt_frame p anchor st) as (vl & c & t & ->). done.
Qed.

Lemma watch_heights_valid p (newVal : list A) st :
  (0 < itemHeight p)%Qc → heights_valid st →
  heights_valid (watch p newVal st).
Proof.
  intros Hp [Hst Havg]. destruct newVal as [|x l]; [by split|].
  unfold watch.
  match goal with
  | |- context [scheduleHeightMeasurement true ?s] =>
      destruct (scheduleHeightMeasurement_frame true s) as (t & ->)
  end.
  match goal with
  | |- context [calculateVirtualList p ?a ?b ?s] =>
      destruct (calculateVirtualList_frame p a b s) as (vl & c & t' & ->)
  end.
  split; [|done]. cbn -[imap replicate].
  apply Forall_replicate. by intros q [= <-].
Qed.

Lemma measureInitialSample_cb_heights_valid p (rects : list Rect) st :
  heights_valid st → heights_valid (measureInitialSample_cb p rects st).
Proof.
  intros [Hst Havg].
  destruct (measureInitialSample_cb_cases p rects st) as [->|[Hne ->]];
    [done|].
  destruct (initialSample_heights_writes p rects st)
    as (_ & _ & _ & H4 & _ & H6 & _).
  apply rebuild_heights_valid. split; auto.
Qed.

Lemma measureItemHeights_cb_heights_valid p (rects : list Rect) st :
  heights_valid st → heights_valid (measureItemHeights_cb p rects st).
Proof.
  intros [Hst Havg].
  destruct (measureItemHeights_cb_cases p rects st)
    as [[m ->]|(st1 & -> & _ & _ & _ & H4 & _ & H6)]; [done|].
  apply rebuild_heights_valid. split; auto.
Qed.

Lemma updateElementHeight_cb_heights_valid p (i : nat) (rects : list Rect)
    st :
  heights_valid st → heights_valid (updateElementHeight_cb p i rects st).
Proof.
  intros [Hst Havg].
  destruct (updateElementHeight_cb_cases p i rects st)
    as [->|(st1 & -> & _ & _ & _ & H4 & _ & H6)]; [done|].
  apply rebuild_heights_valid. split; [auto|by rewrite H6].
Qed.

Lemma scheduleHeightMeasurement_heights_valid (b : bool) st :
  heights_valid st → heights_valid (scheduleHeightMeasurement b st).
Proof.
  destruct (scheduleHeightMeasurement_frame b st) as (t & ->). done.
Qed.

Lemma handle_heights_valid p st (e : Event A) :
  (0 < itemHeight p)%Qc → heights_valid st → heights_valid (handle p st e).
Proof.
  intros Hp Hv. destruct e; cbn [handle].
  - by apply watch_heights_valid.
  - by apply scheduleHeightMeasurement_heights_valid.
  - done.
  - unfold scrollStops. destruct (continuousHeight p); [|done].
    by apply scheduleHeightMeasurement_heights_valid.
  - unfold updateVisibleItems. destruct (copyList st); [done|].
    destruct (clampEstimate p st _); try done.
    destruct (decide _); [|done]. by apply window_move_heights_valid.
  - unfold handleScrollToLower. destruct (decide _); [|done].
    by apply window_move_heights_valid.
  - unfold handleScrollToUpper. destruct (decide _); [|done].
    by apply window_move_heights_valid.
  - done.
  - by apply measureInitialSample_cb_heights_valid.
  - by apply measureItemHeights_cb_heights_valid.
  - by apply scheduleHeightMeasurement_heights_valid.
  - by apply updateElementHeight_cb_heights_valid.
Qed.

Lemma run_heights_valid p (es : list (Event A)) :
  (0 < itemHeight p)%Qc → heights_valid (run p es).
Proof.
  intros Hp. unfold run.
  match goal with |- heights_valid (foldl _ ?s es) => generalize s
    (conj (Forall_nil_2 _) Hp : heights_valid s) end.
  induction es as [|e es IH]; intros st Hv; [done|].
  cbn [foldl]. by apply IH, handle_heights_valid.
Qed.

Lemma stored_positive_effective (avg : Qc) (hs : list (option Qc)) :
  stored_positive hs → (0 < avg)%Qc →
  Forall (λ h, (0 < or_num h avg)%Qc) hs.
Proof.
  intros Hst Havg. eapply Forall_impl; [exact Hst|].
  intros [q|] Hq; [|done]. rewrite or_num_stored; by apply Hq.
Qed.

(** X6.  In every state a component reaches, from the refs as [setup] creates
    them and by whatever events in whatever order, the window is a run of
    consecutive indices of the list, the list items carry their positions,
    and the anchor is not negative. *)
Theorem run_window_in_list p (es : list (Event A)) :
  let st := run p es in
  (∃ a k, vindex <$> virtualList st = seq a k
          ∧ a + k ≤ length (copyList st))
  ∧ index <$> copyList st = seq 0 (length (copyList st))
  ∧ (0 ≤ currentIndex st)%Z.
Proof.
  destruct (run_invariant p es) as (Hcur & Hidx & Hwin & _). done.
Qed.

(** X7.  In every state a component reaches the cumulative index is never
    stale: it is empty with total height 0, or entry [i] is the sum of the
    effective heights [itemHeights[j] || averageHeight] of the table as it
    is now for [j ≤ i], and [totalHeight] is the sum of all of them; and
    every index of the list has a stored height. *)
Theorem run_index_fresh p (es : list (Event A)) :
  let st := run p es in
  ((accumulatedHeights st = [] ∧ totalHeight st = 0%Qc)
   ∨ (length (accumulatedHeights st) = length (itemHeights st)
      ∧ (∀ i, i < length (itemHeights st) →
           accumulatedHeights st !! i
           = Some (effective_sum (averageHeight st)
                     (take (S i) (itemHeights st))))
      ∧ totalHeight st
        = effective_sum (averageHeight st) (itemHeights st)))
  ∧ ∀ i, i < length (copyList st) →
      is_Some (array_get (itemHeights st) i).
Proof.
  destruct (run_invariant p es) as (_ & _ & _ & Hfresh & Hcov).
  split; [|done]. destruct Hfresh as [?|[Hacc Htot]]; [by left|right].
  rewrite Hacc. split; [apply running_length|]. split; [|done].
  intros i Hi. rewrite running_lookup by done. f_equal. ring.
Qed.

(** X8.  With a positive nominal item height, in every state a component
    reaches every stored height and the average are positive, and the
    cumulative index is strictly increasing: the binary search of
    [getIndexByScrollTop] runs on a sorted array. *)
Theorem run_index_increasing p (es : list (Event A)) :
  (0 < itemHeight p)%Qc →
  let st := run p es in
  stored_positive (itemHeights st)
  ∧ (0 < averageHeight st)%Qc
  ∧ increasing (accumulatedHeights st).
Proof.
  intros Hp st. destruct (run_heights_valid p es Hp) as [Hst Havg].
  split; [done|]. split; [done|].
  destruct (run_invariant p es) as (_ & _ & _ & [[Hacc _]|[Hacc _]] & _).
  - fold st in Hacc. rewrite Hacc. intros i j x y _ Hx. done.
  - fold st in Hacc. rewrite Hacc.
    by apply running_increasing, stored_positive_effective.
Qed.

(** ** What a batch does to the scroll flag, the timer and the measured set *)

Lemma footprint_refl st : footprint ∅ st st.
Proof. split; [done|]. split; [done|]. set_solver. Qed.

Lemma footprint_trans (m1 m2 m : gset nat) st1 st2 st3 :
  m = m2 ∪ m1 →
  footprint m1 st1 st2 → footprint m2 st2 st3 → footprint m st1 st3.
Proof.
  intros -> (H1 & H2 & H3) (K1 & K2 & K3).
  split; [congruence|]. split; [congruence|]. rewrite K3, H3. set_solver.
Qed.

Lemma footprint_same st st' :
  isScrolling st' = isScrolling st →
  heightUpdateTimeout st' = heightUpdateTimeout st →
  measuredIndices st' = measuredIndices st →
  footprint ∅ st st'.
Proof. intros H1 H2 H3. split; [done|]. split; [done|]. set_solver. Qed.

Lemma rebuild_footprint p st :
  footprint ∅ st (updateItemPositions p (updateAccumulatedHeights st)).
Proof.
  destruct (updateItemPositions_frame p (updateAccumulatedHeights st))
    as (vl & c & ->).
  by apply footprint_same.
Qed.

Lemma initialSample_loop_footprint (rects : list Rect) : ∀ (b : Batch) st,
  footprint (measuredOf rects) st (foldl initialSample_rect (b, st) rects).2.
Proof.
  induction rects as [|rect rects IH]; intros b st; [apply footprint_refl|].
  cbn [foldl]. rewrite measuredOf_cons. unfold initialSample_rect at 2.
  destruct (valid_rect rect) as [[i h]|]; [|apply IH].
  eapply (footprint_trans {[ i ]}); [| |apply IH]; [set_solver|by split].
Qed.

Lemma measureItemHeights_loop_footprint (rects : list Rect) :
  ∀ (b : Batch) st,
    footprint (measuredOf rects) st
      (foldl measureItemHeights_rect (b, st) rects).2.
Proof.
  induction rects as [|rect rects IH]; intros b st; [apply footprint_refl|].
  cbn [foldl]. rewrite measuredOf_cons. unfold measureItemHeights_rect at 2.
  destruct (valid_rect rect) as [[i h]|]; [|apply IH].
  cbn [fst snd]. destruct (heightDiffers _ i h);
    (eapply (footprint_trans {[ i ]}); [| |apply IH];
       [set_solver|by split]).
Qed.

Lemma rewriteUnmeasured_loop_footprint (avg : Qc) (l : list nat) : ∀ st,
  footprint ∅ st (foldl (rewriteUnmeasured avg) st l).
Proof.
  induction l as [|j l IH]; intros st; [apply footprint_refl|].
  cbn [foldl]. eapply (footprint_trans ∅ ∅); [set_solver| |apply IH].
  unfold rewriteUnmeasured. destruct (decide _);
    [apply footprint_refl|by apply footprint_same].
Qed.

Lemma measuredOf_none (rects : list Rect) :
  batchHeights rects = [] → measuredOf rects = ∅.
Proof.
  unfold batchHeights, measuredOf. intros Hnil.
  apply fmap_nil_inv in Hnil. by rewrite Hnil.
Qed.

Lemma measureInitialSample_cb_footprint p (rects : list Rect) st :
  footprint (measuredOf rects) st (measureInitialSample_cb p rects st).
Proof.
  unfold measureInitialSample_cb. destruct rects as [|rect rects];
    [apply footprint_refl|].
  destruct (initialSample_heights_writes p (rect :: rects) st)
    as (_ & _ & _ & _ & _ & _ & Hnone).
  destruct (decide (batchHeights (rect :: rects) = [])) as [Hnil|Hne].
  { rewrite (Hnone Hnil), (measuredOf_none _ Hnil). cbn.
    destruct (decide (0 < 0)); apply footprint_refl || lia. }
  destruct (initialSample_heights_counted p (rect :: rects) st Hne)
    as [Hpos ->].
  cbn [fst snd]. rewrite decide_True by done.
  assert (∀ avg,
            footprint (measuredOf (rect :: rects)) st
              (set_averageHeight avg
                 (foldl initialSample_rect (batch0, st) (rect :: rects)).2))
    as Hloop
    by (intros avg;
        exact (initialSample_loop_footprint (rect :: rects) batch0 st)).
  eapply (footprint_trans (measuredOf (rect :: rects)) ∅);
    [set_solver| |apply rebuild_footprint].
  destruct (sampleGate p _); [|apply Hloop].
  eapply (footprint_trans (measuredOf (rect :: rects)) ∅);
    [set_solver|apply Hloop|apply rewriteUnmeasured_loop_footprint].
Qed.

Lemma measureItemHeights_cb_footprint p (rects : list Rect) st :
  footprint (measuredOf rects) st (measureItemHeights_cb p rects st).
Proof.
  unfold measureItemHeights_cb. destruct rects as [|rect rects];
    [apply footprint_refl|].
  pose proof (measureItemHeights_loop_footprint (rect :: rects) batch0 st)
    as Hloop.
  destruct (_ && _); [|done].
  eapply (footprint_trans (measuredOf (rect :: rects)) ∅);
    [set_solver| |apply rebuild_footprint].
  destruct (decide _); exact Hloop.
Qed.

Lemma updateElementHeight_cb_footprint p (i : nat) (rects : list Rect) st :
  footprint ∅ st (updateElementHeight_cb p i rects st).
Proof.
  unfold updateElementHeight_cb.
  destruct (find _ rects); [|apply footprint_refl].
  destruct (truthy _); [|apply footprint_refl].
  destruct (decide _); [apply footprint_refl|].
  eapply (footprint_trans ∅ ∅); [set_solver| |apply rebuild_footprint].
  by apply footprint_same.
Qed.

(** X9.  The measured set only grows by what a batch measures: an initial
    sample and a continuous batch add exactly the indices of the rects that
    pass the validity test, whether or not a height is stored for them, and
    a targeted re-measurement adds none, not even the index it measures. *)
Theorem batches_extend_measured_set p (i : nat) (rects : list Rect) st :
  measuredIndices (measureInitialSample_cb p rects st)
  = measuredOf rects ∪ measuredIndices st
  ∧ measuredIndices (measureItemHeights_cb p rects st)
    = measuredOf rects ∪ measuredIndices st
  ∧ measuredIndices (updateElementHeight_cb p i rects st)
    = measuredIndices st.
Proof.
  split; [apply measureInitialSample_cb_footprint|].
  split; [apply measureItemHeights_cb_footprint|].
  destruct (updateElementHeight_cb_footprint p i rects st) as (_ & _ & ->).
  set_solver.
Qed.

(** ** No measurement is scheduled during a scroll *)

Lemma calculateVirtualList_scrolling p (a b : Z) st :
  isScrolling st = true →
  isScrolling (calculateVirtualList p a b st) = true
  ∧ heightUpdateTimeout (calculateVirtualList p a b st)
    = heightUpdateTimeout st.
Proof.
  intros Hs. unfold calculateVirtualList.
  match goal with
  | |- context [updateItemPositions p ?s] =>
      destruct (updateItemPositions_frame p s) as (vl & c & ->)
  end.
  cbn [isScrolling set_positionCache set_virtualList]. rewrite Hs.
  rewrite andb_false_r. done.
Qed.

Lemma windowAt_scrolling p (anchor : Z) st :
  isScrolling st = true →
  isScrolling (windowAt p anchor (set_currentIndex anchor st)) = true
  ∧ heightUpdateTimeout (windowAt p anchor (set_currentIndex anchor st))
    = heightUpdateTimeout st.
Proof.
  intros Hs. by apply (calculateVirtualList_scrolling p _ _
                         (set_currentIndex anchor st)).
Qed.

Lemma handle_while_scrolling p st (e : Event A) :
  while_scrolling e = true → isScrolling st = true →
  isScrolling (handle p st e) = true
  ∧ heightUpdateTimeout (handle p st e) = heightUpdateTimeout st.
Proof.
  intros He Hs. destruct e; try done; cbn [handle].
  - unfold updateVisibleItems. destruct (copyList st); [done|].
    destruct (clampEstimate p st _); try done.
    destruct (decide _); [|done]. by apply windowAt_scrolling.
  - unfold handleScrollToLower. destruct (decide _); [|done].
    by apply windowAt_scrolling.
  - unfold handleScrollToUpper. destruct (decide _); [|done].
    by apply windowAt_scrolling.
  - destruct (measureInitialSample_cb_footprint p rects st) as (-> & -> & _).
    done.
  - destruct (measureItemHeights_cb_footprint p rects st) as (-> & -> & _).
    done.
  - destruct (updateElementHeight_cb_footprint p i rects st)
      as (-> & -> & _).
    done.
Qed.

(** X10.  From an accepted scroll event until the scroll timer fires, no
    window move and no answer to a geometry query touches the measurement
    timer: what was pending stays pending and nothing new is scheduled,
    whatever the props are. *)
Theorem scrolling_defers_measurement p (es : list (Event A)) st :
  forallb while_scrolling es = true →
  let st' := foldl (handle p) (scrollStarts st) es in
  isScrolling st' = true
  ∧ heightUpdateTimeout st' = heightUpdateTimeout st.
Proof.
  intros Hes.
  change (heightUpdateTimeout st)
    with (heightUpdateTimeout (scrollStarts st)).
  assert (isScrolling (scrollStarts st) = true) as Hs by done.
  revert Hes Hs. generalize (scrollStarts st). clear st.
  induction es as [|e es IH]; intros st Hes Hs; [done|].
  cbn [forallb] in Hes. apply andb_true_iff in Hes as [He Hes].
  cbn [foldl]. destruct (handle_while_scrolling p st e He Hs) as [Hs' <-].
  by apply IH.
Qed.

(** ** Repeated edge events *)

Lemma windowAt_anchor p (anchor : Z) st :
  copyList (windowAt p anchor st) = copyList st
  ∧ currentIndex (windowAt p anchor st) = currentIndex st.
Proof. destruct (windowAt_frame p anchor st) as (vl & c & t & ->). done. Qed.

(** X11.  [k] calls of [handleScrollToLower] move the anchor forward by
    [floor(virtualListLength / 3)] each, up to [N - virtualListLength] and
    never backward; the list is left as it is. *)
Theorem handleScrollToLower_iter p (k : nat) st :
  let st' := Nat.iter k (handleScrollToLower p) st in
  copyList st' = copyList st
  ∧ currentIndex st'
    = Z.max (currentIndex st)
        (Z.min (Z.of_nat (length (copyList st)) - virtualListLength p)
           (currentIndex st + Z.of_nat k * (virtualListLength p `div` 3))).
Proof.
  cbn zeta. induction k as [|k [IHl IHc]].
  { cbn [Nat.iter nat_rect]. split; [done|]. lia. }
  change (Nat.iter (S k) (handleScrollToLower p) st)
    with (handleScrollToLower p (Nat.iter k (handleScrollToLower p) st)).
  set (s := Nat.iter k (handleScrollToLower p) st) in *.
  unfold handleScrollToLower.
  set (d := (virtualListLength p `div` 3)%Z) in *.
  assert (Z.of_nat (S k) * d = Z.of_nat k * d + d)%Z as -> by lia.
  assert ((0 ≤ d → 0 ≤ Z.of_nat k * d)
          ∧ (d ≤ 0 → Z.of_nat k * d ≤ 0))%Z
    as [Hpos Hneg] by (split; nia).
  destruct (decide _) as [Hgt|Hle].
  - destruct (windowAt_anchor p
                (Z.min (Z.of_nat (length (copyList s)) - virtualListLength p)
                   (currentIndex s + d))
                (set_currentIndex
                   (Z.min (Z.of_nat (length (copyList s))
                           - virtualListLength p) (currentIndex s + d)) s))
      as [-> ->].
    cbn [copyList currentIndex set_currentIndex]. split; [done|].
    rewrite IHl in Hgt |- *. lia.
  - split; [done|]. rewrite IHl in Hle. lia.
Qed.

(** X12.  [k] calls of [handleScrollToUpper] move the anchor backward by
    [floor(virtualListLength / 3)] each, down to 0 and never forward. *)
Theorem handleScrollToUpper_iter p (k : nat) st :
  let st' := Nat.iter k (handleScrollToUpper p) st in
  copyList st' = copyList st
  ∧ currentIndex st'
    = Z.min (currentIndex st)
        (Z.max 0
           (currentIndex st - Z.of_nat k * (virtualListLength p `div` 3))).
Proof.
  cbn zeta. induction k as [|k [IHl IHc]].
  { cbn [Nat.iter nat_rect]. split; [done|]. lia. }
  change (Nat.iter (S k) (handleScrollToUpper p) st)
    with (handleScrollToUpper p (Nat.iter k (handleScrollToUpper p) st)).
  set (s := Nat.iter k (handleScrollToUpper p) st) in *.
  unfold handleScrollToUpper.
  set (d := (virtualListLength p `div` 3)%Z) in *.
  assert (Z.of_nat (S k) * d = Z.of_nat k * d + d)%Z as -> by lia.
  assert ((0 ≤ d → 0 ≤ Z.of_nat k * d)
          ∧ (d ≤ 0 → Z.of_nat k * d ≤ 0))%Z
    as [Hpos Hneg] by (split; nia).
  destruct (decide _) as [Hlt|Hge].
  - destruct (windowAt_anchor p (Z.max 0 (currentIndex s - d))
                (set_currentIndex (Z.max 0 (currentIndex s - d)) s))
      as [-> ->].
    cbn [copyList currentIndex set_currentIndex]. split; [done|]. lia.
  - split; [done|]. lia.
Qed.

(** ** The average after a continuous batch *)

Lemma measureItemHeights_loop_counts (rects : list Rect) : ∀ (b : Batch) st,
  let r := foldl measureItemHeights_rect (b, st) rects in
  measuredCount r.1 = measuredCount b + length (batchHeights rects)
  ∧ batchTotal r.1
    = (batchTotal b + foldr Qcplus 0%Qc (batchHeights rects))%Qc.
Proof.
  induction rects as [|rect rects IH]; intros b st.
  { cbn. split; [lia|ring]. }
  rewrite batchHeights_cons. cbn [foldl]. cbn zeta.
  unfold measureItemHeights_rect at 2 4.
  destruct (valid_rect rect) as [[i h]|]; [|apply IH].
  cbn [fst snd].
  destruct (heightDiffers _ i h);
    match goal with
    | |- context [foldl measureItemHeights_rect (?b1, ?s1) rects] =>
        destruct (IH b1 s1) as [-> ->]
    end; cbn; (split; [lia|ring]).
Qed.

(** X13.  A continuous batch either leaves heights, average and cumulative
    index as they are, or it moves the average to
    [0.7 * old + 0.3 * mean], where [mean] is the arithmetic mean of the
    clamped heights of all the valid rects of the batch (changed or not):
    the guard [newAverage > 0] of line 372 never fails. *)
Theorem measureItemHeights_cb_average p (rects : list Rect) st :
  let st' := measureItemHeights_cb p rects st in
  (itemHeights st' = itemHeights st
   ∧ averageHeight st' = averageHeight st
   ∧ accumulatedHeights st' = accumulatedHeights st
   ∧ virtualList st' = virtualList st)
  ∨ (batchHeights rects ≠ []
     ∧ averageHeight st'
       = (averageHeight st * (num 7 / num 10)
          + arithmeticMean (batchHeights rects) * (num 3 / num 10))%Qc).
Proof.
  cbn zeta. unfold measureItemHeights_cb.
  destruct rects as [|rect rects]; [by left|].
  pose proof (measureItemHeights_loop_writes (rect :: rects) batch0 st)
    as (_ & _ & _ & _ & _ & Havg & _).
  pose proof (measureItemHeights_loop_unchanged (rect :: rects) batch0 st)
    as Hsame.
  pose proof (measureItemHeights_loop_counted (rect :: rects) batch0 st)
    as Hcounted.
  destruct (measureItemHeights_loop_counts (rect :: rects) batch0 st)
    as [Hc Ht].
  set (r := foldl measureItemHeights_rect (batch0, st) (rect :: rects)) in *.
  cbn [measuredCount batchTotal batch0] in Hc, Ht.
  destruct (heightsChanged r.1) eqn:Hchanged; cbn [andb].
  2:{ left. by rewrite Hsame. }
  specialize (Hcounted ltac:(done) eq_refl).
  rewrite bool_decide_eq_true_2 by done.
  assert (batchHeights (rect :: rects) ≠ []) as Hne.
  { intros Hnil. rewrite Hnil in Hc. cbn [length] in Hc. lia. }
  assert (batchMean r.1 = arithmeticMean (batchHeights (rect :: rects)))
    as Hmean.
  { unfold batchMean, arithmeticMean. rewrite Hc, Ht. f_equal. ring. }
  right. split; [done|].
  rewrite decide_True.
  - destruct (updateItemPositions_frame p
                (updateAccumulatedHeights
                   (set_averageHeight
                      (averageHeight r.2 * (num 7 / num 10)
                       + batchMean r.1 * (num 3 / num 10))%Qc r.2)))
      as (vl & c & ->).
    rewrite <- Havg, <- Hmean. reflexivity.
  - rewrite Hmean. apply arithmeticMean_positive; [done|].
    apply batchHeights_positive.
Qed.

(** ** The layout of a list when it is populated *)

Lemma or_num_same (h : Qc) : or_num (Some h) h = h.
Proof. unfold or_num. by destruct (truthy h). Qed.

Lemma running_replicate (h : Qc) (n : nat) : ∀ s,
  running h s (replicate n (Some h)) = sums_from s h n.
Proof.
  induction n as [|n IH]; intros s; cbn [replicate running sums_from];
    [done|].
  by rewrite or_num_same, IH.
Qed.

Lemma window_in_table (l : list (SourceItem A)) (x y : Z) vl :
  indexed l → source <$> vl = js_slice l x y →
  Forall (λ v, vindex v < length l) vl.
Proof.
  intros Hl Hsrc.
  destruct (js_slice_contiguous l x y Hl) as (a & k & Hseq & Hle).
  rewrite <- Hsrc, <- list_fmap_compose in Hseq.
  apply Forall_forall. intros v Hv.
  assert (vindex v ∈ seq a k) as Hin.
  { rewrite <- Hseq. apply list_elem_of_fmap. by exists v. }
  apply elem_of_seq in Hin. lia.
Qed.

(** X14.  When the watcher has populated a non-empty list of [N] items, the
    cumulative index holds the [N] running sums of a loop that adds the
    nominal height to a sum that starts at 0, the total height is the last
    of them, every element of the window has the nominal height and sits
    at the entry of the index before its own ([0] for index 0), in both
    positioning modes and whatever the window held before, and the
    initial sample is pending, even during a scroll. *)
Theorem watch_lays_out p (x : A) (l : list A) st :
  let st' := watch p (x :: l) st in
  accumulatedHeights st' = sums_from 0%Qc (itemHeight p) (S (length l))
  ∧ totalHeight st' = default 0%Qc (last (accumulatedHeights st'))
  ∧ Forall (λ v, translateY v = offset (accumulatedHeights st') (vindex v)
                 ∧ vItemHeight v = itemHeight p)
      (virtualList st')
  ∧ heightUpdateTimeout st' = Some true.
Proof.
  cbn zeta. unfold watch.
  set (cl := imap (λ i (a : A), {| payload := a; index := i;
                                   measuredHeight := None |}) (x :: l)).
  assert (indexed cl) as Hidx by by apply imap_indexed.
  assert (length cl = S (length l)) as Hlen
    by (unfold cl; rewrite length_imap; done).
  set (st3 := initItemHeights p _).
  assert (copyList st3 = cl) as Hcl by done.
  assert (positionCache st3 = ∅) as Hcache by done.
  assert (itemHeights st3 = replicate (S (length l)) (Some (itemHeight p)))
    as Hih by (cbn -[imap replicate]; by rewrite Hlen).
  assert (averageHeight st3 = itemHeight p) as Havg by done.
  assert (accumulatedHeights st3
          = running (itemHeight p) 0%Qc
              (replicate (S (length l)) (Some (itemHeight p)))
          ∧ totalHeight st3
            = effective_sum (itemHeight p)
                (replicate (S (length l)) (Some (itemHeight p))))
    as [Hacc Htot].
  { subst st3. unfold initItemHeights.
    match goal with
    | |- context [updateAccumulatedHeights ?s] =>
        destruct (updateAccumulatedHeights_running s) as [-> ->]
    end.
    cbn -[imap replicate running effective_sum]. by rewrite Hlen. }
  clearbody st3.
  set (b := Z.min _ _).
  assert (heightUpdateTimeout
            (scheduleHeightMeasurement true (calculateVirtualList p 0 b st3))
          = Some true) as Htimer.
  { unfold scheduleHeightMeasurement. by rewrite andb_false_r. }
  destruct (scheduleHeightMeasurement_frame true
              (calculateVirtualList p 0 b st3)) as (t & Hsched).
  rewrite Hsched in Htimer |- *. clear Hsched.
  assert (accumulatedHeights (calculateVirtualList p 0 b st3)
          = accumulatedHeights st3
          ∧ totalHeight (calculateVirtualList p 0 b st3) = totalHeight st3)
    as [Hacc' Htot'].
  { by destruct (calculateVirtualList_frame p 0 b st3)
      as (vl & c & t' & ->). }
  cbn [accumulatedHeights totalHeight virtualList set_heightUpdateTimeout].
  rewrite Hacc', Htot'. clear Hacc' Htot'.
  split; [by rewrite Hacc, running_replicate|].
  split; [rewrite Hacc, running_last, Htot; ring|].
  split; [|exact Htimer].
  pose proof (calculateVirtualList_sources p 0 b st3) as Hsrc.
  unfold calculateVirtualList in Hsrc |- *.
  set (st1 := set_virtualList _ st3) in *.
  assert (virtualList
            (if existsb
                  (λ item, negb (bool_decide
                      (vindex item ∈ map vindex (virtualList st3))))
                  (virtualList (updateItemPositions p st1))
                && dynamicHeight p
                && negb (isScrolling (updateItemPositions p st1))
             then scheduleHeightMeasurement false (updateItemPositions p st1)
             else updateItemPositions p st1)
          = virtualList (updateItemPositions p st1)) as Hvl.
  { destruct (_ && _); [|done].
    by destruct (scheduleHeightMeasurement_frame false
                   (updateItemPositions p st1)) as (t' & ->). }
  rewrite Hvl in Hsrc |- *. clear Hvl.
  rewrite updateItemPositions_sources in Hsrc.
  assert (Forall (λ v, vindex v < S (length l)) (virtualList st1)) as Hin.
  { rewrite <- Hlen, <- Hcl.
    eapply window_in_table; [by rewrite Hcl|exact Hsrc]. }
  destruct (updateItemPositions_place st1) as [Habs Hcum].
  { done. }
  { destruct (updateAccumulatedHeights_running st1) as [-> _].
    cbn [accumulatedHeights averageHeight itemHeights st1 set_virtualList].
    by rewrite Hacc, Havg, Hih. }
  { cbn [itemHeights st1 set_virtualList]. rewrite Hih, length_replicate.
    exact Hin. }
  assert (virtualList (updateItemPositions p st1)
          = place (accumulatedHeights st1) <$> virtualList st1) as ->.
  { unfold updateItemPositions. by destruct (positionMode p). }
  apply Forall_fmap, Forall_forall. intros v Hv.
  pose proof (proj1 (Forall_forall _ _) Hin v Hv) as Hlt.
  unfold place. cbn [compose translateY vItemHeight set_translateY vindex
                     source].
  split; [done|].
  subst st1. cbn [virtualList set_virtualList] in Hv.
  apply elem_of_lookup_imap in Hv as (k & item & -> & _).
  cbn [vItemHeight materialize]. unfold heightOf.
  rewrite Hih, Havg. unfold array_get.
  destruct (replicate _ _ !! index item) as [o|] eqn:Ho; [|done].
  apply lookup_replicate in Ho as [-> _]. cbn [mjoin option_join].
  apply or_num_same.
Qed.

(** ** Targeted re-measurement in absolute mode *)

Lemma absolute_loop_fresh_on (on : nat → Prop) (acc : list Qc) items :
  ∀ (c : gmap nat Qc),
    (∀ j y, on j → c !! j = Some y → y = offset acc j) →
    Forall (λ v, on (vindex v) → translateY v = offset acc (vindex v))
      (absolute_loop acc c items).1.
Proof.
  induction items as [|item rest IH]; intros c Hc; cbn [absolute_loop fst];
    constructor.
  - intros Hon. change (vindex (set_translateY _ item)) with (vindex item)
      in Hon |- *.
    cbn [translateY set_translateY]. unfold absolute_position, offset.
    destruct (decide (vindex item = 0)); [done|].
    destruct (c !! vindex item) as [y|] eqn:Hy; cbn [fst].
    + rewrite (Hc _ _ Hon Hy). unfold offset. by rewrite decide_False.
    + done.
  - apply IH. unfold absolute_position.
    destruct (decide (vindex item = 0)) as [|Hne]; [done|].
    destruct (c !! vindex item) as [y|] eqn:Hy; cbn [snd]; [done|].
    intros j y Hon. destruct (decide (j = vindex item)) as [->|Hj].
    + rewrite lookup_insert_eq. intros [= <-]. unfold offset.
      by rewrite decide_False.
    + rewrite lookup_insert_ne by done. by apply Hc.
Qed.

(** X15.  In absolute mode, a targeted re-measurement that finds a height
    differing from the effective one by more than 1 stores the clamped
    height, rebuilds the cumulative index from the table as it is then,
    and leaves every element of the window from the measured index on at
    the offset the rebuilt index gives it: no offset computed from the old
    height survives for them. *)
Theorem updateElementHeight_cb_repositions p (i : nat) (rects : list Rect)
    (targetRect : Rect) st :
  positionMode p = absolute →
  find (λ rect, bool_decide (dataset_index rect = Some i)) rects
  = Some targetRect →
  truthy (height targetRect) = true →
  (1 < Qc_abs (heightOf st i - Qc_max 1 (height targetRect)))%Qc →
  let st' := updateElementHeight_cb p i rects st in
  array_get (itemHeights st') i = Some (Qc_max 1 (height targetRect))
  ∧ accumulatedHeights st'
    = running (averageHeight st') 0%Qc (itemHeights st')
  ∧ Forall (λ v, i ≤ vindex v < length (copyList st) →
                 translateY v = offset (accumulatedHeights st') (vindex v))
      (virtualList st').
Proof.
  intros Hmode Hfind Htruthy Hdiff. cbn zeta.
  unfold updateElementHeight_cb. rewrite Hfind, Htruthy.
  rewrite decide_False by by apply Qclt_not_le.
  unfold updateItemPositions. rewrite Hmode.
  unfold updateItemPositionsAbsolute.
  match goal with
  | |- context [updateAccumulatedHeights ?s] =>
      set (st4 := s);
      destruct (updateAccumulatedHeights_running st4) as [Hacc _]
  end.
  cbn [itemHeights accumulatedHeights averageHeight virtualList
       set_positionCache set_virtualList].
  change (itemHeights (updateAccumulatedHeights st4))
    with (itemHeights st4).
  change (averageHeight (updateAccumulatedHeights st4))
    with (averageHeight st4).
  split; [apply array_get_set_eq|]. split; [exact Hacc|].
  apply (absolute_loop_fresh_on (λ j, i ≤ j < length (copyList st))).
  intros j y [Hij Hj].
  change (positionCache (updateAccumulatedHeights st4))
    with (positionCache st4).
  subst st4. cbn [positionCache set_positionCache].
  rewrite clearCacheFrom_lookup.
  cbn [copyList set_copyList set_virtualList set_itemHeights].
  assert (length (update_first (λ x : SourceItem A, bool_decide (index x = i))
                    (set_measuredHeight (Qc_max 1 (height targetRect)))
                    (copyList st))
          = length (copyList st)) as ->.
  { rewrite <- (length_fmap index), update_first_fmap by done.
    apply length_fmap. }
  by rewrite decide_True.
Qed.

(** ** The window shows the list *)

Lemma indexed_lookup (l : list (SourceItem A)) (k : nat) (x : SourceItem A) :
  indexed l → l !! k = Some x → index x = k.
Proof.
  intros Hl Hx.
  assert ((index <$> l) !! k = Some (index x)) as Hk
    by by rewrite list_lookup_fmap, Hx.
  rewrite Hl in Hk. apply lookup_seq in Hk as [Hk _]. by rewrite Hk.
Qed.

Lemma js_slice_elem (l : list (SourceItem A)) (x y : Z) (item : SourceItem A) :
  indexed l → item ∈ js_slice l x y → l !! index item = Some item.
Proof.
  intros Hl Hin. unfold js_slice in Hin.
  apply subseteq_take, subseteq_drop in Hin.
  apply list_elem_of_lookup in Hin as [k Hk].
  by rewrite (indexed_lookup l k item Hl Hk).
Qed.

Lemma shows_list_window st st' (x y : Z) :
  indexed (copyList st) →
  copyList st' = copyList st →
  source <$> virtualList st' = js_slice (copyList st) x y →
  shows_list st'.
Proof.
  intros Hl Hcl Hsrc. unfold shows_list. rewrite Hcl.
  apply Forall_forall. intros v Hv.
  assert (source v ∈ js_slice (copyList st) x y) as Hin.
  { rewrite <- Hsrc. apply list_elem_of_fmap. by exists v. }
  exists (source v). split; [by eapply js_slice_elem|done].
Qed.

Lemma shows_list_kept st st' :
  index <$> copyList st' = index <$> copyList st →
  payload <$> copyList st' = payload <$> copyList st →
  source <$> virtualList st' = source <$> virtualList st →
  shows_list st → shows_list st'.
Proof.
  intros Hidx Hpay Hsrc Hshows. unfold shows_list in *.
  apply Forall_forall. intros v' Hv'.
  assert (source v' ∈ source <$> virtualList st) as Hin.
  { rewrite <- Hsrc. apply list_elem_of_fmap. by exists v'. }
  apply list_elem_of_fmap in Hin as (v & Hvv & Hv).
  apply (proj1 (Forall_forall _ _) Hshows) in Hv as (x & Hx & Hxi & Hxp).
  assert (vindex v' = vindex v) as Hvi by (unfold vindex; by rewrite Hvv).
  assert ((index <$> copyList st') !! vindex v = Some (index x)) as Hi
    by by rewrite Hidx, list_lookup_fmap, Hx.
  assert ((payload <$> copyList st') !! vindex v = Some (payload x)) as Hp
    by by rewrite Hpay, list_lookup_fmap, Hx.
  rewrite list_lookup_fmap in Hi. rewrite list_lookup_fmap in Hp.
  destruct (copyList st' !! vindex v) as [x'|] eqn:Hx'; [|done].
  cbn in Hi, Hp. exists x'. rewrite Hvi, Hvv.
  split; [done|]. split; congruence.
Qed.

Lemma window_move_shows_list p (anchor : Z) st :
  indexed (copyList st) → shows_list (windowAt p anchor st).
Proof.
  intros Hl. unfold windowAt.
  match goal with
  | |- context [calculateVirtualList p ?a ?b ?s] =>
      pose proof (calculateVirtualList_sources p a b s) as Hsrc;
      destruct (calculateVirtualList_frame p a b s) as (vl & c & t & Heq)
  end.
  rewrite Heq in Hsrc |- *.
  by eapply (shows_list_window st).
Qed.

Lemma rebuild_shows_list p st st1 :
  index <$> copyList st1 = index <$> copyList st →
  payload <$> copyList st1 = payload <$> copyList st →
  source <$> virtualList st1 = source <$> virtualList st →
  shows_list st →
  shows_list (updateItemPositions p (updateAccumulatedHeights st1)).
Proof.
  intros Hidx Hpay Hsrc. apply shows_list_kept.
  - destruct (updateItemPositions_frame p (updateAccumulatedHeights st1))
      as (vl & c & ->).
    exact Hidx.
  - destruct (updateItemPositions_frame p (updateAccumulatedHeights st1))
      as (vl & c & ->).
    exact Hpay.
  - rewrite updateItemPositions_sources. exact Hsrc.
Qed.

Lemma timer_shows_list (t : option bool) st :
  shows_list st → shows_list (set_heightUpdateTimeout t st).
Proof. done. Qed.

Lemma handle_shows_list p st (e : Event A) :
  indexed (copyList st) → shows_list st → shows_list (handle p st e).
Proof.
  intros Hl Hshows. destruct e; cbn [handle].
  - destruct newVal as [|x l]; [by constructor|].
    unfold watch.
    match goal with
    | |- context [scheduleHeightMeasurement true ?s] =>
        destruct (scheduleHeightMeasurement_frame true s) as (t & ->)
    end.
    apply timer_shows_list.
    match goal with
    | |- context [calculateVirtualList p ?a ?b ?s] =>
        pose proof (calculateVirtualList_sources p a b s) as Hsrc;
        destruct (calculateVirtualList_frame p a b s) as (vl & c & t' & Heq)
    end.
    rewrite Heq in Hsrc |- *.
    match type of Hsrc with
    | _ = js_slice (copyList ?s) _ _ =>
        eapply (shows_list_window s); [|done|exact Hsrc]
    end.
    by apply imap_indexed.
  - by destruct (scheduleHeightMeasurement_frame true st) as (t & ->).
  - done.
  - unfold scrollStops. destruct (continuousHeight p); [|done].
    by destruct (scheduleHeightMeasurement_frame false
                   (set_isScrolling false st)) as (t & ->).
  - unfold updateVisibleItems. destruct (copyList st) eqn:Hcl; [done|].
    destruct (clampEstimate p st _); try done.
    destruct (decide _); [|done].
    apply window_move_shows_list. cbn. by rewrite Hcl.
  - unfold handleScrollToLower. destruct (decide _); [|done].
    by apply window_move_shows_list.
  - unfold handleScrollToUpper. destruct (decide _); [|done].
    by apply window_move_shows_list.
  - done.
  - destruct (measureInitialSample_cb_cases p rects st) as [->|[_ ->]];
      [done|].
    destruct (initialSample_heights_writes p rects st)
      as (H1 & _ & H3 & _).
    apply (rebuild_shows_list p st); by rewrite ?H1.
  - destruct (measureItemHeights_cb_cases p rects st)
      as [[m ->]|(st1 & -> & H1 & _ & H3 & _)]; [done|].
    apply (rebuild_shows_list p st); by rewrite ?H1.
  - unfold refreshHeight.
    by destruct (scheduleHeightMeasurement_frame true
                   (set_positionCache ∅ (set_measuredIndices ∅ st)))
      as (t & ->).
  - unfold updateElementHeight_cb.
    destruct (find _ rects); [|done]. destruct (truthy _); [|done].
    destruct (decide _); [done|].
    apply (rebuild_shows_list p st); [| |by apply update_first_sources|done];
      by apply update_first_fmap.
Qed.

(** X16.  In every state a component reaches, every element of the window
    shows the item the list has at its index: the list holds an item at
    that position, the item carries that index and its payload is the one
    the element carries. *)
Theorem run_window_shows_list p (es : list (Event A)) :
  Forall (λ v, ∃ x, copyList (run p es) !! vindex v = Some x
                    ∧ index x = vindex v
                    ∧ payload x = payload (source v))
    (virtualList (run p es)).
Proof.
  change (shows_list (run p es)).
  assert (well_formed (run p (@nil (Event A)))
          ∧ shows_list (run p (@nil (Event A)))) as Hstart.
  { split; [apply (run_invariant p [])|by constructor]. }
  unfold run in *. cbn [foldl] in Hstart. revert Hstart.
  match goal with |- _ ∧ shows_list ?s → _ => generalize s end.
  induction es as [|e es IH]; intros st [Hwf Hshows]; [done|].
  cbn [foldl]. apply IH. split; [by apply handle_well_formed|].
  apply handle_shows_list; [|done]. by destruct Hwf as (_ & ? & _).
Qed.

(** ** Stacking in cumulative mode *)

Lemma find_index_None vl (order : list nat) (i : nat) :
  find_index vl order i = None →
  ∀ k v, k ∈ order → vl !! k = Some v → vindex v ≠ i.
Proof.
  induction order as [|k0 order IH]; cbn [find_index]; intros Hnone k v Hk Hv.
  { by apply elem_of_nil in Hk. }
  apply elem_of_cons in Hk as [->|Hk].
  - rewrite Hv in Hnone. by destruct (decide (vindex v = i)).
  - destruct (vl !! k0) as [it|]; [|by eapply IH].
    destruct (decide (vindex it = i)); [done|by eapply IH].
Qed.

Section CumulativeStacks.

Variables (hs : list (option Qc)) (avg : Qc) (acc : list Qc).
Variables (vl0 : list (VirtualItem A)) (c0 : gmap nat Qc).

Hypothesis unique : NoDup (vindex <$> vl0).

Lemma unique_position (k1 k2 : nat) (v1 v2 : VirtualItem A) :
  vl0 !! k1 = Some v1 → vl0 !! k2 = Some v2 → vindex v1 = vindex v2 →
  k1 = k2.
Proof.
  intros H1 H2 Heq.
  apply (NoDup_lookup (vindex <$> vl0) k1 k2 (vindex v1) unique).
  - by rewrite list_lookup_fmap, H1.
  - by rewrite list_lookup_fmap, H2, Heq.
Qed.

Lemma cumulative_step_walked (done todo : list nat) (k : nat) vl
    (c : gmap nat Qc) :
  sortedList vl0 = done ++ k :: todo →
  walked hs avg acc vl0 c0 done vl c →
  let r' := cumulative_step hs avg acc (sortedList vl0) (vl, c) k in
  walked hs avg acc vl0 c0 (done ++ [k]) r'.1 r'.2.
Proof.
  intros Hord (Hrest & Hidx & Hcache & Hstack & Hfall).
  pose proof (sortedList_perm vl0) as Hperm.
  pose proof (sortedList_sorted vl0) as Hsorted.
  assert (NoDup (done ++ k :: todo)) as Hnd
    by (rewrite <- Hord, Hperm; apply NoDup_seq).
  apply NoDup_app in Hnd as (_ & Hdisj & _).
  assert (k ∉ done) as Hk_done by (intros ?; eapply Hdisj; [done|left]).
  assert (∀ k', k' ∈ sortedList vl0 ↔ k' < length vl0) as Hall.
  { intros k'. rewrite Hperm, elem_of_seq. lia. }
  assert (k < length vl0) as Hk_len by (apply Hall; rewrite Hord; set_solver).
  destruct (lookup_lt_is_Some_2 vl0 k Hk_len) as [item Hitem].
  assert (vl !! k = Some item) as Hvk by by rewrite Hrest.
  assert (k < length vl) as Hk_len' by by eapply lookup_lt_Some.
  assert (∀ k1 v, k1 ∈ done → vl0 !! k1 = Some v →
                  vindex v ≤ vindex item)
    as Hbefore.
  { intros k1 v Hk1 Hv. unfold sorted_by in Hsorted. rewrite Hord in Hsorted.
    pose proof (StronglySorted_app_1_elem_of _ _ _ k1 k Hsorted Hk1
                  ltac:(left)) as Hle.
    unfold index_at in Hle. by rewrite Hv, Hitem in Hle. }
  assert (∀ k' v, vl !! k' = Some v →
                  ∃ v0, vl0 !! k' = Some v0 ∧ vindex v0 = vindex v)
    as Hback.
  { intros k' v Hv. specialize (Hidx k'). rewrite Hv in Hidx.
    destruct (vl0 !! k') as [v0|]; [|done]. exists v0.
    split; [done|]. by injection Hidx. }
  assert (c !! vindex item = c0 !! vindex item) as Hmine.
  { apply Hcache. intros k1 v Hk1 Hv Heq.
    assert (k1 = k) as -> by by eapply unique_position. done. }
  (* what the step computes *)
  assert (∃ y c',
    cumulative_step hs avg acc (sortedList vl0) (vl, c) k
    = (<[k := set_translateY y item]> vl, c')
    ∧ (∀ j, j ≠ vindex item → c' !! j = c !! j)
    ∧ (vindex item ≠ 0 → c0 !! vindex item = None →
       y = match find_index vl (sortedList vl0) (vindex item - 1) with
           | Some prevItem =>
               (translateY prevItem
                + or_num (array_get hs (vindex item - 1)) avg)%Qc
           | None => or_num (acc !! (vindex item - 1)) 0%Qc
           end))
    as (y & c' & -> & Hother & Hy).
  { unfold cumulative_step. cbn [fst snd]. rewrite Hvk.
    destruct (decide (vindex item = 0)) as [Hj|Hj].
    { eexists _, _. by repeat split. }
    rewrite Hmine.
    destruct (c0 !! vindex item) as [z|] eqn:Hz.
    { eexists _, _. by repeat split. }
    eexists _, _. split; [done|]. split; [|done].
    intros j Hne. by rewrite lookup_insert_ne. }
  cbn [fst snd].
  assert (∀ k', k' ≠ k →
            <[k := set_translateY y item]> vl !! k' = vl !! k') as Hold
    by (intros k' Hne; by rewrite list_lookup_insert_ne).
  assert (<[k := set_translateY y item]> vl !! k
          = Some (set_translateY y item)) as Hnew
    by by rewrite list_lookup_insert_eq.
  split; [|split; [|split; [|split]]].
  - intros k' Hk'. rewrite Hold by set_solver. apply Hrest. set_solver.
  - intros k'. destruct (decide (k' = k)) as [->|Hne].
    + by rewrite Hnew, Hitem.
    + by rewrite Hold.
  - intros j Hj. rewrite Hother.
    + apply Hcache. intros k1 v Hk1. apply Hj. set_solver.
    + intros ->. apply (Hj k item); [set_solver|done|done].
  - intros k1 k2 v u Hk1 Hk2 Hv Hu Hvu Hmiss.
    destruct (decide (k1 = k)) as [->|Hne1];
      destruct (decide (k2 = k)) as [->|Hne2].
    + rewrite Hnew in Hv, Hu. simplify_eq. unfold vindex in Hvu.
      cbn in Hvu. lia.
    + rewrite Hnew in Hv. rewrite Hold in Hu by done.
      injection Hv as <-.
      change (vindex (set_translateY y item)) with (vindex item)
        in Hvu, Hmiss.
      cbn [translateY set_translateY].
      assert (k2 ∈ done) as Hin2 by set_solver.
      rewrite Hy by (done || lia).
      replace (vindex item - 1) with (vindex u) by lia.
      destruct (find_index vl (sortedList vl0) (vindex u)) as [prevItem|]
        eqn:Hfind.
      * apply find_index_Some in Hfind as (k' & Hk' & Hvk' & Hprev).
        destruct (Hback k' prevItem Hvk') as (p0 & Hp0 & Hp0i).
        destruct (Hback k2 u Hu) as (u0 & Hu0 & Hu0i).
        assert (k' = k2) as -> by (eapply unique_position; [done..|lia]).
        by simplify_eq.
      * exfalso. eapply (find_index_None _ _ _ Hfind k2 u); [|done..].
        apply Hall. destruct (Hback k2 u Hu) as (u0 & Hu0 & _).
        by eapply lookup_lt_Some.
    + rewrite Hnew in Hu. rewrite Hold in Hv by done.
      injection Hu as <-.
      change (vindex (set_translateY y item)) with (vindex item) in Hvu.
      assert (k1 ∈ done) as Hin1 by set_solver.
      destruct (Hback k1 v Hv) as (v0 & Hv0 & Hv0i).
      pose proof (Hbefore k1 v0 Hin1 Hv0). lia.
    + rewrite Hold in Hv, Hu by done.
      apply (Hstack k1 k2); [set_solver|set_solver|done..].
  - intros k1 v Hk1 Hv Hj Hmiss Hnoprev.
    destruct (decide (k1 = k)) as [->|Hne1].
    + rewrite Hnew in Hv. injection Hv as <-.
      change (vindex (set_translateY y item)) with (vindex item) in *.
      cbn [translateY set_translateY]. rewrite Hy by done.
      destruct (find_index vl (sortedList vl0) (vindex item - 1))
        as [prevItem|] eqn:Hfind; [|done].
      exfalso. apply find_index_Some in Hfind as (k' & Hk' & Hvk' & Hprev).
      destruct (Hback k' prevItem Hvk') as (p0 & Hp0 & Hp0i).
      apply Hnoprev. apply list_elem_of_fmap. exists p0.
      split; [lia|]. by eapply list_elem_of_lookup_2.
    + rewrite Hold in Hv by done.
      apply (Hfall k1); [set_solver|done..].
Qed.

Lemma cumulative_loop_walked (todo : list nat) : ∀ (done : list nat) vl
    (c : gmap nat Qc),
  sortedList vl0 = done ++ todo →
  walked hs avg acc vl0 c0 done vl c →
  let r' := foldl (cumulative_step hs avg acc (sortedList vl0)) (vl, c) todo in
  walked hs avg acc vl0 c0 (sortedList vl0) r'.1 r'.2.
Proof.
  induction todo as [|k todo IH]; intros done vl c Hord Hwalked.
  { rewrite app_nil_r in Hord. by rewrite Hord. }
  cbn [foldl].
  pose proof (cumulative_step_walked done todo k vl c Hord Hwalked) as Hstep.
  destruct (cumulative_step _ _ _ _ (vl, c) k) as [vl' c'].
  apply (IH (done ++ [k])); [by rewrite <- app_assoc|done].
Qed.

Lemma cumulative_loop_stacks :
  let r' := foldl (cumulative_step hs avg acc (sortedList vl0)) (vl0, c0)
              (sortedList vl0) in
  (∀ u v, u ∈ r'.1 → v ∈ r'.1 →
      vindex v = S (vindex u) → c0 !! vindex v = None →
      translateY v
      = (translateY u + or_num (array_get hs (vindex u)) avg)%Qc)
  ∧ (∀ v, v ∈ r'.1 → vindex v ≠ 0 → c0 !! vindex v = None →
      vindex v - 1 ∉ vindex <$> vl0 →
      translateY v = or_num (acc !! (vindex v - 1)) 0%Qc).
Proof.
  destruct (cumulative_loop_walked (sortedList vl0) [] vl0 c0)
    as (_ & Hidx & _ & Hstack & Hfall); [done| |].
  { split; [done|]. split; [done|]. split; [done|].
    split; intros; set_solver. }
  set (r' := foldl _ _ _) in *. cbn zeta.
  assert (∀ k v, r'.1 !! k = Some v → k ∈ sortedList vl0) as Hin.
  { intros k v Hv. rewrite sortedList_perm. apply elem_of_seq.
    specialize (Hidx k). rewrite Hv in Hidx.
    destruct (vl0 !! k) eqn:Hk; [|done]. apply lookup_lt_Some in Hk. lia. }
  split.
  - intros u v Hu Hv.
    apply list_elem_of_lookup in Hu as [k2 Hk2].
    apply list_elem_of_lookup in Hv as [k1 Hk1].
    apply (Hstack k1 k2); eauto.
  - intros v Hv. apply list_elem_of_lookup in Hv as [k1 Hk1].
    apply (Hfall k1); eauto.
Qed.

End CumulativeStacks.

(** X17.  The cumulative strategy stacks the window.  When the indices of
    the window are distinct, an element [v] that had no cached offset
    before the pass is placed right below the element [u] of the window
    with the index before its own, at [u.translateY] plus the effective
    height of [u]'s index, whatever the cumulative index says; when the
    window has no such element it is placed where the cumulative index
    says. *)
Theorem updateItemPositionsCumulative_stacks st :
  NoDup (vindex <$> virtualList st) →
  let st' := updateItemPositionsCumulative st in
  (∀ u v, u ∈ virtualList st' → v ∈ virtualList st' →
      vindex v = S (vindex u) → positionCache st !! vindex v = None →
      translateY v = (translateY u + heightOf st (vindex u))%Qc)
  ∧ (∀ v, v ∈ virtualList st' → vindex v ≠ 0 →
      positionCache st !! vindex v = None →
      vindex v - 1 ∉ vindex <$> virtualList st →
      translateY v = offset (accumulatedHeights st) (vindex v)).
Proof.
  intros Hnd. cbn zeta. unfold updateItemPositionsCumulative.
  cbn [virtualList set_positionCache set_virtualList].
  destruct (cumulative_loop_stacks (itemHeights st) (averageHeight st)
              (accumulatedHeights st) (virtualList st) (positionCache st)
              Hnd) as [Hstack Hfall].
  split; [exact Hstack|].
  intros v Hv Hj Hmiss Hnoprev. unfold offset. rewrite decide_False by done.
  by apply Hfall.
Qed.

(** X18.  In cumulative mode, a targeted re-measurement that finds a height
    differing from the effective one by more than 1 leaves the window
    stacked from the measured index on: every element with an index from
    [i] on sits right below the element of the window with the index
    before its own, at that element's offset plus the effective height of
    its index as the table has it after the update. *)
Theorem updateElementHeight_cb_restacks p (i : nat) (rects : list Rect)
    (targetRect : Rect) st :
  positionMode p = cumulative →
  NoDup (vindex <$> virtualList st) →
  find (λ rect, bool_decide (dataset_index rect = Some i)) rects
  = Some targetRect →
  truthy (height targetRect) = true →
  (1 < Qc_abs (heightOf st i - Qc_max 1 (height targetRect)))%Qc →
  let st' := updateElementHeight_cb p i rects st in
  ∀ u v, u ∈ virtualList st' → v ∈ virtualList st' →
    vindex v = S (vindex u) → i ≤ vindex v < length (copyList st) →
    translateY v = (translateY u + heightOf st' (vindex u))%Qc.
Proof.
  intros Hmode Hnd Hfind Htruthy Hdiff. cbn zeta.
  unfold updateElementHeight_cb. rewrite Hfind, Htruthy.
  rewrite decide_False by by apply Qclt_not_le.
  unfold updateItemPositions. rewrite Hmode.
  unfold updateItemPositionsCumulative.
  match goal with
  | |- context [updateAccumulatedHeights ?s] => set (st4 := s)
  end.
  cbn [virtualList set_positionCache set_virtualList].
  change (virtualList (updateAccumulatedHeights st4))
    with (virtualList st4).
  change (itemHeights (updateAccumulatedHeights st4))
    with (itemHeights st4).
  change (averageHeight (updateAccumulatedHeights st4))
    with (averageHeight st4).
  change (positionCache (updateAccumulatedHeights st4))
    with (positionCache st4).
  assert (NoDup (vindex <$> virtualList st4)) as Hnd4.
  { subst st4. cbn [virtualList set_positionCache set_copyList
                    set_virtualList set_itemHeights].
    by rewrite update_first_fmap. }
  destruct (cumulative_loop_stacks (itemHeights st4) (averageHeight st4)
              (accumulatedHeights (updateAccumulatedHeights st4))
              (virtualList st4) (positionCache st4) Hnd4) as [Hstack _].
  intros u v Hu Hv Hvu [Hiv Hvn].
  unfold heightOf. cbn [itemHeights averageHeight set_positionCache
                        set_virtualList].
  apply Hstack; [done..|].
  subst st4. cbn [positionCache set_positionCache].
  rewrite clearCacheFrom_lookup.
  cbn [copyList set_copyList set_virtualList set_itemHeights].
  assert (length (update_first (λ x : SourceItem A, bool_decide (index x = i))
                    (set_measuredHeight (Qc_max 1 (height targetRect)))
                    (copyList st))
          = length (copyList st)) as ->.
  { rewrite <- (length_fmap index), update_first_fmap by done.
    apply length_fmap. }
  by rewrite decide_True.
Qed.

(** ** Answers without a valid rect *)

Lemma batchHeights_none (rects : list Rect) (rect : Rect) :
  batchHeights rects = [] → rect ∈ rects → valid_rect rect = None.
Proof.
  induction rects as [|r rects IH]; intros Hnil Hin.
  { by apply elem_of_nil in Hin. }
  rewrite batchHeights_cons in Hnil.
  destruct (valid_rect r) as [[j h]|] eqn:Hr; [done|].
  apply elem_of_cons in Hin as [->|Hin]; [done|by apply IH].
Qed.

(** X19.  An answer to a geometry query in which no rect passes the validity
    test (a known index and a non-zero height) changes nothing, for each
    of the three queries. *)
Theorem invalid_answers_ignored p (i : nat) (rects : list Rect) st :
  batchHeights rects = [] →
  measureInitialSample_cb p rects st = st
  ∧ measureItemHeights_cb p rects st = st
  ∧ updateElementHeight_cb p i rects st = st.
Proof.
  intros Hnil. split; [|split].
  - unfold measureInitialSample_cb. destruct rects as [|rect rects]; [done|].
    destruct (initialSample_heights_writes p (rect :: rects) st)
      as (_ & _ & _ & _ & _ & _ & Heq).
    rewrite (Heq Hnil). cbn. by destruct (decide (0 < 0)) as [?|_]; [lia|].
  - unfold measureItemHeights_cb. destruct rects as [|rect rects]; [done|].
    rewrite measureItemHeights_loop_flag.
    + cbn [heightsChanged batch0 andb].
      rewrite measureItemHeights_loop_unchanged.
      * rewrite (measuredOf_none _ Hnil), (left_id_L ∅ (∪)).
        apply set_measuredIndices_id.
      * by rewrite measureItemHeights_loop_flag
          by (intros r j h Hin Hvalid;
              by rewrite (batchHeights_none _ r Hnil Hin) in Hvalid).
    + intros r j h Hin Hvalid.
      by rewrite (batchHeights_none _ r Hnil Hin) in Hvalid.
  - unfold updateElementHeight_cb.
    destruct (find _ rects) as [targetRect|] eqn:Hfind; [|done].
    apply find_some in Hfind as [Hin Hidx].
    apply bool_decide_eq_true_1 in Hidx.
    pose proof (batchHeights_none rects targetRect Hnil
                  (proj2 (list_elem_of_In _ _) Hin)) as Hnone.
    unfold valid_rect in Hnone. rewrite Hidx in Hnone.
    by destruct (truthy (height targetRect)).
Qed.

End Extras.

(** * The further properties on concrete inputs *)

(** Scroll events at 1000, 1010, 1040, 1050 and 1080 ms through the
    32 ms throttle of [handleScrollThrottled]. *)
Lemma throttled_spacing_witness :
  throttled 32 0 [1000; 1010; 1040; 1050; 1080]%Z = [1000; 1040; 1080]%Z
  ∧ (32 ≤ 1040 - 1000)%Z.
Proof.
  split; [reflexivity|].
  destruct (throttled_spacing 32 [1000; 1010; 1040; 1050; 1080]%Z 0)
    as (_ & _ & Hgap).
  apply (Hgap 0); reflexivity.
Defined.

(** Three items of height 100 and the offset 250. *)
Lemma getIndexByScrollTop_in_range_witness :
  accumulatedHeights (populated three 3) ≠ []
  ∧ ∃ r, getIndexByScrollTop (populated three 3) (num 250) = Int r
         ∧ (0 ≤ r ≤ Z.of_nat (length (accumulatedHeights
                                         (populated three 3))))%Z.
Proof.
  assert (accumulatedHeights (populated three 3) ≠ []) as Hne
    by (intros Hempty; by vm_compute in Hempty).
  split; [exact Hne|].
  exact (getIndexByScrollTop_in_range (populated three 3) (num 250) Hne).
Defined.

(** The jump of the specification's scenario, repeated. *)
Lemma updateVisibleItems_idempotent_witness :
  (0 ≤ preloadCount defaults)%Z
  ∧ updateVisibleItems defaults (num 50050) jumped = jumped.
Proof.
  assert (0 ≤ preloadCount defaults)%Z as HP by by vm_compute.
  split; [exact HP|].
  exact (updateVisibleItems_idempotent defaults (num 50050)
           (populated defaults 1000) HP).
Defined.

(** Three items of height 100 measured at 101, 100 and 99. *)
Lemma measureItemHeights_cb_suppresses_jitter_witness :
  (∀ rect i h, rect ∈ jitterRects → valid_rect rect = Some (i, h) →
               heightDiffers (populated three 3) i h = false)
  ∧ measureItemHeights_cb three jitterRects (populated three 3)
    = set_measuredIndices
        (measuredOf jitterRects ∪ measuredIndices (populated three 3))
        (populated three 3).
Proof.
  assert (∀ rect i h,
            rect ∈ jitterRects → valid_rect rect = Some (i, h) →
            heightDiffers (populated three 3) i h = false) as Hsame.
  { intros r i h Hin Hvalid. unfold jitterRects in Hin.
    repeat (apply elem_of_cons in Hin as [->|Hin]);
      [..|by apply elem_of_nil in Hin];
      vm_compute in Hvalid; injection Hvalid as <- <-; by vm_compute. }
  split; [exact Hsame|].
  exact (measureItemHeights_cb_suppresses_jitter three jitterRects
           (populated three 3) Hsame).
Defined.

(** The run [populateAndGrow]: the third item has a stored height. *)
Lemma run_index_fresh_witness :
  2 < length (copyList (run three populateAndGrow))
  ∧ is_Some (array_get (itemHeights (run three populateAndGrow)) 2).
Proof.
  assert (2 < length (copyList (run three populateAndGrow))) as Hlt
    by (vm_compute; lia).
  split; [exact Hlt|].
  exact (proj2 (run_index_fresh three populateAndGrow) 2 Hlt).
Defined.

(** The run [populateAndGrow] with the nominal height 100. *)
Lemma run_index_increasing_witness :
  (0 < itemHeight three)%Qc
  ∧ increasing (accumulatedHeights (run three populateAndGrow)).
Proof.
  assert (0 < itemHeight three)%Qc as Hp by by vm_compute.
  split; [exact Hp|].
  exact (proj2 (proj2 (run_index_increasing three populateAndGrow Hp))).
Defined.

(** The events [oneScroll] during a scroll of three populated items: the
    initial sample that was pending is still pending. *)
Lemma scrolling_defers_measurement_witness :
  forallb while_scrolling oneScroll = true
  ∧ heightUpdateTimeout
      (foldl (handle three) (scrollStarts (populated three 3)) oneScroll)
    = heightUpdateTimeout (populated three 3).
Proof.
  assert (forallb while_scrolling oneScroll = true) as Hes by reflexivity.
  split; [exact Hes|].
  exact (proj2 (scrolling_defers_measurement three oneScroll
                  (populated three 3) Hes)).
Defined.

(** Three items of height 100 in absolute mode; item 0 is found at 150. *)
Lemma updateElementHeight_cb_repositions_witness :
  positionMode threeAbsolute = absolute
  ∧ truthy (height (rect 0 150)) = true
  ∧ (1 < Qc_abs (heightOf (populated threeAbsolute 3) 0
                 - Qc_max 1 (height (rect 0 150))))%Qc
  ∧ Forall (λ v, 0 ≤ vindex v
                   < length (copyList (populated threeAbsolute 3)) →
                 translateY v
                 = offset
                     (accumulatedHeights
                        (updateElementHeight_cb threeAbsolute 0 grownRects
                           (populated threeAbsolute 3)))
                     (vindex v))
      (virtualList (updateElementHeight_cb threeAbsolute 0 grownRects
                      (populated threeAbsolute 3))).
Proof.
  assert (truthy (height (rect 0 150)) = true) as Htruthy by by vm_compute.
  assert (1 < Qc_abs (heightOf (populated threeAbsolute 3) 0
                      - Qc_max 1 (height (rect 0 150))))%Qc as Hdiff
    by by vm_compute.
  split; [reflexivity|]. split; [exact Htruthy|]. split; [exact Hdiff|].
  exact (proj2 (proj2 (updateElementHeight_cb_repositions threeAbsolute 0
                         grownRects (rect 0 150)
                         (populated threeAbsolute 3)
                         eq_refl eq_refl Htruthy Hdiff))).
Defined.

(** Three items of height 100 after [refreshHeight] has emptied the cache:
    the second sits right below the first. *)
Lemma updateItemPositionsCumulative_stacks_witness :
  NoDup (vindex <$> virtualList (refreshHeight (populated three 3)))
  ∧ ∃ u v,
      virtualList (updateItemPositionsCumulative
                     (refreshHeight (populated three 3))) !! 0 = Some u
      ∧ virtualList (updateItemPositionsCumulative
                       (refreshHeight (populated three 3))) !! 1 = Some v
      ∧ translateY v
        = (translateY u
           + heightOf (refreshHeight (populated three 3)) (vindex u))%Qc.
Proof.
  assert (vindex <$> virtualList (refreshHeight (populated three 3))
          = [0; 1; 2]) as Hwin by by vm_compute.
  assert (NoDup (vindex <$> virtualList (refreshHeight (populated three 3))))
    as Hnd
    by (rewrite Hwin; apply (bool_decide_unpack _); by vm_compute).
  split; [exact Hnd|].
  pose proof (updateItemPositionsCumulative_stacks
                (refreshHeight (populated three 3)) Hnd) as [Hstack _].
  assert ((vindex <$> virtualList
             (updateItemPositionsCumulative
                (refreshHeight (populated three 3)))) !! 0 = Some 0) as H0
    by by vm_compute.
  assert ((vindex <$> virtualList
             (updateItemPositionsCumulative
                (refreshHeight (populated three 3)))) !! 1 = Some 1) as H1
    by by vm_compute.
  rewrite list_lookup_fmap in H0. rewrite list_lookup_fmap in H1.
  apply fmap_Some in H0 as (u & Hu & Hiu).
  apply fmap_Some in H1 as (v & Hv & Hiv).
  exists u, v. split; [exact Hu|]. split; [exact Hv|].
  apply Hstack.
  - by eapply list_elem_of_lookup_2.
  - by eapply list_elem_of_lookup_2.
  - congruence.
  - rewrite <- Hiv. by vm_compute.
Defined.

(** The targeted re-measurement of [grownTargeted]: item 0 is found at
    150, and item 1 sits right below it. *)
Lemma updateElementHeight_cb_restacks_witness :
  positionMode three = cumulative
  ∧ NoDup (vindex <$> virtualList (populated three 3))
  ∧ truthy (height (rect 0 150)) = true
  ∧ (1 < Qc_abs (heightOf (populated three 3) 0
                 - Qc_max 1 (height (rect 0 150))))%Qc
  ∧ ∃ u v,
      virtualList grownTargeted !! 0 = Some u
      ∧ virtualList grownTargeted !! 1 = Some v
      ∧ translateY v = (translateY u + heightOf grownTargeted (vindex u))%Qc.
Proof.
  assert (vindex <$> virtualList (populated three 3) = [0; 1; 2]) as Hwin
    by by vm_compute.
  assert (NoDup (vindex <$> virtualList (populated three 3))) as Hnd
    by (rewrite Hwin; apply (bool_decide_unpack _); by vm_compute).
  assert (truthy (height (rect 0 150)) = true) as Htruthy by by vm_compute.
  assert (1 < Qc_abs (heightOf (populated three 3) 0
                      - Qc_max 1 (height (rect 0 150))))%Qc as Hdiff
    by by vm_compute.
  split; [reflexivity|]. split; [exact Hnd|]. split; [exact Htruthy|].
  split; [exact Hdiff|]. unfold grownTargeted.
  pose proof (updateElementHeight_cb_restacks three 0 grownRects (rect 0 150)
                (populated three 3) eq_refl Hnd eq_refl Htruthy Hdiff)
    as Hstack.
  cbn zeta in Hstack.
  assert ((vindex <$> virtualList
             (updateElementHeight_cb three 0 grownRects
                (populated three 3))) !! 0 = Some 0) as H0
    by by vm_compute.
  assert ((vindex <$> virtualList
             (updateElementHeight_cb three 0 grownRects
                (populated three 3))) !! 1 = Some 1) as H1
    by by vm_compute.
  assert (length (copyList (populated three 3)) = 3) as Hlen
    by by vm_compute.
  rewrite list_lookup_fmap in H0. rewrite list_lookup_fmap in H1.
  apply fmap_Some in H0 as (u & Hu & Hiu).
  apply fmap_Some in H1 as (v & Hv & Hiv).
  exists u, v. split; [exact Hu|]. split; [exact Hv|].
  apply Hstack.
  - by eapply list_elem_of_lookup_2.
  - by eapply list_elem_of_lookup_2.
  - congruence.
  - rewrite <- Hiv, Hlen. lia.
Defined.

(** An answer with a rect without index and a rect of height 0. *)
Lemma invalid_answers_ignored_witness :
  batchHeights [{| dataset_index := None; height := num 50 |}; rect 0 0] = []
  ∧ measureItemHeights_cb three
      [{| dataset_index := None; height := num 50 |}; rect 0 0]
      (populated three 3)
    = populated three 3.
Proof.
  assert (batchHeights
            [{| dataset_index := None; height := num 50 |}; rect 0 0] = [])
    as Hnil by by vm_compute.
  split; [exact Hnil|].
  exact (proj1 (proj2 (invalid_answers_ignored three 0
                         [{| dataset_index := None; height := num 50 |};
                          rect 0 0]
                         (populated three 3) Hnil))).
Defined.
